(** * Intel Parallel STL tests: a shallow embedding of the two harnesses

    The repository holds two small C++ programs built around the parallel
    algorithms of the standard library:

    - [IntelParSTL.cpp], the manual timing flow ([RunAndMeasure],
      [TestTrig], [TestDotProduct], [main]);
    - [IntelCompilerTests.cpp], the benchmark bodies ([BM_Trigonometry],
      [BM_SortPoints], [BM_DotProduct], [BM_CountingIter]).

    Doubles are binary64 values ([PrimFloat.float]); a C++ [float] is carried
    as the binary64 value it converts to, which is exact and keeps the order.
    Vectors are lists with checked indexing: an access the C++ standard
    leaves undefined is a [Fault].  The thread-local engines, the clock and
    the scheduler's decisions live in an explicit [World]. *)

From Stdlib Require Import ZArith List Lia Permutation Sorted String Ascii Floats.
From Stdlib Require Uint63.
From stdpp Require Import base list.
Import ListNotations.

(** * The model *)

(** ** Order of binary64 values *)

Module F64.
Local Open Scope Z_scope.

(** A non-NaN [spec_float] is ranked by a triple compared lexicographically:
    the class ([-inf], negative, zero, positive, [+inf]), the exponent and
    the mantissa, the last two negated below zero. *)
Definition key (f : spec_float) : Z * Z * Z :=
  match f with
  | S754_infinity true => (-2, 0, 0)
  | S754_finite true m e => (-1, - e, Z.neg m)
  | S754_zero _ => (0, 0, 0)
  | S754_finite false m e => (1, e, Z.pos m)
  | S754_infinity false => (2, 0, 0)
  | S754_nan => (3, 0, 0)
  end.

Definition lex_compare (k1 k2 : Z * Z * Z) : comparison :=
  let '(a1, b1, c1) := k1 in
  let '(a2, b2, c2) := k2 in
  match a1 ?= a2 with
  | Eq => match b1 ?= b2 with Eq => c1 ?= c2 | c => c end
  | c => c
  end.

Definition lex_lt (k1 k2 : Z * Z * Z) : Prop :=
  let '(a1, b1, c1) := k1 in
  let '(a2, b2, c2) := k2 in
  a1 < a2 \/ (a1 = a2 /\ (b1 < b2 \/ (b1 = b2 /\ c1 < c2))).

Definition lex_le (k1 k2 : Z * Z * Z) : Prop := lex_lt k1 k2 \/ k1 = k2.

(** [x] is an ordinary number: [x == x] holds, so [x] is not a NaN. *)
Definition is_num (x : float) : bool := negb (PrimFloat.is_nan x).

(** The sign bit of a number; a NaN has none. *)
Definition sign (f : spec_float) : option bool :=
  match f with
  | S754_zero s | S754_infinity s | S754_finite s _ _ => Some s
  | S754_nan => None
  end.

Definition fkey (x : float) : Z * Z * Z := key (Prim2SF x).

End F64.

(** ** The binary32 values among them *)

Module F32.

(** [std::numeric_limits<float>::max()]. *)
Definition max : float := 0x1.fffffep+127%float.

(** [static_cast<float>(x)]: [x] rounded to the nearest binary32 value, ties
    to even; an infinity beyond the range of [float]. *)
Definition of_double (x : float) : float :=
  match Prim2SF x with
  | S754_finite s m e => SF2Prim (binary_round 24 128 s m e)
  | _ => x
  end.

End F32.

(** ** Faults and results

    [operator[]] outside the vector, dereferencing [begin()] of an empty
    set and an [atoi] whose value does not fit an [int] are undefined in
    C++, and a vector of more than [max_size()] elements throws a
    [std::length_error] that nothing in the programs catches; the model
    stops there with a [Fault]. *)

Inductive fault : Type :=
  | OutOfBounds
  | EmptyContainer
  | IntOverflow
  | LengthError.

Inductive res (A : Type) : Type :=
  | Ok (a : A)
  | Fault (f : fault).
Arguments Ok {A} a.
Arguments Fault {A} f.

#[global] Instance res_ret : MRet res := @Ok.
#[global] Instance res_bind : MBind res := fun A B f m =>
  match m with
  | Ok a => f a
  | Fault e => Fault e
  end.

(** ** Machine integers *)

Module Int.
Local Open Scope Z_scope.

Definition INT_MIN : Z := - 2 ^ 31.
Definition INT_MAX : Z := 2 ^ 31 - 1.

(** Conversion to [int] (two's complement), to [unsigned int] and to
    [size_t]. *)
Definition to_int (z : Z) : Z := (z + 2 ^ 31) mod 2 ^ 32 - 2 ^ 31.
Definition to_unsigned (z : Z) : Z := z mod 2 ^ 32.
Definition to_size_t (z : Z) : Z := z mod 2 ^ 64.

(** The [size_type] an index expression converts to, as a position. *)
Definition subscript (i : Z) : nat := Z.to_nat (to_size_t i).

(** Conversion of an integer to [double]; exact below [2^53]. *)
Definition to_double (z : Z) : float :=
  if z <? 0 then PrimFloat.opp (PrimFloat.of_uint63 (Uint63.of_Z (- z)))
  else PrimFloat.of_uint63 (Uint63.of_Z z).

End Int.

(** ** Vectors *)

Definition vec_at {A} (v : list A) (i : nat) : res A :=
  match v !! i with
  | Some x => Ok x
  | None => Fault OutOfBounds
  end.

Definition vec_store {A} (v : list A) (i : nat) (x : A) : res (list A) :=
  if decide (i < length v) then Ok (<[i := x]> v) else Fault OutOfBounds.

(** An iterator range [first, last): its length and the element at each
    offset. *)
Record range (A : Type) : Type := {
  range_len : nat;
  range_at : nat -> res A
}.
Arguments range_len {A} r.
Arguments range_at {A} r i.

Definition vector_range {A} (v : list A) : range A :=
  {| range_len := length v; range_at := vec_at v |}.

(** [pstl::counting_iterator<int64_t>(first)] up to [(last)]. *)
Definition counting_range (first last : Z) : range Z :=
  {| range_len := Z.to_nat (last - first);
     range_at := fun i => Ok (first + Z.of_nat i)%Z |}.

Fixpoint fold_res {S X} (body : X -> S -> res S) (xs : list X) (s : S) : res S :=
  match xs with
  | [] => Ok s
  | x :: xs' => s' ← body x s; fold_res body xs' s'
  end.

(** ** [std::set<double>]: the elements in ascending order, none equivalent
    to another under [<]. *)

Module DoubleSet.

Fixpoint insert (x : float) (s : list float) : list float :=
  match s with
  | [] => [x]
  | y :: s' =>
      if PrimFloat.ltb x y then x :: s
      else if PrimFloat.ltb y x then y :: insert x s'
      else s
  end.

(** [*s.begin()] and [*s.rbegin()]. *)
Definition front (s : list float) : res float :=
  match s with
  | x :: _ => Ok x
  | [] => Fault EmptyContainer
  end.

Definition back (s : list float) : res float :=
  match last s with
  | Some x => Ok x
  | None => Fault EmptyContainer
  end.

(** The set after inserting [ds] one by one. *)
Definition insert_all (s : list float) (ds : list float) : list float :=
  foldl (fun s d => insert d s) s ds.

Fixpoint ascending (s : list float) : Prop :=
  match s with
  | [] => True
  | x :: s' => Forall (fun y => PrimFloat.ltb x y = true) s' /\ ascending s'
  end.

End DoubleSet.

(** ** Execution policies and schedules *)

Inductive Policy : Type :=
  | pstl_seq
  | pstl_unseq
  | pstl_par
  | pstl_par_unseq
  | std_seq
  | std_par.

Definition in_order (p : Policy) : bool :=
  match p with
  | pstl_seq | std_seq => true
  | _ => false
  end.

Definition multi_threaded (p : Policy) : bool :=
  match p with
  | pstl_par | pstl_par_unseq | std_par => true
  | _ => false
  end.

(** The element access functions of one algorithm call run one after the
    other in some order, each on some thread.  The order is read off a list
    of scheduler decisions: decision [c] takes the element at position
    [c mod k] of the [k] indices still to do. *)
Fixpoint pick_order (fuel : nat) (codes : list nat) (rest : list nat) : list nat :=
  match fuel with
  | O => []
  | S fuel' =>
      match rest with
      | [] => []
      | r0 :: _ =>
          let j := hd 0 codes mod length rest in
          nth j rest r0 :: pick_order fuel' (tl codes) (delete j rest)
      end
  end.

Record slot : Type := { thread : nat; index : nat }.

Definition main_thread : nat := 0.

Definition schedule (p : Policy) (n : nat) (codes : list nat)
    (worker : nat -> nat) : list slot :=
  let order := if in_order p then seq 0 n else pick_order n codes (seq 0 n) in
  (fun i => {| thread := if multi_threaded p then worker i else main_thread;
               index := i |}) <$> order.

(** GENERALIZED_SUM of the standard: the operands are combined two at a
    time, in any order and grouping; the decisions choose which two. *)
Fixpoint generalized_sum {A} (op : A -> A -> A) (fuel : nat) (codes : list nat)
    (x : A) (xs : list A) : A :=
  match fuel, xs with
  | S fuel', _ :: _ =>
      let l := x :: xs in
      let i := hd 0 codes mod length l in
      let a := nth i l x in
      let l1 := delete i l in
      let j := hd 0 (tl codes) mod length l1 in
      let b := nth j l1 x in
      generalized_sum op fuel' (tl (tl codes)) (op a b) (delete j l1)
  | _, _ => x
  end.

(** ** [glm::vec4] *)

Module glm.
Record vec4 : Type := { x : float; y : float; z : float; w : float }.
End glm.

(** ** What is written to [std::cout] *)

Inductive token : Type :=
  | Str (s : string)
  | Chr (c : ascii)
  | Dbl (d : float)
  | Num (z : Z).

Class Streamable (R : Type) := stream : R -> token.
#[global] Instance float_streamable : Streamable float := Dbl.
#[global] Instance Z_streamable : Streamable Z := Num.

(** ** The library underneath

    The bytes a vector may span ([max_size()] times the size of an
    element), [sin] and [cos] of the C library, the default random engine with its
    distributions, and [std::sort], whose algorithm the standard leaves
    open. *)

(** The state of a random engine: its bits, read as a number. *)
Definition Engine : Type := Z.

Class Runtime : Type := {
  max_bytes : N;
  sin : float -> float;
  cos : float -> float;
  default_random_engine : Engine;
  uniform_real_distribution : float -> float -> Engine -> float * Engine;
  uniform_int_distribution : Z -> Z -> Engine -> Z * Engine;
  std_sort : forall A : Type, (A -> A -> bool) -> list nat -> list A -> list A
}.
Arguments std_sort {_ A} comp codes v.

(** What the standard promises of them: a draw lies between the bounds it
    was given, for a real distribution when [a <= b] and
    [b - a <= numeric_limits<RealType>::max()], for an integer one when
    [a <= b]; and a sort by a strict weak order returns a permutation in
    which no later element is [comp]-before an earlier one.  The real
    distribution stands for the one over [float] and the one over
    [double]: the promise is taken where both make it, up to the [max()]
    of [float]. *)
Definition strict_weak_order {A} (comp : A -> A -> bool) (v : list A) : Prop :=
  (forall a, a ∈ v -> comp a a = false) /\
  (forall a b c, a ∈ v -> b ∈ v -> c ∈ v ->
     comp a b = true -> comp b c = true -> comp a c = true) /\
  (forall a b c, a ∈ v -> b ∈ v -> c ∈ v ->
     comp a b = false -> comp b a = false ->
     comp b c = false -> comp c b = false ->
     comp a c = false /\ comp c a = false).

Definition sorted_by {A} (comp : A -> A -> bool) (v : list A) : Prop :=
  forall i j a b, i < j -> v !! i = Some a -> v !! j = Some b -> comp b a = false.

Class Conforming (rt : Runtime) : Prop := {
  max_bytes_addressable : (Z.of_N max_bytes < 2 ^ 64)%Z;
  uniform_real_range : forall a b g,
    PrimFloat.leb a b = true ->
    PrimFloat.leb (PrimFloat.sub b a) F32.max = true ->
    PrimFloat.leb a (uniform_real_distribution a b g).1 = true /\
    PrimFloat.leb (uniform_real_distribution a b g).1 b = true;
  uniform_int_range : forall a b g,
    (a <= b)%Z ->
    (a <= (uniform_int_distribution a b g).1 <= b)%Z;
  std_sort_permutation : forall A (comp : A -> A -> bool) codes v,
    strict_weak_order comp v -> std_sort comp codes v ≡ₚ v;
  std_sort_sorted : forall A (comp : A -> A -> bool) codes v,
    strict_weak_order comp v -> sorted_by comp (std_sort comp codes v)
}.

(** ** The world around the program *)

(** The [thread_local static] engine [rd] of each generator function, one
    per thread and default-constructed on first use; the readings
    [steady_clock::now()] will return, in ticks of a nanosecond; the
    decisions the scheduler will take at each policy-taking call; and what
    has been written to [std::cout]. *)
Record World : Type := {
  rd_GenRandomFloat : nat -> Engine;
  rd_GenRandomInt : nat -> Engine;
  rd_random_number_generator : nat -> Engine;
  clock : nat -> Z;
  clock_reads : nat;
  sched_codes : nat -> list nat;
  sched_worker : nat -> nat -> nat;
  sched_calls : nat;
  cout : list token
}.

Definition set_rd_GenRandomFloat (f : nat -> Engine) (w : World) : World :=
  {| rd_GenRandomFloat := f; rd_GenRandomInt := rd_GenRandomInt w;
     rd_random_number_generator := rd_random_number_generator w;
     clock := clock w; clock_reads := clock_reads w;
     sched_codes := sched_codes w; sched_worker := sched_worker w;
     sched_calls := sched_calls w; cout := cout w |}.

Definition set_rd_GenRandomInt (f : nat -> Engine) (w : World) : World :=
  {| rd_GenRandomFloat := rd_GenRandomFloat w; rd_GenRandomInt := f;
     rd_random_number_generator := rd_random_number_generator w;
     clock := clock w; clock_reads := clock_reads w;
     sched_codes := sched_codes w; sched_worker := sched_worker w;
     sched_calls := sched_calls w; cout := cout w |}.

Definition set_rd_random_number_generator (f : nat -> Engine) (w : World) : World :=
  {| rd_GenRandomFloat := rd_GenRandomFloat w; rd_GenRandomInt := rd_GenRandomInt w;
     rd_random_number_generator := f;
     clock := clock w; clock_reads := clock_reads w;
     sched_codes := sched_codes w; sched_worker := sched_worker w;
     sched_calls := sched_calls w; cout := cout w |}.

Definition set_clock_reads (n : nat) (w : World) : World :=
  {| rd_GenRandomFloat := rd_GenRandomFloat w; rd_GenRandomInt := rd_GenRandomInt w;
     rd_random_number_generator := rd_random_number_generator w;
     clock := clock w; clock_reads := n;
     sched_codes := sched_codes w; sched_worker := sched_worker w;
     sched_calls := sched_calls w; cout := cout w |}.

Definition set_sched_calls (n : nat) (w : World) : World :=
  {| rd_GenRandomFloat := rd_GenRandomFloat w; rd_GenRandomInt := rd_GenRandomInt w;
     rd_random_number_generator := rd_random_number_generator w;
     clock := clock w; clock_reads := clock_reads w;
     sched_codes := sched_codes w; sched_worker := sched_worker w;
     sched_calls := n; cout := cout w |}.

Definition set_cout (c : list token) (w : World) : World :=
  {| rd_GenRandomFloat := rd_GenRandomFloat w; rd_GenRandomInt := rd_GenRandomInt w;
     rd_random_number_generator := rd_random_number_generator w;
     clock := clock w; clock_reads := clock_reads w;
     sched_codes := sched_codes w; sched_worker := sched_worker w;
     sched_calls := sched_calls w; cout := c |}.

(** A computation over the variables in scope (the frame [L]: what a lambda
    captures by reference, what a function holds as locals) and the world. *)
Definition Prog (L A : Type) : Type := L -> World -> res (A * L * World).

#[global] Instance Prog_ret {L} : MRet (Prog L) := fun A a l w => Ok (a, l, w).
#[global] Instance Prog_bind {L} : MBind (Prog L) := fun A B f m l w =>
  match m l w with
  | Ok (a, l', w') => f a l' w'
  | Fault e => Fault e
  end.

Definition lift_res {L A} (r : res A) : Prog L A := fun l w =>
  match r with
  | Ok a => Ok (a, l, w)
  | Fault e => Fault e
  end.

Definition get_frame {L} : Prog L L := fun l w => Ok (l, l, w).
Definition put_frame {L} (l' : L) : Prog L unit := fun _ w => Ok (tt, l', w).

(** A block with its own locals, gone when the block ends. *)
Definition scope {L L' A} (locals : L') (body : Prog L' A) : Prog L A := fun l w =>
  match body locals w with
  | Ok (a, _, w') => Ok (a, l, w')
  | Fault e => Fault e
  end.

Definition now {L} : Prog L Z := fun l w =>
  Ok (clock w (clock_reads w), l, set_clock_reads (S (clock_reads w)) w).

Definition print {L} (ts : list token) : Prog L unit := fun l w =>
  Ok (tt, l, set_cout (cout w ++ ts) w).

(** The scheduler's decisions for the next policy-taking call. *)
Definition next_decisions {L} : Prog L (list nat * (nat -> nat)) := fun l w =>
  Ok ((sched_codes w (sched_calls w), sched_worker w (sched_calls w)), l,
      set_sched_calls (S (sched_calls w)) w).

Definition next_schedule {L} (p : Policy) (n : nat) : Prog L (list slot) :=
  d ← next_decisions; mret (schedule p n d.1 d.2).

Fixpoint fold_prog {L S X} (body : X -> S -> Prog L S) (xs : list X) (s : S) : Prog L S :=
  match xs with
  | [] => mret s
  | x :: xs' => s' ← body x s; fold_prog body xs' s'
  end.

(** [for (auto _ : state)]: the framework decides how often. *)
Fixpoint iterate {L} (iterations : nat) (body : Prog L unit) : Prog L unit :=
  match iterations with
  | O => mret tt
  | S k => body;; iterate k body
  end.

Section Program.
Context {rt : Runtime}.

(** [std::vector<T> v(n, value)], [n] a [size_t] and [T] of [bytes]
    bytes: [n > max_size()] throws. *)
Definition vector_n {L A} (bytes : Z) (n : Z) (value : A) : Prog L (list A) :=
  lift_res (if (Z.of_N max_bytes <? n * bytes)%Z then Fault LengthError
            else Ok (replicate (Z.to_nat n) value)).

(** ** The random generators *)

Definition draw {A} (t : nat) (dist : Engine -> A * Engine)
    (rd : nat -> Engine) : A * (nat -> Engine) :=
  let '(v, g) := dist (rd t) in
  (v, fun t' => if decide (t' = t) then g else rd t').

(** [GenRandomFloat] as called on thread [t]. *)
Definition GenRandomFloat {L} (lower upper : float) (t : nat) : Prog L float := fun l w =>
  let '(v, rd) := draw t (uniform_real_distribution lower upper) (rd_GenRandomFloat w) in
  Ok (v, l, set_rd_GenRandomFloat rd w).

Definition GenRandomInt {L} (lower upper : Z) (t : nat) : Prog L Z := fun l w =>
  let '(v, rd) := draw t (uniform_int_distribution lower upper) (rd_GenRandomInt w) in
  Ok (v, l, set_rd_GenRandomInt rd w).

Definition random_number_generator {L} (t : nat) : Prog L float := fun l w =>
  let '(v, rd) := draw t (uniform_real_distribution 0 1) (rd_random_number_generator w) in
  Ok (v, l, set_rd_random_number_generator rd w).

(** ** The algorithms *)

(** [std::generate(first, last, gen)], in order on the calling thread. *)
Definition generate {L A} (v : list A) (gen : nat -> Prog L A) : Prog L (list A) :=
  fold_prog (fun i d => x ← gen main_thread; lift_res (vec_store d i x))
    (seq 0 (length v)) v.

(** [std::generate(policy, first, last, gen)]. *)
Definition generate_policy {L A} (p : Policy) (v : list A)
    (gen : nat -> Prog L A) : Prog L (list A) :=
  sch ← next_schedule p (length v);
  fold_prog (fun sl d => x ← gen (thread sl); lift_res (vec_store d (index sl) x))
    sch v.

(** [std::transform(policy, first, last, d_first, op)]: element [i] of the
    input goes through [op] into [d_first[i]]. *)
Definition transform_slots {A B} (op : A -> res B) (src : range A)
    (sch : list slot) (dst : list B) : res (list B) :=
  fold_res (fun sl d =>
              x ← range_at src (index sl);
              y ← op x;
              vec_store d (index sl) y) sch dst.

Definition transform {L A B} (p : Policy) (src : range A) (dst : list B)
    (op : A -> res B) : Prog L (list B) :=
  sch ← next_schedule p (range_len src);
  lift_res (transform_slots op src sch dst).

(** [std::for_each(policy, first, last, f)]; [f] knows the thread it is on. *)
Definition for_each {L A} (p : Policy) (src : range A)
    (f : nat -> A -> Prog L unit) : Prog L unit :=
  sch ← next_schedule p (range_len src);
  fold_prog (fun sl _ => x ← lift_res (range_at src (index sl)); f (thread sl) x)
    sch tt.

(** [std::transform_reduce(policy, first1, last1, first2, init, reduce,
    transform)]. *)
Definition transform_reduce {L} (p : Policy) (a b : list float) (init : float)
    (reduce transform : float -> float -> float) : Prog L float :=
  d ← next_decisions;
  prods ← lift_res
    (fold_res (fun i acc =>
                 x ← vec_at a i; y ← vec_at b i; Ok (acc ++ [transform x y]))
              (seq 0 (length a)) []);
  mret (generalized_sum reduce (length prods) d.1 init prods).

(** [std::sort(policy, first, last, comp)]. *)
Definition sort {L A} (p : Policy) (v : list A) (comp : A -> A -> bool) : Prog L (list A) :=
  d ← next_decisions;
  mret (std_sort comp d.1 v).

(** ** IntelParSTL.cpp *)

Definition RUN_TIMES : nat := 5.

Definition newline : ascii := "010"%char.

(** The literal [":\t "]. *)
Definition colon_tab : string :=
  String ":" (String "009" (String " " EmptyString)).

Definition line (s : string) : string := s ++ String newline EmptyString.

(** [std::chrono::duration<double, std::milli>(end - start).count()]. *)
Definition milliseconds (start end_ : Z) : float :=
  PrimFloat.div (Int.to_double (end_ - start)) 1e6.

Fixpoint measure_loop {L R} (func : Prog L R) (n i : nat)
    (st : list R * list float) : Prog L (list R * list float) :=
  match n with
  | O => mret st
  | S n' =>
      start ← now;
      ret ← func;
      end_ ← now;
      results ← lift_res (vec_store st.1 i ret);
      measure_loop func n' (S i)
        (results, DoubleSet.insert (milliseconds start end_) st.2)
  end.

Definition RunAndMeasure {L R} `{Streamable R} (title : string)
    (func : Prog L R) : Prog L unit :=
  first ← func;
  st ← measure_loop func RUN_TIMES 0 (replicate RUN_TIMES first, []);
  tmin ← lift_res (DoubleSet.front st.2);
  tmax ← lift_res (DoubleSet.back st.2);
  r ← lift_res (vec_at st.1 0);
  print [Str title; Str colon_tab; Dbl tmin; Str "ms (max was "; Dbl tmax;
         Str ") "; stream r; Chr newline].

(** [0.5f * glm::pi<float>()] *)
Definition half_pi_f : float := 0x1.921fb6p+0%float.

Record TrigFrame : Type := { vec : list float; out : list float }.

(** The lambda [[](double v) { return std::sqrt(std::sin(v)*std::cos(v)); }]. *)
Definition trig (v : float) : float :=
  PrimFloat.sqrt (PrimFloat.mul (sin v) (cos v)).

(** [std::transform(policy, vec.begin(), vec.end(), out.begin(), trig)], the
    call every trigonometric test and benchmark makes. *)
Definition sqrt_sin_cos {L} (p : Policy) (vec out : list float) : Prog L (list float) :=
  transform p (vector_range vec) out (fun v => Ok (trig v)).

(** The lambda [[&vec, &out] { std::transform(policy, ...); return out[0]; }]. *)
Definition TestTrig_run (p : Policy) : Prog TrigFrame float :=
  fr ← get_frame;
  out' ← sqrt_sin_cos p (vec fr) (out fr);
  put_frame {| vec := vec fr; out := out' |};;
  lift_res (vec_at out' 0).

Definition TestTrig {L} (vecSize : Z) : Prog L unit :=
  vec ← vector_n 8 vecSize 0.5%float;
  vec ← generate vec (GenRandomFloat 0 half_pi_f);
  scope {| vec := vec; out := vec |}
    (print [Str (line "sqrt(sin*cos):")];;
     RunAndMeasure "pstl::execution::seq" (TestTrig_run pstl_seq);;
     RunAndMeasure "pstl::execution::par" (TestTrig_run pstl_par);;
     RunAndMeasure "std::transform seq" (TestTrig_run std_seq);;
     RunAndMeasure "std::transform par" (TestTrig_run std_par)).

Record DotFrame : Type := { v1 : list float; v2 : list float }.

(** The lambda [[&v1, &v2] { return std::transform_reduce(policy, ...); }]. *)
Definition TestDotProduct_run (p : Policy) : Prog DotFrame float :=
  fr ← get_frame;
  transform_reduce p (v1 fr) (v2 fr) 0 PrimFloat.add PrimFloat.mul.

Definition TestDotProduct {L} (vecSize : Z) : Prog L unit :=
  print [Str (line "dot product:")];;
  v1 ← vector_n 8 vecSize 0%float;
  v2 ← vector_n 8 vecSize 0%float;
  v1 ← generate_policy pstl_par v1 random_number_generator;
  v2 ← generate_policy pstl_par v2 random_number_generator;
  scope {| v1 := v1; v2 := v2 |}
    (RunAndMeasure "pstl::execution::seq" (TestDotProduct_run pstl_seq);;
     RunAndMeasure "pstl::execution::par" (TestDotProduct_run pstl_par);;
     RunAndMeasure "std::execution::seq" (TestDotProduct_run std_seq);;
     RunAndMeasure "std::execution::par" (TestDotProduct_run std_par)).

(** [atoi] of the C library: white space, an optional sign, then decimal
    digits up to the first character that is none; no digit at all gives 0.
    A value outside [int] is undefined. *)
Definition is_space (c : ascii) : bool :=
  let n := nat_of_ascii c in
  (n =? 32) || ((9 <=? n) && (n <=? 13)).

Definition digit_of (c : ascii) : option Z :=
  let n := nat_of_ascii c in
  if (48 <=? n) && (n <=? 57) then Some (Z.of_nat (n - 48)) else None.

Fixpoint skip_space (s : string) : string :=
  match s with
  | String c s' => if is_space c then skip_space s' else s
  | EmptyString => s
  end.

Fixpoint digits (acc : Z) (s : string) : Z :=
  match s with
  | String c s' =>
      match digit_of c with
      | Some d => digits (10 * acc + d) s'
      | None => acc
      end
  | EmptyString => acc
  end.

Definition atoi (s : string) : res Z :=
  let s1 := skip_space s in
  let v :=
    match s1 with
    | String "-" s2 => (- digits 0 s2)%Z
    | String "+" s2 => digits 0 s2
    | _ => digits 0 s1
    end in
  if ((Int.INT_MIN <=? v) && (v <=? Int.INT_MAX))%Z then Ok v else Fault IntOverflow.

(** [argv[i]] for [i < argc]. *)
Definition arg (argv : list string) (i : nat) : string := nth i argv EmptyString.

Definition main (argv : list string) : Prog unit Z :=
  let argc := length argv in
  vecSize ← (if 1 <? argc
             then n ← lift_res (atoi (arg argv 1)); mret (Int.to_size_t n)
             else mret 6000000%Z);
  print [Num vecSize; Chr newline];;
  step ← (if 2 <? argc then lift_res (atoi (arg argv 2)) else mret 0%Z);
  (if (step =? 0)%Z || (step =? 2)%Z then TestTrig vecSize else mret tt);;
  (if (step =? 0)%Z || (step =? 3)%Z then TestDotProduct vecSize else mret tt);;
  mret 0%Z.

(** ** IntelCompilerTests.cpp

    Each benchmark takes [state.range(0)] and the number of times the
    framework goes round [for (auto _ : state)]. *)

Definition BM_Trigonometry_pass (execution_policy : Policy) : Prog TrigFrame unit :=
  fr ← get_frame;
  out' ← sqrt_sin_cos execution_policy (vec fr) (out fr);
  put_frame {| vec := vec fr; out := out' |}.

Definition BM_Trigonometry {L} (execution_policy : Policy) (range0 : Z)
    (iterations : nat) : Prog L TrigFrame :=
  vec ← vector_n 8 (Int.to_size_t range0) 0.5%float;
  vec ← generate vec (GenRandomFloat 0 half_pi_f);
  scope {| vec := vec; out := vec |}
    (iterate iterations (BM_Trigonometry_pass execution_policy);; get_frame).

(** The lambda [[](const glm::vec4& a, const glm::vec4& b) { return a.x < b.x; }]. *)
Definition by_x (a b : glm.vec4) : bool := PrimFloat.ltb (glm.x a) (glm.x b).

(** The first coordinates are numbers; they ascend along the buffer. *)
Definition numbers_x (points : list glm.vec4) : Prop :=
  forall pt, pt ∈ points -> F64.is_num (glm.x pt) = true.

Definition ascending_x (points : list glm.vec4) : Prop :=
  forall i a b, points !! i = Some a -> points !! S i = Some b ->
    PrimFloat.leb (glm.x a) (glm.x b) = true.

Definition random_point {L} (t : nat) : Prog L glm.vec4 :=
  px ← GenRandomFloat (-1) 1 t;
  py ← GenRandomFloat (-1) 1 t;
  pz ← GenRandomFloat (-1) 1 t;
  mret {| glm.x := px; glm.y := py; glm.z := pz; glm.w := 1 |}.

Definition BM_SortPoints_pass (execution_policy : Policy) : Prog (list glm.vec4) unit :=
  points ← get_frame;
  sorted ← sort execution_policy points by_x;
  put_frame sorted.

Definition BM_SortPoints {L} (execution_policy : Policy) (range0 : Z)
    (iterations : nat) : Prog L (list glm.vec4) :=
  points ← vector_n 16 (Int.to_size_t range0)
             {| glm.x := 0; glm.y := 1; glm.z := 0; glm.w := 1 |};
  points ← generate points random_point;
  scope points (iterate iterations (BM_SortPoints_pass execution_policy);; get_frame).

Definition BM_DotProduct_pass (execution_policy : Policy) : Prog DotFrame float :=
  fr ← get_frame;
  transform_reduce execution_policy (v1 fr) (v2 fr) 0 PrimFloat.add PrimFloat.mul.

Definition BM_DotProduct {L} (execution_policy : Policy) (range0 : Z)
    (iterations : nat) : Prog L unit :=
  firstVec ← vector_n 8 (Int.to_size_t range0) 0%float;
  secondVec ← vector_n 8 (Int.to_size_t range0) 0%float;
  firstVec ← generate_policy pstl_par firstVec (GenRandomFloat (-1) 1);
  secondVec ← generate_policy pstl_par secondVec (GenRandomFloat (-1) 1);
  scope {| v1 := firstVec; v2 := secondVec |}
    (iterate iterations (BM_DotProduct_pass execution_policy;; mret tt)).

Record PricingFrame : Type := {
  prices : list float;
  quantities : list Z;
  discounts : list float;
  profit : list float
}.

(** Every buffer of the frame holds [n] elements. *)
Definition sized (n : nat) (fr : PricingFrame) : Prop :=
  length (prices fr) = n /\ length (quantities fr) = n /\
  length (discounts fr) = n /\ length (profit fr) = n.

(** [profit[i] == price[i] * (1 - discount[i]) * quantity[i]] below [n]. *)
Definition priced (n : nat) (fr : PricingFrame) : Prop :=
  forall i, i < n ->
    exists price quantity discount,
      prices fr !! i = Some price /\
      quantities fr !! i = Some quantity /\
      discounts fr !! i = Some discount /\
      profit fr !! i =
        Some (PrimFloat.mul (PrimFloat.mul price (PrimFloat.sub 1 discount))
                (Int.to_double quantity)).

(** The lambda of [std::for_each]: [(int64_t i)], three stores. *)
Definition fill_prices (t : nat) (i : Z) : Prog PricingFrame unit :=
  p ← GenRandomFloat 0.5 100 t;
  fr ← get_frame;
  ps ← lift_res (vec_store (prices fr) (Int.subscript i) p);
  put_frame {| prices := ps; quantities := quantities fr;
               discounts := discounts fr; profit := profit fr |};;
  q ← GenRandomInt 1 100 t;
  fr ← get_frame;
  qs ← lift_res (vec_store (quantities fr) (Int.subscript i) (Int.to_unsigned q));
  put_frame {| prices := prices fr; quantities := qs;
               discounts := discounts fr; profit := profit fr |};;
  d ← GenRandomFloat 0 0.5 t;
  fr ← get_frame;
  ds ← lift_res (vec_store (discounts fr) (Int.subscript i) d);
  put_frame {| prices := prices fr; quantities := quantities fr;
               discounts := ds; profit := profit fr |}.

(** The lambda of [std::transform]: [(int i)], so the [int64_t] the counting
    iterator yields is narrowed on the way in. *)
Definition price_of (fr : PricingFrame) (i64 : Z) : res float :=
  let i := Int.to_int i64 in
  p ← vec_at (prices fr) (Int.subscript i);
  d ← vec_at (discounts fr) (Int.subscript i);
  q ← vec_at (quantities fr) (Int.subscript i);
  Ok (PrimFloat.mul (PrimFloat.mul p (PrimFloat.sub 1 d)) (Int.to_double q)).

Definition BM_CountingIter_pass (execution_policy : Policy) (VecSize : Z) :
    Prog PricingFrame unit :=
  for_each execution_policy (counting_range 0 VecSize) fill_prices;;
  fr ← get_frame;
  profit' ← transform execution_policy (counting_range 0 VecSize) (profit fr)
              (price_of fr);
  put_frame {| prices := prices fr; quantities := quantities fr;
               discounts := discounts fr; profit := profit' |}.

Definition BM_CountingIter {L} (execution_policy : Policy) (range0 : Z)
    (iterations : nat) : Prog L PricingFrame :=
  let VecSize := range0 in
  prices ← vector_n 8 (Int.to_size_t VecSize) 0%float;
  quantities ← vector_n 4 (Int.to_size_t VecSize) 0%Z;
  discounts ← vector_n 8 (Int.to_size_t VecSize) 0%float;
  profit ← vector_n 8 (Int.to_size_t VecSize) 0%float;
  scope {| prices := prices; quantities := quantities;
           discounts := discounts; profit := profit |}
    (iterate iterations (BM_CountingIter_pass execution_policy VecSize);; get_frame).

(** ** Observing a trial

    The words of the specification for the timed trial runner: one warm-up
    invocation, then [RUN_TIMES] timed ones, each giving an elapsed time and
    a result. *)

Definition timed {L R} (func : Prog L R) : Prog L (float * R) :=
  start ← now;
  ret ← func;
  end_ ← now;
  mret (milliseconds start end_, ret).

Fixpoint timed_runs {L R} (func : Prog L R) (n : nat) : Prog L (list (float * R)) :=
  match n with
  | O => mret []
  | S k => s ← timed func; ss ← timed_runs func k; mret (s :: ss)
  end.

Definition trial {L R} (func : Prog L R) : Prog L (list (float * R)) :=
  func;; timed_runs func RUN_TIMES.

(** The line [RunAndMeasure] writes for a title, two times and a result. *)
Definition report {R} `{Streamable R} (title : string) (tmin tmax : float) (r : R) :
    list token :=
  [Str title; Str colon_tab; Dbl tmin; Str "ms (max was "; Dbl tmax;
   Str ") "; stream r; Chr newline].

(** [func] with a counter of its invocations beside its frame; with
    [Some r0], invocation number 0 answers [r0] in place of its result. *)
Definition probed {L R} (r0 : option R) (func : Prog L R) : Prog (L * nat) R :=
  fun lk w =>
    match func lk.1 w with
    | Ok (r, l', w') =>
        Ok (match lk.2, r0 with
            | O, Some r' => r'
            | _, _ => r
            end, (l', S lk.2), w')
    | Fault e => Fault e
    end.

(** [func] keeping a log of what [inp] showed at the start of each
    invocation. *)
Definition observing {L R I} (inp : L -> I) (func : Prog L R) : Prog (L * list I) R :=
  fun ll w =>
    match func ll.1 w with
    | Ok (r, l', w') => Ok (r, (l', ll.2 ++ [inp ll.1]), w')
    | Fault e => Fault e
    end.

(** Frames on which the lambdas of the tests run through: an output as long
    as a non-empty input; two vectors of one length. *)
Definition trig_ready (fr : TrigFrame) : Prop :=
  length (out fr) = length (vec fr) /\ 0 < length (vec fr).

Definition dot_ready (fr : DotFrame) : Prop := length (v1 fr) = length (v2 fr).

(** The size and the step as [main] reads them off its arguments. *)
Definition arguments (argv : list string) : res (Z * Z) :=
  vecSize ← (if 1 <? length argv
             then n ← atoi (arg argv 1); Ok (Int.to_size_t n)
             else Ok 6000000%Z);
  step ← (if 2 <? length argv then atoi (arg argv 2) else Ok 0%Z);
  Ok (vecSize, step).

(** The time between the readings number [k] and [k + 1] of the clock. *)
Definition elapsed (w : World) (k : nat) : float :=
  milliseconds (clock w k) (clock w (S k)).

(** [lower <= x <= upper]. *)
Definition between (lower upper x : float) : Prop :=
  PrimFloat.leb lower x = true /\ PrimFloat.leb x upper = true.

(** What the [for_each] lambda leaves at an index it has been to. *)
Definition restocked (fr : PricingFrame) (i : nat) : Prop :=
  (forall x, prices fr !! i = Some x -> between 0.5 100 x) /\
  (forall q, quantities fr !! i = Some q -> (1 <= q <= 100)%Z) /\
  (forall d, discounts fr !! i = Some d -> between 0 0.5 d).

(** Frames of empty buffers. *)
Definition no_trig : TrigFrame := {| vec := []; out := [] |}.
Definition no_dot : DotFrame := {| v1 := []; v2 := [] |}.
Definition no_prices : PricingFrame :=
  {| prices := []; quantities := []; discounts := []; profit := [] |}.

End Program.

(** ** A runtime to run the model on

    A small conforming library for concrete runs: [minstd_rand0] as the
    engine, distributions that scale its output, insertion sort, and short
    series for [sin] and [cos]. *)

Module Ref.

Definition next (g : Z) : Z := (16807 * g mod 2147483647)%Z.

Definition unit_interval (g : Z) : float :=
  PrimFloat.div (Int.to_double (g - 1)) 2147483646.

Definition uniform_real (a b : float) (g : Z) : float * Z :=
  let g' := next g in
  let v := PrimFloat.add a (PrimFloat.mul (PrimFloat.sub b a) (unit_interval g')) in
  (if PrimFloat.is_nan v || PrimFloat.ltb v a then a
   else if PrimFloat.ltb b v then b
   else v, g').

(** The real distribution as libstdc++ computes the one over [float]:
    [u * (b - a) + a] in binary32, here kept between the bounds wherever the
    standard promises that, and left as computed where [b - a] is above the
    [max()] of [float]. *)
Definition uniform_real_binary32 (a b : float) (g : Z) : float * Z :=
  let g' := next g in
  let v :=
    F32.of_double
      (PrimFloat.add
         (F32.of_double
            (PrimFloat.mul (F32.of_double (unit_interval g'))
               (F32.of_double (PrimFloat.sub b a))))
         a) in
  (if PrimFloat.leb (PrimFloat.sub b a) F32.max
   then if PrimFloat.is_nan v || PrimFloat.ltb v a then a
        else if PrimFloat.ltb b v then b
        else v
   else v, g').

Definition uniform_int (a b : Z) (g : Z) : Z * Z :=
  let g' := next g in
  (if (a <=? b)%Z then (a + g' mod (b - a + 1))%Z else a, g').

Fixpoint insert_by {A} (comp : A -> A -> bool) (x : A) (l : list A) : list A :=
  match l with
  | [] => [x]
  | y :: l' => if comp x y then x :: l else y :: insert_by comp x l'
  end.

(** [a] may stand before [b]: [b] is not [comp]-before [a]. *)
Definition may_precede {A} (comp : A -> A -> bool) (a b : A) : Prop :=
  comp b a = false.

Definition insertion_sort {A} (comp : A -> A -> bool) (codes : list nat)
    (v : list A) : list A :=
  foldr (insert_by comp) [] v.

Definition series_sin (v : float) : float :=
  let v2 := PrimFloat.mul v v in
  PrimFloat.mul v
    (PrimFloat.sub 1 (PrimFloat.mul (PrimFloat.div v2 6)
                        (PrimFloat.sub 1 (PrimFloat.div v2 20)))).

Definition series_cos (v : float) : float :=
  let v2 := PrimFloat.mul v v in
  PrimFloat.sub 1 (PrimFloat.mul (PrimFloat.div v2 2)
                     (PrimFloat.sub 1 (PrimFloat.div v2 12))).

(** [PTRDIFF_MAX]. *)
Definition vector_max_bytes : N := 9223372036854775807.

Definition runtime : Runtime :=
  {| max_bytes := vector_max_bytes;
     sin := series_sin;
     cos := series_cos;
     default_random_engine := 1%Z;
     uniform_real_distribution := uniform_real;
     uniform_int_distribution := uniform_int;
     std_sort := @insertion_sort |}.

Definition runtime_binary32 : Runtime :=
  {| max_bytes := vector_max_bytes;
     sin := series_sin;
     cos := series_cos;
     default_random_engine := 1%Z;
     uniform_real_distribution := uniform_real_binary32;
     uniform_int_distribution := uniform_int;
     std_sort := @insertion_sort |}.

(** A world to start from: engines not yet used, ten clock readings that
    give elapsed times of 1.5, 0.7, 2.5, 0.4 and 1.2 ms and one a
    millisecond from then on, a scheduler that varies with the call. *)
Definition readings : list Z :=
  [10000; 1510000; 2000000; 2700000; 3000000; 5500000; 6000000; 6400000;
   7000000; 8200000]%Z.

Definition fresh : nat -> Engine := fun _ => default_random_engine (Runtime := runtime).

Definition world0 : World :=
  {| rd_GenRandomFloat := fresh;
     rd_GenRandomInt := fresh;
     rd_random_number_generator := fresh;
     clock := fun k => nth k readings (Z.of_nat k * 1000000)%Z;
     clock_reads := 0;
     sched_codes := fun k => [k; 2 * k + 1; 3; 7; 1; k + 2];
     sched_worker := fun k i => (i + k) mod 4;
     sched_calls := 0;
     cout := [] |}.

(** A computation whose results differ from call to call: it answers the
    number of earlier calls. *)
Definition tick : Prog Z Z := fun n w => Ok (n, (n + 1)%Z, w).

(** Inputs of the concrete runs. *)
Definition angles : list float := [0.25; 0.5; 1]%float.

Definition points : list glm.vec4 :=
  [ {| glm.x := 0.5; glm.y := 0; glm.z := 1; glm.w := 1 |};
    {| glm.x := -0.25; glm.y := 1; glm.z := 0; glm.w := 1 |};
    {| glm.x := 0.5; glm.y := -1; glm.z := 0; glm.w := 1 |};
    {| glm.x := -1; glm.y := 0; glm.z := 0.5; glm.w := 1 |} ]%float.

Definition stock : PricingFrame :=
  {| prices := [0; 0; 0]%float; quantities := [0; 0; 0]%Z;
     discounts := [0; 0; 0]%float; profit := [0; 0; 0]%float |}.

Definition trig_frame : TrigFrame := {| vec := angles; out := angles |}.

Definition dot_frame : DotFrame :=
  {| v1 := [1; 2; 3]%float; v2 := [0.5; 0.25; 2]%float |}.

End Ref.
(** * Properties *)

(** ** Facts on the order of binary64 values *)

Module F64Facts.
Import F64.
Local Open Scope Z_scope.

Lemma SFcompare_key (f1 f2 : spec_float) :
  f1 <> S754_nan -> f2 <> S754_nan ->
  SFcompare f1 f2 = Some (lex_compare (key f1) (key f2)).
Proof.
  intros H1 H2.
  destruct f1 as [s1| s1 | | s1 m1 e1], f2 as [s2 | s2 | | s2 m2 e2];
    try congruence;
    repeat match goal with b : bool |- _ => destruct b end;
    unfold lex_compare, key, SFcompare; try reflexivity.
  rewrite Z.compare_opp, (Z.compare_antisym e1 e2).
  destruct (e1 ?= e2); reflexivity.
Qed.

Lemma lex_compare_Lt k1 k2 : lex_compare k1 k2 = Lt <-> lex_lt k1 k2.
Proof.
  destruct k1 as [[a1 b1] c1], k2 as [[a2 b2] c2]; unfold lex_compare, lex_lt.
  destruct (Z.compare_spec a1 a2), (Z.compare_spec b1 b2),
    (Z.compare_spec c1 c2); split; intros; try discriminate; try lia;
    reflexivity.
Qed.

Lemma lex_compare_Eq k1 k2 : lex_compare k1 k2 = Eq <-> k1 = k2.
Proof.
  destruct k1 as [[a1 b1] c1], k2 as [[a2 b2] c2]; unfold lex_compare.
  destruct (Z.compare_spec a1 a2), (Z.compare_spec b1 b2),
    (Z.compare_spec c1 c2); split; intros E; try discriminate;
    try (injection E; lia); subst; reflexivity.
Qed.

Lemma lex_compare_Gt k1 k2 : lex_compare k1 k2 = Gt <-> lex_lt k2 k1.
Proof.
  destruct k1 as [[a1 b1] c1], k2 as [[a2 b2] c2]; unfold lex_compare, lex_lt.
  destruct (Z.compare_spec a1 a2), (Z.compare_spec b1 b2),
    (Z.compare_spec c1 c2); split; intros; try discriminate; try lia;
    reflexivity.
Qed.

Lemma lex_lt_trans k1 k2 k3 : lex_lt k1 k2 -> lex_lt k2 k3 -> lex_lt k1 k3.
Proof.
  destruct k1 as [[a1 b1] c1], k2 as [[a2 b2] c2], k3 as [[a3 b3] c3].
  unfold lex_lt; lia.
Qed.

Lemma lex_lt_irrefl k : ~ lex_lt k k.
Proof. destruct k as [[a b] c]; unfold lex_lt; lia. Qed.

Lemma lex_total k1 k2 : lex_lt k1 k2 \/ k1 = k2 \/ lex_lt k2 k1.
Proof.
  destruct k1 as [[a1 b1] c1], k2 as [[a2 b2] c2]; unfold lex_lt.
  destruct (Z.lt_total a1 a2) as [|[|]], (Z.lt_total b1 b2) as [|[|]],
    (Z.lt_total c1 c2) as [|[|]]; subst; auto 10.
Qed.

Lemma is_num_spec x : is_num x = true <-> Prim2SF x <> S754_nan.
Proof.
  unfold is_num, PrimFloat.is_nan. rewrite FloatAxioms.eqb_spec. unfold SFeqb.
  split.
  - intros H E. rewrite E in H. discriminate.
  - intros H. rewrite (SFcompare_key _ _ H H).
    destruct (lex_compare_Eq (key (Prim2SF x)) (key (Prim2SF x))) as [_ ->];
      reflexivity.
Qed.

Lemma ltb_num x y : PrimFloat.ltb x y = true -> is_num x = true /\ is_num y = true.
Proof.
  rewrite FloatAxioms.ltb_spec, !is_num_spec. unfold SFltb.
  destruct (Prim2SF x), (Prim2SF y); simpl; try discriminate; split; congruence.
Qed.

Lemma leb_num x y : PrimFloat.leb x y = true -> is_num x = true /\ is_num y = true.
Proof.
  rewrite FloatAxioms.leb_spec, !is_num_spec. unfold SFleb.
  destruct (Prim2SF x), (Prim2SF y); simpl; try discriminate; split; congruence.
Qed.

Lemma ltb_lex x y :
  is_num x = true -> is_num y = true ->
  (PrimFloat.ltb x y = true <-> lex_lt (fkey x) (fkey y)).
Proof.
  rewrite !is_num_spec, FloatAxioms.ltb_spec. intros Hx Hy. unfold SFltb, fkey.
  rewrite (SFcompare_key _ _ Hx Hy), <- lex_compare_Lt.
  destruct (lex_compare _ _); split; congruence.
Qed.

Lemma leb_lex x y :
  is_num x = true -> is_num y = true ->
  (PrimFloat.leb x y = true <-> lex_le (fkey x) (fkey y)).
Proof.
  rewrite !is_num_spec, FloatAxioms.leb_spec. intros Hx Hy. unfold SFleb, fkey, lex_le.
  rewrite (SFcompare_key _ _ Hx Hy), <- lex_compare_Lt, <- lex_compare_Eq.
  destruct (lex_compare _ _); split; intros; try congruence; auto.
  destruct H; discriminate.
Qed.

Lemma leb_refl x : is_num x = true -> PrimFloat.leb x x = true.
Proof. intros H. apply leb_lex; auto. right; reflexivity. Qed.

Lemma ltb_leb x y : PrimFloat.ltb x y = true -> PrimFloat.leb x y = true.
Proof.
  intros H. destruct (ltb_num _ _ H) as [Hx Hy].
  apply leb_lex; auto. left. apply ltb_lex; auto.
Qed.

Lemma ltb_irrefl x : PrimFloat.ltb x x = false.
Proof.
  destruct (PrimFloat.ltb x x) eqn:E; [|reflexivity].
  destruct (ltb_num _ _ E) as [Hx _].
  apply ltb_lex in E; auto. destruct (lex_lt_irrefl _ E).
Qed.

Lemma ltb_trans x y z :
  PrimFloat.ltb x y = true -> PrimFloat.ltb y z = true -> PrimFloat.ltb x z = true.
Proof.
  intros H1 H2. destruct (ltb_num _ _ H1) as [Hx Hy], (ltb_num _ _ H2) as [_ Hz].
  apply ltb_lex; auto. apply ltb_lex in H1, H2; auto.
  eapply lex_lt_trans; eauto.
Qed.

Lemma leb_trans x y z :
  PrimFloat.leb x y = true -> PrimFloat.leb y z = true -> PrimFloat.leb x z = true.
Proof.
  intros H1 H2. destruct (leb_num _ _ H1) as [Hx Hy], (leb_num _ _ H2) as [_ Hz].
  apply leb_lex; auto. apply leb_lex in H1, H2; auto.
  destruct H1 as [H1|H1], H2 as [H2|H2]; unfold lex_le.
  - left; eapply lex_lt_trans; eauto.
  - rewrite <- H2; auto.
  - rewrite H1; auto.
  - rewrite H1; auto.
Qed.

(** Among ordinary numbers [<] is total up to equivalence: when [x < y]
    fails, [y <= x] holds. *)
Lemma not_ltb_leb x y :
  is_num x = true -> is_num y = true ->
  PrimFloat.ltb x y = false -> PrimFloat.leb y x = true.
Proof.
  intros Hx Hy H. apply leb_lex; auto.
  destruct (lex_total (fkey x) (fkey y)) as [L|[E|L]].
  - apply ltb_lex in L; auto. congruence.
  - right; auto.
  - left; auto.
Qed.

Lemma leb_not_ltb x y : PrimFloat.leb x y = true -> PrimFloat.ltb y x = false.
Proof.
  intros H. destruct (leb_num _ _ H) as [Hx Hy].
  destruct (PrimFloat.ltb y x) eqn:E; [|reflexivity].
  apply ltb_lex in E; auto. apply leb_lex in H; auto.
  destruct H as [H|H].
  - destruct (lex_lt_irrefl _ (lex_lt_trans _ _ _ H E)).
  - rewrite H in E. destruct (lex_lt_irrefl _ E).
Qed.

(** Incomparable numbers are equivalent, and equivalence is transitive:
    [<] is a strict weak order on ordinary numbers. *)
Lemma ltb_incomparable_trans x y z :
  is_num x = true -> is_num y = true -> is_num z = true ->
  PrimFloat.ltb x y = false -> PrimFloat.ltb y x = false ->
  PrimFloat.ltb y z = false -> PrimFloat.ltb z y = false ->
  PrimFloat.ltb x z = false /\ PrimFloat.ltb z x = false.
Proof.
  intros Hx Hy Hz A B C D.
  split; apply leb_not_ltb;
    eauto using leb_trans, not_ltb_leb.
Qed.

End F64Facts.

(** ** Facts on [std::set<double>] *)

Module DoubleSetFacts.
Import F64 F64Facts DoubleSet.

Lemma insert_elem x s y : y ∈ insert x s -> y = x \/ y ∈ s.
Proof.
  induction s as [|z s IH]; simpl.
  - intros H. apply list_elem_of_singleton in H. auto.
  - destruct (PrimFloat.ltb x z).
    + intros H. apply elem_of_cons in H. tauto.
    + destruct (PrimFloat.ltb z x); [|auto].
      intros H. apply elem_of_cons in H. destruct H as [->|H].
      * right; left.
      * destruct (IH H); [auto|]. right; right; assumption.
Qed.

Lemma insert_keeps x s y : y ∈ s -> y ∈ insert x s.
Proof.
  induction s as [|z s IH]; simpl; intros H.
  - apply elem_of_nil in H. destruct H.
  - destruct (PrimFloat.ltb x z); [right; exact H|].
    destruct (PrimFloat.ltb z x); [|exact H].
    apply elem_of_cons in H. destruct H as [->|H]; [left|right; auto].
Qed.

Lemma insert_nonempty x s : insert x s <> [].
Proof.
  destruct s as [|z s]; simpl; [discriminate|].
  destruct (PrimFloat.ltb x z); [discriminate|].
  destruct (PrimFloat.ltb z x); discriminate.
Qed.

Lemma insert_ascending x s : ascending s -> ascending (insert x s).
Proof.
  induction s as [|z s IH]; simpl.
  - intros _. split; [constructor|exact I].
  - intros [Hz Hs]. destruct (PrimFloat.ltb x z) eqn:Exz.
    + split; [|split; assumption].
      constructor; [exact Exz|].
      eapply Forall_impl; [exact Hz|]. intros y Hy. simpl in Hy.
      eapply ltb_trans; eauto.
    + destruct (PrimFloat.ltb z x) eqn:Ezx; [|split; assumption].
      split; [|auto].
      apply Forall_forall. intros y Hy.
      destruct (insert_elem _ _ _ Hy) as [->|Hin]; [exact Ezx|].
      rewrite Forall_forall in Hz. auto.
Qed.

(** Some element of the set stands for each number inserted. *)
Lemma insert_covers x s :
  is_num x = true -> (forall y, y ∈ s -> is_num y = true) ->
  exists y, y ∈ insert x s /\
    PrimFloat.leb y x = true /\ PrimFloat.leb x y = true.
Proof.
  intros Hx. induction s as [|z s IH]; simpl; intros Hs.
  - exists x. split; [left|]. split; apply leb_refl; exact Hx.
  - assert (Hz : is_num z = true) by (apply Hs; left).
    destruct (PrimFloat.ltb x z) eqn:Exz.
    + exists x. split; [left|]. split; apply leb_refl; exact Hx.
    + destruct (PrimFloat.ltb z x) eqn:Ezx.
      * destruct IH as (y & Hy & H1 & H2).
        { intros y Hy. apply Hs. right. exact Hy. }
        exists y. split; [right; exact Hy|auto].
      * exists z. split; [left|].
        split; apply not_ltb_leb; assumption.
Qed.

Lemma front_least s m :
  ascending s -> front s = Ok m ->
  forall y, y ∈ s -> is_num y = true -> PrimFloat.leb m y = true.
Proof.
  destruct s as [|x s]; simpl; [discriminate|].
  intros [Hx _] [= <-] y Hy Hnum.
  apply elem_of_cons in Hy. destruct Hy as [->|Hy].
  - apply leb_refl. exact Hnum.
  - rewrite Forall_forall in Hx. apply ltb_leb. auto.
Qed.

Lemma back_greatest s m :
  ascending s -> back s = Ok m ->
  forall y, y ∈ s -> is_num y = true -> PrimFloat.leb y m = true.
Proof.
  unfold back. induction s as [|x s IH]; simpl; [discriminate|].
  intros [Hx Hs] Hm y Hy Hnum.
  destruct s as [|x' s].
  - simpl in Hm. injection Hm as <-.
    apply list_elem_of_singleton in Hy. subst y. apply leb_refl. exact Hnum.
  - change (last (x :: x' :: s)) with (last (x' :: s)) in Hm.
    apply elem_of_cons in Hy. destruct Hy as [->|Hy].
    + destruct (last (x' :: s)) as [m'|] eqn:El; [|discriminate].
      injection Hm as ->.
      apply ltb_leb. rewrite Forall_forall in Hx. apply Hx.
      apply last_Some_elem_of. exact El.
    + apply IH; assumption.
Qed.

Lemma front_elem s m : front s = Ok m -> m ∈ s.
Proof. destruct s; simpl; [discriminate|]. intros [= <-]. left. Qed.

Lemma back_elem s m : back s = Ok m -> m ∈ s.
Proof.
  unfold back. destruct (last s) eqn:E; [|discriminate].
  intros [= <-]. apply last_Some_elem_of. exact E.
Qed.

Lemma insert_all_ascending ds : forall s,
  ascending s -> ascending (insert_all s ds).
Proof.
  unfold insert_all. induction ds as [|d ds IH]; intros s Hs; simpl; [exact Hs|].
  apply IH. apply insert_ascending. exact Hs.
Qed.

Lemma insert_all_elem ds : forall s y,
  y ∈ insert_all s ds -> y ∈ s \/ y ∈ ds.
Proof.
  unfold insert_all. induction ds as [|d ds IH]; intros s y Hy; simpl in Hy; [auto|].
  destruct (IH _ _ Hy) as [H|H].
  - destruct (insert_elem _ _ _ H) as [->|H']; [right; left|left; exact H'].
  - right; right; exact H.
Qed.

Lemma insert_all_keeps ds : forall s y, y ∈ s -> y ∈ insert_all s ds.
Proof.
  unfold insert_all. induction ds as [|d ds IH]; intros s y Hy; simpl; [exact Hy|].
  apply IH. apply insert_keeps. exact Hy.
Qed.

Lemma insert_all_nonempty ds s : ds <> [] -> insert_all s ds <> [].
Proof.
  unfold insert_all. revert s. induction ds as [|d ds IH]; intros s Hne; [congruence|].
  simpl. destruct ds as [|d' ds]; [apply insert_nonempty|].
  apply IH. discriminate.
Qed.

Lemma insert_all_covers ds : forall s,
  (forall y, y ∈ s -> is_num y = true) ->
  (forall d, d ∈ ds -> is_num d = true) ->
  forall d, d ∈ ds ->
  exists y, y ∈ insert_all s ds /\
    PrimFloat.leb y d = true /\ PrimFloat.leb d y = true.
Proof.
  induction ds as [|d0 ds IH]; intros s Hs Hds d Hd.
  - apply elem_of_nil in Hd. destruct Hd.
  - change (insert_all s (d0 :: ds)) with (insert_all (insert d0 s) ds).
    assert (Hs' : forall y, y ∈ insert d0 s -> is_num y = true).
    { intros y Hy. destruct (insert_elem _ _ _ Hy) as [->|H]; [|auto].
      apply Hds. left. }
    apply elem_of_cons in Hd. destruct Hd as [->|Hd].
    + destruct (insert_covers d0 s) as (y & Hy & H1 & H2);
        [apply Hds; left|exact Hs|].
      exists y. split; [|auto]. apply insert_all_keeps. exact Hy.
    + apply IH; [exact Hs'| |exact Hd].
      intros d' Hd'. apply Hds. right. exact Hd'.
Qed.

(** The first element of the set is the least of the numbers inserted and
    the last one the greatest. *)
Lemma insert_all_min_max ds m M :
  (forall d, d ∈ ds -> is_num d = true) ->
  front (insert_all [] ds) = Ok m -> back (insert_all [] ds) = Ok M ->
  (m ∈ ds /\ forall d, d ∈ ds -> PrimFloat.leb m d = true) /\
  (M ∈ ds /\ forall d, d ∈ ds -> PrimFloat.leb d M = true).
Proof.
  intros Hds Hm HM.
  assert (Hasc : ascending (insert_all [] ds)).
  { apply insert_all_ascending. exact I. }
  assert (Hsub : forall y, y ∈ insert_all [] ds -> y ∈ ds).
  { intros y Hy. destruct (insert_all_elem _ _ _ Hy) as [H|H]; [|exact H].
    apply elem_of_nil in H. destruct H. }
  assert (Hcov := insert_all_covers ds [] (fun y H => match elem_of_nil y with conj f _ => False_ind _ (f H) end) Hds).
  split; split.
  - apply Hsub, front_elem, Hm.
  - intros d Hd. destruct (Hcov d Hd) as (y & Hy & H1 & H2).
    eapply leb_trans; [|exact H1].
    eapply front_least; eauto.
  - apply Hsub, back_elem, HM.
  - intros d Hd. destruct (Hcov d Hd) as (y & Hy & H1 & H2).
    eapply leb_trans; [exact H2|].
    eapply back_greatest; eauto.
Qed.

Lemma insert_all_front_back ds :
  ds <> [] ->
  exists m M, front (insert_all [] ds) = Ok m /\ back (insert_all [] ds) = Ok M.
Proof.
  intros Hne. pose proof (insert_all_nonempty ds [] Hne) as H.
  destruct (insert_all [] ds) as [|x s] eqn:E; [congruence|].
  exists x. unfold back.
  destruct (last (x :: s)) as [M|] eqn:El.
  - exists M. split; reflexivity.
  - apply last_None in El. discriminate.
Qed.

End DoubleSetFacts.

(** ** Rounding: the sign of a rounded result, and the product commutes *)

Module RoundingFacts.
Import F64.
Local Open Scope Z_scope.

Section Rounding.
Variables prec emax : Z.

Lemma shr_1_nonneg mrs : 0 <= shr_m mrs -> 0 <= shr_m (shr_1 mrs).
Proof.
  destruct mrs as [m r s]. cbn [shr_m].
  destruct m as [|[p|p|]|[p|p|]]; cbn; lia.
Qed.

Lemma iter_shr_1_nonneg p : forall mrs,
  0 <= shr_m mrs -> 0 <= shr_m (SpecFloat.iter_pos shr_1 p mrs).
Proof.
  induction p as [p IH|p IH|]; intros mrs H; cbn [SpecFloat.iter_pos].
  - apply IH, IH, shr_1_nonneg, H.
  - apply IH, IH, H.
  - apply shr_1_nonneg, H.
Qed.

Lemma shr_fexp_nonneg m e l :
  0 <= m -> 0 <= shr_m (shr_fexp prec emax m e l).1.
Proof.
  intros H. unfold shr_fexp, shr.
  assert (H0 : 0 <= shr_m (shr_record_of_loc m l)) by (destruct l as [|[]]; exact H).
  destruct (fexp prec emax (Zdigits2 m + e) - e); cbn [fst]; auto.
  apply iter_shr_1_nonneg, H0.
Qed.

Lemma round_nearest_even_nonneg m l : 0 <= m -> 0 <= round_nearest_even m l.
Proof.
  intros H. destruct l as [|[]]; cbn; try lia. destruct (Z.even m); lia.
Qed.

(** Rounding a mantissa that is not negative keeps the sign it is given
    and makes no NaN. *)
Lemma binary_round_aux_sign sx mx ex lx :
  0 <= mx -> sign (binary_round_aux prec emax sx mx ex lx) = Some sx.
Proof.
  intros H. unfold binary_round_aux.
  pose proof (shr_fexp_nonneg mx ex lx H) as H1.
  destruct (shr_fexp prec emax mx ex lx) as [mrs' e']. cbn [fst] in H1.
  pose proof (shr_fexp_nonneg _ e' loc_Exact
                (round_nearest_even_nonneg _ (loc_of_shr_record mrs') H1)) as H2.
  destruct (shr_fexp prec emax _ e' loc_Exact) as [mrs'' e'']. cbn [fst] in H2.
  destruct (shr_m mrs'') as [|m|m]; [reflexivity| |lia].
  destruct (e'' <=? emax - prec); reflexivity.
Qed.

Lemma binary_normalize_sign m e :
  0 <= m -> sign (binary_normalize prec emax m e false) = Some false.
Proof.
  intros H. destruct m as [|m|m]; [reflexivity| |lia].
  unfold binary_normalize, binary_round.
  destruct (shl_align m e _) as [mz ez]. apply binary_round_aux_sign. lia.
Qed.

Lemma SFdiv_sign x sx my ey sy :
  sign x = Some sx ->
  sign (SFdiv prec emax x (S754_finite sy my ey)) = Some (xorb sx sy).
Proof.
  destruct x as [s|s| |s mx ex]; cbn [sign]; intros [= <-]; try reflexivity.
  unfold SFdiv.
  destruct (SFdiv_core_binary prec emax (Z.pos mx) ex (Z.pos my) ey)
    as [[mz ez] lz] eqn:E.
  apply binary_round_aux_sign.
  unfold SFdiv_core_binary in E.
  set (m' := match _ - _ - _ with Z0 => _ | Zpos _ => _ | Zneg _ => _ end) in E.
  assert (Hm : 0 <= m').
  { unfold m'. destruct (_ - _ - _); try lia. apply Z.shiftl_nonneg. lia. }
  pose proof (Z.div_eucl_eq m' (Z.pos my) ltac:(lia)) as Hd.
  pose proof (Z.mod_pos_bound m' (Z.pos my) ltac:(lia)) as Hb.
  unfold Z.modulo in Hb.
  destruct (Z.div_eucl m' (Z.pos my)) as [q r]. injection E as <- _ _.
  cbn [snd] in Hb. nia.
Qed.

End Rounding.

Lemma sign_num x s : sign (Prim2SF x) = Some s -> is_num x = true.
Proof.
  intros H. apply F64Facts.is_num_spec. intros E. rewrite E in H. discriminate.
Qed.

Lemma sign_nonneg x : sign (Prim2SF x) = Some false -> PrimFloat.leb 0 x = true.
Proof.
  intros H. rewrite FloatAxioms.leb_spec. change (Prim2SF 0) with (S754_zero false).
  destruct (Prim2SF x) as [s|s| |s m e]; cbn [sign] in H; try discriminate;
    injection H as ->; reflexivity.
Qed.

Lemma to_double_sign z : sign (Prim2SF (Int.to_double z)) = Some (z <? 0).
Proof.
  unfold Int.to_double. destruct (z <? 0).
  - rewrite FloatAxioms.opp_spec, FloatAxioms.of_uint63_spec.
    pose proof (Uint63.to_Z_bounded (Uint63.of_Z (- z))) as Hb.
    pose proof (binary_normalize_sign FloatOps.prec FloatOps.emax _ 0 (proj1 Hb)) as Hs.
    destruct (binary_normalize _ _ _ _ _); cbn [sign SFopp] in *; try discriminate;
      injection Hs as ->; reflexivity.
  - rewrite FloatAxioms.of_uint63_spec.
    apply binary_normalize_sign. apply Uint63.to_Z_bounded.
Qed.

Lemma SFmul_comm prec emax x y : SFmul prec emax x y = SFmul prec emax y x.
Proof.
  destruct x as [sx|sx| |sx mx ex], y as [sy|sy| |sy my ey]; unfold SFmul;
    rewrite ?(xorb_comm sx sy); try reflexivity.
  rewrite Pos.mul_comm, Z.add_comm. reflexivity.
Qed.

Lemma mul_comm x y : PrimFloat.mul x y = PrimFloat.mul y x.
Proof.
  apply FloatAxioms.Prim2SF_inj.
  rewrite !FloatAxioms.mul_spec. apply SFmul_comm.
Qed.

End RoundingFacts.

(** ** Running a computation: equations of the monad *)

Section Facts.
Context {rt : Runtime}.

Lemma bind_ok {L A B} (m : Prog L A) (f : A -> Prog L B) l w a l' w' :
  m l w = Ok (a, l', w') -> (m ≫= f) l w = f a l' w'.
Proof. intros E. unfold mbind, Prog_bind. rewrite E. reflexivity. Qed.

Lemma bind_fault {L A B} (m : Prog L A) (f : A -> Prog L B) l w e :
  m l w = Fault e -> (m ≫= f) l w = Fault e.
Proof. intros E. unfold mbind, Prog_bind. rewrite E. reflexivity. Qed.

Lemma bind_inv {L A B} (m : Prog L A) (f : A -> Prog L B) l w b l2 w2 :
  (m ≫= f) l w = Ok (b, l2, w2) ->
  exists a l1 w1, m l w = Ok (a, l1, w1) /\ f a l1 w1 = Ok (b, l2, w2).
Proof.
  unfold mbind, Prog_bind. destruct (m l w) as [[[a l1] w1]|e]; [|discriminate].
  intros E. exists a, l1, w1. split; [reflexivity|exact E].
Qed.

(** ** Schedules visit every index once *)

Lemma pick_order_perm fuel : forall codes rest,
  length rest = fuel -> pick_order fuel codes rest ≡ₚ rest.
Proof.
  induction fuel as [|fuel IH]; intros codes rest Hlen.
  - destruct rest; [reflexivity|discriminate].
  - destruct rest as [|r0 rest]; [discriminate|].
    cbn [pick_order].
    set (j := hd 0 codes mod length (r0 :: rest)).
    assert (Hj : j < length (r0 :: rest)).
    { apply Nat.mod_upper_bound. discriminate. }
    destruct (lookup_lt_is_Some_2 _ _ Hj) as [x Hx].
    rewrite (nth_lookup_Some _ _ r0 _ Hx).
    rewrite IH.
    + symmetry. apply delete_Permutation. exact Hx.
    + rewrite length_delete by eauto. rewrite Hlen. simpl. lia.
Qed.

Lemma schedule_indices p n codes worker :
  index <$> schedule p n codes worker ≡ₚ seq 0 n.
Proof.
  unfold schedule. rewrite <- list_fmap_compose.
  rewrite (list_fmap_ext _ id) by reflexivity.
  rewrite list_fmap_id.
  destruct (in_order p); [reflexivity|].
  apply pick_order_perm. apply length_seq.
Qed.

Lemma schedule_index_lt p n codes worker sl :
  sl ∈ schedule p n codes worker -> index sl < n.
Proof.
  intros H. assert (Hi : index sl ∈ index <$> schedule p n codes worker).
  { apply list_elem_of_fmap. eauto. }
  rewrite schedule_indices in Hi. apply elem_of_seq in Hi. lia.
Qed.

Lemma schedule_covers p n codes worker i :
  i < n -> i ∈ index <$> schedule p n codes worker.
Proof. intros H. rewrite schedule_indices. apply elem_of_seq. lia. Qed.

(** ** [std::transform] writes [op(first[i])] to [d_first[i]], whatever
    the order of the element accesses *)

Lemma transform_slots_spec {A B} (op : A -> res B) (src : range A)
    (g : nat -> B) (sch : list slot) : forall dst : list B,
  (forall sl, sl ∈ sch ->
     index sl < length dst /\
     (range_at src (index sl) ≫= op) = Ok (g (index sl))) ->
  exists dst', transform_slots op src sch dst = Ok dst' /\
    length dst' = length dst /\
    forall i, dst' !! i =
      if decide (i ∈ index <$> sch) then Some (g i) else dst !! i.
Proof.
  induction sch as [|sl sch IH]; intros dst Hall.
  - exists dst. split; [reflexivity|]. split; [reflexivity|].
    intros i. destruct (decide _) as [Hin|]; [|reflexivity].
    apply elem_of_nil in Hin. destruct Hin.
  - destruct (Hall sl) as [Hlt Hop]; [left|].
    unfold transform_slots. cbn [fold_res].
    unfold mbind, res_bind in Hop |- *.
    destruct (range_at src (index sl)) as [x|]; [|discriminate].
    rewrite Hop. unfold vec_store.
    destruct (decide (index sl < length dst)) as [_|]; [|contradiction].
    destruct (IH (<[index sl := g (index sl)]> dst)) as (dst' & E & Hlen & Hget).
    { intros sl' Hin. rewrite length_insert. apply Hall. right. exact Hin. }
    exists dst'. split; [exact E|]. split.
    { rewrite Hlen. apply length_insert. }
    intros i. rewrite Hget. rewrite fmap_cons.
    destruct (decide (i ∈ index <$> sch)) as [Hin|Hout].
    + rewrite decide_True by (right; exact Hin). reflexivity.
    + destruct (decide (i = index sl)) as [->|Hne].
      * rewrite decide_True by left.
        apply list_lookup_insert_eq. exact Hlt.
      * rewrite decide_False.
        -- apply list_lookup_insert_ne. congruence.
        -- intros Hc. apply elem_of_cons in Hc. destruct Hc; contradiction.
Qed.

Lemma sqrt_sin_cos_spec {L} (p : Policy) (vec out : list float) (l : L) (w : World) :
  length out = length vec ->
  sqrt_sin_cos p vec out l w =
    Ok (trig <$> vec, l, set_sched_calls (S (sched_calls w)) w).
Proof.
  intros Hlen. unfold sqrt_sin_cos, transform, next_schedule, next_decisions.
  unfold mbind, Prog_bind, mret, Prog_ret, lift_res. cbn [fst snd range_len vector_range].
  set (sch := schedule p (length vec) _ _).
  destruct (transform_slots_spec (fun v => Ok (trig v)) (vector_range vec)
              (fun i => default 0%float (trig <$> vec !! i)) sch out)
    as (dst' & E & Hl & Hget).
  { intros sl Hin. apply schedule_index_lt in Hin. split; [lia|].
    cbn [range_at vector_range]. unfold vec_at.
    destruct (lookup_lt_is_Some_2 vec (index sl) Hin) as [v Hv].
    rewrite Hv. reflexivity. }
  rewrite E. do 3 f_equal.
  apply list_eq. intros i. rewrite Hget, list_lookup_fmap.
  destruct (decide (i ∈ index <$> sch)) as [Hin|Hout].
  - destruct (vec !! i) eqn:Hv; [reflexivity|].
    exfalso. apply lookup_ge_None in Hv.
    unfold sch in Hin. rewrite schedule_indices in Hin.
    apply elem_of_seq in Hin. lia.
  - destruct (decide (i < length vec)) as [Hlt|Hge].
    + destruct Hout. apply schedule_covers. exact Hlt.
    + rewrite (proj2 (lookup_ge_None out i)) by lia.
      rewrite (proj2 (lookup_ge_None vec i)) by lia. reflexivity.
Qed.

(** C1. Whatever the policy and the input buffer, the trigonometric
    transform leaves [sqrt(sin(vec[i]) * cos(vec[i]))] at every index [i] of
    the output buffer, which keeps the length of the input. *)
Theorem trig_transform_values {L} (p : Policy) (vec out : list float)
    (l : L) (w : World) :
  length out = length vec ->
  exists out' w',
    sqrt_sin_cos p vec out l w = Ok (out', l, w') /\
    length out' = length vec /\
    forall i v, vec !! i = Some v ->
      out' !! i = Some (PrimFloat.sqrt (PrimFloat.mul (sin v) (cos v))).
Proof.
  intros Hlen. eexists _, _. split; [apply sqrt_sin_cos_spec; exact Hlen|].
  split; [apply length_fmap|].
  intros i v Hv. rewrite list_lookup_fmap, Hv. reflexivity.
Qed.

(** C3. On one input the trigonometric transform gives the same output
    buffer, element for element and bit for bit, under the sequential and
    under the parallel policy: under any two policies. *)
Theorem trig_transform_policy_independent {L} (p q : Policy)
    (vec out : list float) (l : L) (w1 w2 : World) :
  length out = length vec ->
  exists out' w1' w2',
    sqrt_sin_cos p vec out l w1 = Ok (out', l, w1') /\
    sqrt_sin_cos q vec out l w2 = Ok (out', l, w2') /\
    forall i, out' !! i = trig <$> vec !! i.
Proof.
  intros Hlen. exists (trig <$> vec). eexists _, _.
  split; [apply sqrt_sin_cos_spec; exact Hlen|].
  split; [apply sqrt_sin_cos_spec; exact Hlen|].
  intros i. apply list_lookup_fmap.
Qed.

End Facts.

(** ** The timed trial runner *)

Section Trial.
Context {L R : Type}.
Variable func : Prog L R.

(** The loop of [RunAndMeasure] collects what [n] timed invocations give:
    the results go to [results[i]], [results[i+1]], ... and the elapsed
    times into the set. *)
Lemma measure_loop_spec n : forall i results times l w,
  i + n <= length results ->
  match timed_runs func n l w with
  | Ok (samples, l', w') =>
      exists results',
        measure_loop func n i (results, times) l w =
          Ok ((results', DoubleSet.insert_all times samples.*1), l', w') /\
        length results' = length results /\
        length samples = n /\
        (forall j, j < i -> results' !! j = results !! j) /\
        (forall k r, samples.*2 !! k = Some r -> results' !! (i + k) = Some r)
  | Fault e => measure_loop func n i (results, times) l w = Fault e
  end.
Proof.
  induction n as [|n IH]; intros i results times l w Hlen.
  - exists results. cbn. repeat split; auto. intros k r Hk. discriminate.
  - cbn [timed_runs measure_loop]. unfold timed.
    unfold mbind, Prog_bind, now, mret, Prog_ret.
    destruct (func l _) as [[[r l1] w2]|e]; [|reflexivity].
    unfold lift_res, vec_store. cbn [fst snd].
    destruct (decide (i < length results)) as [Hi|Hi]; [|lia].
    set (w3 := set_clock_reads _ w2).
    set (ms := milliseconds _ _).
    specialize (IH (S i) (<[i := r]> results) (DoubleSet.insert ms times) l1 w3).
    rewrite length_insert in IH.
    destruct (timed_runs func n l1 w3) as [[[ss l'] w']|e]; [|apply IH; lia].
    destruct IH as (results' & E & Hl & Hn & Hlow & Hhigh); [lia|].
    exists results'. split; [exact E|]. split; [exact Hl|].
    split; [simpl; lia|]. split.
    + intros j Hj. rewrite Hlow by lia. apply list_lookup_insert_ne. lia.
    + intros [|k] r' Hk.
      * simpl in Hk. injection Hk as <-. rewrite Nat.add_0_r.
        rewrite Hlow by lia. apply list_lookup_insert_eq. exact Hi.
      * rewrite <- Nat.add_succ_comm. apply Hhigh. exact Hk.
Qed.

(** [RunAndMeasure] is the trial followed by one line of output: the first
    and the last element of the set of elapsed times and [results[0]], the
    result of the first timed invocation. *)
Lemma RunAndMeasure_trial `{Streamable R} (title : string) l w :
  match trial func l w with
  | Ok (samples, l', w') =>
      exists tmin tmax r,
        length samples = RUN_TIMES /\
        DoubleSet.front (DoubleSet.insert_all [] samples.*1) = Ok tmin /\
        DoubleSet.back (DoubleSet.insert_all [] samples.*1) = Ok tmax /\
        samples.*2 !! 0 = Some r /\
        RunAndMeasure title func l w =
          Ok (tt, l', set_cout (cout w' ++ report title tmin tmax r) w')
  | Fault e => RunAndMeasure title func l w = Fault e
  end.
Proof.
  unfold trial, RunAndMeasure.
  destruct (func l w) as [[[first l1] w1]|e] eqn:Ef.
  2:{ rewrite (bind_fault _ _ _ _ _ Ef). apply bind_fault. exact Ef. }
  rewrite (bind_ok _ _ _ _ _ _ _ Ef).
  rewrite (bind_ok _ (fun first => _ ≫= _) _ _ _ _ _ Ef).
  pose proof (measure_loop_spec RUN_TIMES 0 (replicate RUN_TIMES first) [] l1 w1) as M.
  destruct (timed_runs func RUN_TIMES l1 w1) as [[[samples l'] w']|e].
  - destruct M as (results' & E & Hl & Hn & _ & Hres).
    { rewrite length_replicate. reflexivity. }
    destruct (DoubleSetFacts.insert_all_front_back samples.*1) as (tmin & tmax & Hmin & Hmax).
    { destruct samples; [discriminate|discriminate]. }
    destruct (samples.*2 !! 0) as [r|] eqn:Er.
    2:{ apply lookup_ge_None in Er. rewrite length_fmap, Hn in Er.
        unfold RUN_TIMES in Er. lia. }
    exists tmin, tmax, r. split; [exact Hn|]. split; [exact Hmin|].
    split; [exact Hmax|]. split; [reflexivity|].
    rewrite (bind_ok _ _ _ _ _ _ _ E).
    unfold mbind, Prog_bind, lift_res. cbn [fst snd].
    rewrite Hmin, Hmax. unfold vec_at.
    pose proof (Hres 0 r Er) as Hr. simpl in Hr. rewrite Hr. reflexivity.
  - apply bind_fault. apply M. rewrite length_replicate. reflexivity.
Qed.

End Trial.

Section Probes.
Context {L R : Type}.
Variable func : Prog L R.

Lemma timed_runs_probed (r0 : option R) n : forall l k w,
  timed_runs (probed r0 func) n (l, S k) w =
    match timed_runs func n l w with
    | Ok (samples, l', w') => Ok (samples, (l', S k + n), w')
    | Fault e => Fault e
    end.
Proof.
  induction n as [|n IH]; intros l k w.
  - cbn. rewrite Nat.add_0_r. reflexivity.
  - cbn [timed_runs]. unfold timed.
    unfold mbind, Prog_bind, now, mret, Prog_ret, probed. cbn [fst snd].
    destruct (func l _) as [[[r l1] w2]|e]; [|reflexivity].
    fold (probed r0 func). rewrite IH.
    destruct (timed_runs func n l1 _) as [[[ss l'] w']|e]; [|reflexivity].
    rewrite <- Nat.add_succ_comm. reflexivity.
Qed.

Lemma trial_probed (r0 : option R) l k w :
  trial (probed r0 func) (l, k) w =
    match trial func l w with
    | Ok (samples, l', w') => Ok (samples, (l', k + 6), w')
    | Fault e => Fault e
    end.
Proof.
  unfold trial. unfold mbind at 1 2. unfold Prog_bind at 1 2.
  unfold probed at 1. cbn [fst snd].
  destruct (func l w) as [[[r l1] w1]|e]; [|reflexivity].
  rewrite timed_runs_probed.
  destruct (timed_runs func RUN_TIMES l1 w1) as [[[ss l'] w']|e]; [|reflexivity].
  unfold RUN_TIMES. replace (S k + 5) with (k + 6) by lia. reflexivity.
Qed.

(** Counting the invocations, or putting any answer in place of the first
    one, changes nothing else in a run. *)
Lemma RunAndMeasure_probed `{Streamable R} (title : string) (r0 : option R) l k w :
  RunAndMeasure title (probed r0 func) (l, k) w =
    match RunAndMeasure title func l w with
    | Ok (u, l', w') => Ok (u, (l', k + 6), w')
    | Fault e => Fault e
    end.
Proof.
  pose proof (RunAndMeasure_trial func title l w) as A.
  pose proof (RunAndMeasure_trial (probed r0 func) title (l, k) w) as B.
  rewrite trial_probed in B.
  destruct (trial func l w) as [[[samples l'] w']|e].
  - destruct A as (tmin & tmax & r & _ & Hmin & Hmax & Hr & ->).
    destruct B as (tmin' & tmax' & r' & _ & Hmin' & Hmax' & Hr' & ->).
    congruence.
  - rewrite A, B. reflexivity.
Qed.

End Probes.

(** C2, amended. The line [RunAndMeasure] prints for a labelled computation
    carries the label, the least and the greatest of the elapsed times
    collected, and the result of the first timed invocation. *)
Theorem RunAndMeasure_reports_min_max_first {L R} `{Streamable R}
    (title : string) (func : Prog L R) l w samples l' w' :
  trial func l w = Ok (samples, l', w') ->
  (forall d, d ∈ samples.*1 -> F64.is_num d = true) ->
  exists tmin tmax r,
    RunAndMeasure title func l w =
      Ok (tt, l', set_cout (cout w' ++ report title tmin tmax r) w') /\
    (tmin ∈ samples.*1 /\
     forall d, d ∈ samples.*1 -> PrimFloat.leb tmin d = true) /\
    (tmax ∈ samples.*1 /\
     forall d, d ∈ samples.*1 -> PrimFloat.leb d tmax = true) /\
    samples.*2 !! 0 = Some r.
Proof.
  intros Et Hnum. pose proof (RunAndMeasure_trial func title l w) as T.
  rewrite Et in T. destruct T as (tmin & tmax & r & _ & Hmin & Hmax & Hr & E).
  exists tmin, tmax, r. split; [exact E|].
  destruct (DoubleSetFacts.insert_all_min_max _ _ _ Hnum Hmin Hmax) as [A B].
  split; [exact A|]. split; [exact B|exact Hr].
Qed.

(** C7. A run of [RunAndMeasure] that completes has invoked the computation
    six times; the first invocation comes before the five timed ones and
    any answer put in its place leaves the run as it was, output included;
    the times printed are elapsed times of the five timed invocations. *)
Theorem RunAndMeasure_six_invocations {L R} `{Streamable R}
    (title : string) (func : Prog L R) l w l' w' :
  RunAndMeasure title func l w = Ok (tt, l', w') ->
  (forall k, RunAndMeasure title (probed None func) (l, k) w =
               Ok (tt, (l', k + 6), w')) /\
  (forall r0, RunAndMeasure title (probed (Some r0) func) (l, 0) w =
                Ok (tt, (l', 6), w')) /\
  exists samples w0 tmin tmax r,
    trial func l w = Ok (samples, l', w0) /\
    length samples = 5 /\
    w' = set_cout (cout w0 ++ report title tmin tmax r) w0 /\
    tmin ∈ samples.*1 /\ tmax ∈ samples.*1 /\ samples.*2 !! 0 = Some r.
Proof.
  intros E. split; [|split].
  - intros k. rewrite RunAndMeasure_probed, E. reflexivity.
  - intros r0. rewrite RunAndMeasure_probed, E. reflexivity.
  - pose proof (RunAndMeasure_trial func title l w) as T.
    destruct (trial func l w) as [[[samples l0] w0]|e]; [|congruence].
    destruct T as (tmin & tmax & r & Hn & Hmin & Hmax & Hr & E').
    rewrite E in E'. injection E' as -> ->.
    exists samples, w0, tmin, tmax, r.
    split; [reflexivity|]. split; [exact Hn|]. split; [reflexivity|].
    assert (Hsub : forall y, y ∈ DoubleSet.insert_all [] samples.*1 -> y ∈ samples.*1).
    { intros y Hy. destruct (DoubleSetFacts.insert_all_elem _ _ _ Hy) as [F|F]; [|exact F].
      apply elem_of_nil in F. destruct F. }
    split; [apply Hsub, DoubleSetFacts.front_elem, Hmin|].
    split; [apply Hsub, DoubleSetFacts.back_elem, Hmax|exact Hr].
Qed.

(** ** The random generators *)

Section Generators.
Context {rt : Runtime} {conforming : Conforming rt}.

(** C8, amended. With [lower <= upper] and, for [GenRandomFloat],
    [upper - lower] not above the greatest [float], every call of
    [GenRandomFloat] and every call of [GenRandomInt], on any thread and in
    any state of the engines, returns a value [v] with
    [lower <= v <= upper]: the bounds go to the distribution as they are
    and the draw comes back as it is. *)
Theorem GenRandom_within_bounds {L} (t : nat) (l : L) (w : World) :
  (forall lower upper : float,
     PrimFloat.leb lower upper = true ->
     PrimFloat.leb (PrimFloat.sub upper lower) F32.max = true ->
     exists v w', GenRandomFloat lower upper t l w = Ok (v, l, w') /\
       PrimFloat.leb lower v = true /\ PrimFloat.leb v upper = true) /\
  (forall lower upper : Z,
     (lower <= upper)%Z ->
     exists v w', GenRandomInt lower upper t l w = Ok (v, l, w') /\
       (lower <= v <= upper)%Z).
Proof.
  split.
  - intros lower upper Hle Hmax. unfold GenRandomFloat, draw.
    pose proof (uniform_real_range lower upper (rd_GenRandomFloat w t) Hle Hmax) as Hr.
    destruct (uniform_real_distribution lower upper (rd_GenRandomFloat w t)) as [v g].
    eexists _, _. split; [reflexivity|exact Hr].
  - intros lower upper Hle. unfold GenRandomInt, draw.
    pose proof (uniform_int_range lower upper (rd_GenRandomInt w t) Hle) as Hr.
    destruct (uniform_int_distribution lower upper (rd_GenRandomInt w t)) as [v g].
    eexists _, _. split; [reflexivity|exact Hr].
Qed.

(** ** The vector sort *)

Lemma by_x_strict_weak_order (points : list glm.vec4) :
  numbers_x points -> strict_weak_order by_x points.
Proof.
  intros Hnum. unfold by_x. split; [|split].
  - intros a _. apply F64Facts.ltb_irrefl.
  - intros a b c _ _ _. apply F64Facts.ltb_trans.
  - intros a b c Ha Hb Hc. apply F64Facts.ltb_incomparable_trans; auto.
Qed.

Lemma BM_SortPoints_pass_spec (p : Policy) (points : list glm.vec4) (w : World) :
  numbers_x points ->
  exists sorted w',
    BM_SortPoints_pass p points w = Ok (tt, sorted, w') /\
    sorted ≡ₚ points /\ ascending_x sorted.
Proof.
  intros Hnum. pose proof (by_x_strict_weak_order points Hnum) as Hswo.
  eexists _, _. split; [reflexivity|].
  cbn [fst]. set (codes := sched_codes w (sched_calls w)).
  pose proof (std_sort_permutation _ by_x codes points Hswo) as Hperm.
  split; [exact Hperm|].
  intros i a b Ha Hb.
  pose proof (std_sort_sorted _ by_x codes points Hswo i (S i) a b
                (Nat.lt_succ_diag_r i) Ha Hb) as Hab.
  unfold by_x in Hab. apply F64Facts.not_ltb_leb; [| |exact Hab].
  - apply Hnum. rewrite <- Hperm. eapply list_elem_of_lookup_2. exact Hb.
  - apply Hnum. rewrite <- Hperm. eapply list_elem_of_lookup_2. exact Ha.
Qed.

(** C5. After the sort of a buffer of points whose first coordinates are
    numbers, every adjacent pair of the output has [p[i].x <= p[i+1].x],
    and the output is a permutation of the input. *)
Theorem BM_SortPoints_sorted_by_x (p : Policy) (points : list glm.vec4)
    (w : World) :
  (forall pt, pt ∈ points -> F64.is_num (glm.x pt) = true) ->
  exists sorted w',
    BM_SortPoints_pass p points w = Ok (tt, sorted, w') /\
    sorted ≡ₚ points /\
    forall i a b, sorted !! i = Some a -> sorted !! S i = Some b ->
      PrimFloat.leb (glm.x a) (glm.x b) = true.
Proof.
  intros Hnum.
  destruct (BM_SortPoints_pass_spec p points w Hnum) as (sorted & w' & E & Hperm & Hasc).
  exists sorted, w'. split; [exact E|]. split; [exact Hperm|].
  intros i a b Ha Hb. exact (Hasc i a b Ha Hb).
Qed.

End Generators.

(** ** The index-driven pricing computation *)

Section Pricing.
Context {rt : Runtime}.

Lemma subscript_of_nat i : (Z.of_nat i < 2 ^ 64)%Z -> Int.subscript (Z.of_nat i) = i.
Proof.
  intros H. unfold Int.subscript, Int.to_size_t.
  rewrite Z.mod_small by lia. apply Nat2Z.id.
Qed.

Lemma to_int_of_nat i : (Z.of_nat i < 2 ^ 31)%Z -> Int.to_int (Z.of_nat i) = Z.of_nat i.
Proof. intros H. unfold Int.to_int. rewrite Z.mod_small by lia. lia. Qed.

Lemma fill_prices_sized t i n fr w :
  i < n -> (Z.of_nat n <= 2 ^ 64)%Z -> sized n fr ->
  exists fr' w', fill_prices t (Z.of_nat i) fr w = Ok (tt, fr', w') /\
    sized n fr' /\ profit fr' = profit fr.
Proof.
  intros Hi Hn (Hp & Hq & Hd & Hr).
  unfold fill_prices, GenRandomFloat, GenRandomInt, draw.
  unfold mbind, Prog_bind, lift_res, get_frame, put_frame, vec_store.
  rewrite subscript_of_nat by lia.
  destruct (uniform_real_distribution 0.5 100 _) as [v1 g1].
  rewrite Hp. destruct (decide (i < n)) as [_|]; [|contradiction].
  destruct (uniform_int_distribution 1 100 _) as [v2 g2].
  cbn [quantities prices discounts profit].
  rewrite Hq. destruct (decide (i < n)) as [_|]; [|contradiction].
  destruct (uniform_real_distribution 0 0.5 _) as [v3 g3].
  cbn [quantities prices discounts profit].
  rewrite Hd. destruct (decide (i < n)) as [_|]; [|contradiction].
  eexists _, _. split; [reflexivity|]. split; [|reflexivity].
  unfold sized. cbn [quantities prices discounts profit].
  rewrite !length_insert. auto.
Qed.

Lemma for_each_fill_sized n VecSize sch : forall fr w,
  (forall sl, sl ∈ sch -> index sl < n) ->
  (Z.of_nat n <= 2 ^ 64)%Z -> sized n fr ->
  exists fr' w',
    fold_prog (fun sl (_ : unit) =>
                 x ← lift_res (range_at (counting_range 0 VecSize) (index sl));
                 fill_prices (thread sl) x) sch tt fr w = Ok (tt, fr', w') /\
    sized n fr' /\ profit fr' = profit fr.
Proof.
  induction sch as [|sl sch IH]; intros fr w Hsch Hn Hsz.
  - exists fr, w. split; [reflexivity|]. split; [exact Hsz|reflexivity].
  - destruct (fill_prices_sized (thread sl) (index sl) n fr w) as (fr1 & w1 & E & Hsz1 & Hp1);
      [apply Hsch; left|exact Hn|exact Hsz|].
    destruct (IH fr1 w1) as (fr2 & w2 & E2 & Hsz2 & Hp2);
      [intros sl' Hin; apply Hsch; right; exact Hin|exact Hn|exact Hsz1|].
    exists fr2, w2. split; [|split; [exact Hsz2|congruence]].
    cbn [fold_prog].
    erewrite bind_ok; [exact E2|].
    cbn [counting_range range_at]. rewrite Z.add_0_l.
    exact E.
Qed.

Lemma BM_CountingIter_pass_spec (p : Policy) (VecSize : Z) (fr : PricingFrame)
    (w : World) :
  (0 <= VecSize <= 2 ^ 31)%Z ->
  sized (Z.to_nat VecSize) fr ->
  exists fr' w',
    BM_CountingIter_pass p VecSize fr w = Ok (tt, fr', w') /\
    sized (Z.to_nat VecSize) fr' /\ priced (Z.to_nat VecSize) fr'.
Proof.
  intros HV Hsz. set (n := Z.to_nat VecSize) in *.
  assert (Hn : (Z.of_nat n <= 2 ^ 31)%Z) by (unfold n; lia).
  assert (Hlen : range_len (counting_range 0 VecSize) = n).
  { cbn [range_len counting_range]. rewrite Z.sub_0_r. reflexivity. }
  assert (Heach : exists fr1 w1,
            for_each p (counting_range 0 VecSize) fill_prices fr w = Ok (tt, fr1, w1) /\
            sized n fr1).
  { unfold for_each, next_schedule, next_decisions. rewrite Hlen.
    unfold mbind at 1 2, Prog_bind at 1 2, mret at 1, Prog_ret at 1.
    cbn [fst snd].
    destruct (for_each_fill_sized n VecSize
                (schedule p n (sched_codes w (sched_calls w))
                   (sched_worker w (sched_calls w))) fr
                (set_sched_calls (S (sched_calls w)) w))
      as (fr1 & w1 & E & Hsz1 & _);
      [intros sl; apply schedule_index_lt|lia|exact Hsz|].
    exists fr1, w1. split; [exact E|exact Hsz1]. }
  destruct Heach as (fr1 & w1 & Eeach & Hp & Hq & Hd & Hr).
  set (g := fun i =>
    PrimFloat.mul
      (PrimFloat.mul (default 0%float (prices fr1 !! i))
         (PrimFloat.sub 1 (default 0%float (discounts fr1 !! i))))
      (Int.to_double (default 0%Z (quantities fr1 !! i)))).
  assert (Htr : exists profit' w2,
            transform p (counting_range 0 VecSize) (profit fr1) (price_of fr1) fr1 w1 =
              Ok (profit', fr1, w2) /\
            length profit' = n /\
            forall i, i < n -> profit' !! i = Some (g i)).
  { unfold transform, next_schedule, next_decisions. rewrite Hlen.
    unfold mbind, Prog_bind, mret, Prog_ret, lift_res. cbn [fst snd].
    set (sch := schedule p n _ _).
    destruct (transform_slots_spec (price_of fr1) (counting_range 0 VecSize) g sch
                (profit fr1)) as (profit' & Et & Hl & Hget).
    { intros sl Hin. apply schedule_index_lt in Hin. split; [lia|].
      cbn [range_at counting_range]. rewrite Z.add_0_l.
      unfold mbind, res_bind, price_of.
      rewrite to_int_of_nat, subscript_of_nat by lia. unfold vec_at.
      destruct (lookup_lt_is_Some_2 (prices fr1) (index sl)) as [pr Epr]; [lia|].
      destruct (lookup_lt_is_Some_2 (discounts fr1) (index sl)) as [d Ed]; [lia|].
      destruct (lookup_lt_is_Some_2 (quantities fr1) (index sl)) as [q Eq]; [lia|].
      unfold g. rewrite Epr, Ed, Eq. reflexivity. }
    rewrite Et. eexists _, _. split; [reflexivity|]. split; [lia|].
    intros i Hi. rewrite Hget.
    rewrite decide_True by (apply schedule_covers; exact Hi). reflexivity. }
  destruct Htr as (profit' & w2 & Etr & Hl & Hget).
  exists {| prices := prices fr1; quantities := quantities fr1;
            discounts := discounts fr1; profit := profit' |}, w2.
  split.
  { unfold BM_CountingIter_pass.
    rewrite (bind_ok _ _ _ _ _ _ _ Eeach).
    unfold mbind at 1, Prog_bind at 1, get_frame.
    rewrite (bind_ok _ _ _ _ _ _ _ Etr). reflexivity. }
  split; [unfold sized; cbn [prices quantities discounts profit]; auto|].
  intros i Hi. cbn [prices quantities discounts profit].
  destruct (lookup_lt_is_Some_2 (prices fr1) i) as [pr Epr]; [lia|].
  destruct (lookup_lt_is_Some_2 (discounts fr1) i) as [d Ed]; [lia|].
  destruct (lookup_lt_is_Some_2 (quantities fr1) i) as [q Eq]; [lia|].
  exists pr, q, d. repeat (split; [assumption|]).
  rewrite (Hget i Hi). unfold g. rewrite Epr, Ed, Eq. reflexivity.
Qed.


(** C4. One pass of the pricing computation over buffers of [VecSize]
    elements leaves [profit[i] = price[i] * (1 - discount[i]) * quantity[i]]
    at every index [i] below [VecSize], whatever the policy.  The lambda
    takes its index as an [int], which holds every index below [2^31]. *)
Theorem BM_CountingIter_profit (p : Policy) (VecSize : Z) (fr : PricingFrame)
    (w : World) :
  (0 <= VecSize <= 2 ^ 31)%Z ->
  sized (Z.to_nat VecSize) fr ->
  exists fr' w',
    BM_CountingIter_pass p VecSize fr w = Ok (tt, fr', w') /\
    sized (Z.to_nat VecSize) fr' /\
    forall i, i < Z.to_nat VecSize ->
      exists price quantity discount,
        prices fr' !! i = Some price /\
        quantities fr' !! i = Some quantity /\
        discounts fr' !! i = Some discount /\
        profit fr' !! i =
          Some (PrimFloat.mul (PrimFloat.mul price (PrimFloat.sub 1 discount))
                  (Int.to_double quantity)).
Proof.
  intros HV Hsz.
  destruct (BM_CountingIter_pass_spec p VecSize fr w HV Hsz)
    as (fr' & w' & E & Hsz' & Hpriced).
  exists fr', w'. split; [exact E|]. split; [exact Hsz'|].
  intros i Hi. exact (Hpriced i Hi).
Qed.

End Pricing.

(** ** Inputs are left alone *)

Section Inputs.
Context {rt : Runtime}.

Lemma TestTrig_run_keeps_vec p fr w r fr' w' :
  TestTrig_run p fr w = Ok (r, fr', w') -> vec fr' = vec fr.
Proof.
  unfold TestTrig_run. unfold mbind, Prog_bind, get_frame, put_frame, lift_res.
  destruct (sqrt_sin_cos p (vec fr) (out fr) fr w) as [[[o l1] w1]|e]; [|discriminate].
  destruct (vec_at o 0); [|discriminate].
  intros [= _ <- _]. reflexivity.
Qed.

Lemma TestDotProduct_run_keeps_frame p fr w r fr' w' :
  TestDotProduct_run p fr w = Ok (r, fr', w') -> fr' = fr.
Proof.
  unfold TestDotProduct_run, transform_reduce, next_decisions.
  unfold mbind, Prog_bind, get_frame, lift_res, mret, Prog_ret.
  match goal with |- context [fold_res ?f ?xs ?s] => destruct (fold_res f xs s) end;
    [|discriminate].
  intros [= _ <- _]. reflexivity.
Qed.

Section Observed.
Context {L R I : Type}.
Variable inp : L -> I.
Variable func : Prog L R.
Hypothesis func_keeps : forall l w r l' w',
  func l w = Ok (r, l', w') -> inp l' = inp l.

Lemma timed_runs_observing n : forall l log w ss l' log' w',
  timed_runs (observing inp func) n (l, log) w = Ok (ss, (l', log'), w') ->
  log' = log ++ replicate n (inp l) /\ inp l' = inp l.
Proof.
  induction n as [|n IH]; intros l log w ss l' log' w'.
  - cbn. intros [= _ <- <- _]. rewrite app_nil_r. auto.
  - cbn [timed_runs]. unfold timed.
    unfold mbind, Prog_bind, now, mret, Prog_ret.
    unfold observing at 1. cbn [fst snd].
    destruct (func l _) as [[[r l1] w2]|e] eqn:Ef; [|discriminate].
    apply func_keeps in Ef.
    destruct (timed_runs (observing inp func) n _ _) as [[[ss' [l2 log2]] w4]|e] eqn:Et;
      [|discriminate].
    apply IH in Et. destruct Et as [-> Hl2].
    intros [= _ <- <- _]. split; [|congruence].
    rewrite Ef, <- app_assoc. reflexivity.
Qed.

Lemma RunAndMeasure_observing `{Streamable R} (title : string) l log w l' log' w' :
  RunAndMeasure title (observing inp func) (l, log) w = Ok (tt, (l', log'), w') ->
  log' = log ++ replicate 6 (inp l) /\ inp l' = inp l.
Proof.
  intros E.
  pose proof (RunAndMeasure_trial (observing inp func) title (l, log) w) as T.
  destruct (trial (observing inp func) (l, log) w) as [[[samples l0] w0]|e] eqn:Et;
    [|congruence].
  destruct T as (tmin & tmax & r & _ & _ & _ & _ & E').
  rewrite E in E'. injection E' as <- _.
  unfold trial in Et. apply bind_inv in Et.
  destruct Et as (a & [l1 log1] & w1 & E1 & E2).
  unfold observing in E1. cbn [fst snd] in E1.
  destruct (func l w) as [[[r1 lf] wf]|e] eqn:Ef; [|discriminate].
  injection E1 as _ <- <- _. apply func_keeps in Ef.
  apply timed_runs_observing in E2. destruct E2 as [-> Hl'].
  split; [|congruence].
  rewrite Ef, <- app_assoc. reflexivity.
Qed.

End Observed.

(** C10. The trigonometric test writes to [out] and leaves [vec] as it
    was; the dot-product test leaves both of its vectors as they were; so
    the six invocations of one [RunAndMeasure] start from the same input
    data. *)
Theorem timed_invocations_see_same_inputs :
  (forall p fr w r fr' w',
     TestTrig_run p fr w = Ok (r, fr', w') -> vec fr' = vec fr) /\
  (forall p fr w r fr' w',
     TestDotProduct_run p fr w = Ok (r, fr', w') ->
     v1 fr' = v1 fr /\ v2 fr' = v2 fr) /\
  (forall title p fr w fr' log w',
     RunAndMeasure title (observing vec (TestTrig_run p)) (fr, []) w =
       Ok (tt, (fr', log), w') ->
     log = replicate 6 (vec fr)) /\
  (forall title p fr w fr' log w',
     RunAndMeasure title
       (observing (fun fr => (v1 fr, v2 fr)) (TestDotProduct_run p)) (fr, []) w =
       Ok (tt, (fr', log), w') ->
     log = replicate 6 (v1 fr, v2 fr)).
Proof.
  split; [exact TestTrig_run_keeps_vec|]. split; [|split].
  - intros p fr w r fr' w' E.
    apply TestDotProduct_run_keeps_frame in E. subst fr'. auto.
  - intros title p fr w fr' log w' E.
    apply (RunAndMeasure_observing vec (TestTrig_run p)) in E; [apply E|].
    intros l0 w0 r l1 w1. apply TestTrig_run_keeps_vec.
  - intros title p fr w fr' log w' E.
    apply (RunAndMeasure_observing _ (TestDotProduct_run p)) in E; [apply E|].
    intros l0 w0 r l1 w1 E0.
    apply TestDotProduct_run_keeps_frame in E0. subst l1. reflexivity.
Qed.

End Inputs.

(** ** Runs that complete *)

Section Totality.
Context {rt : Runtime}.

Lemma vector_n_ok {L A} bytes n (value : A) (l : L) w :
  (n * bytes <= Z.of_N max_bytes)%Z ->
  vector_n bytes n value l w = Ok (replicate (Z.to_nat n) value, l, w).
Proof.
  intros H. unfold vector_n.
  destruct (Z.ltb_spec (Z.of_N max_bytes) (n * bytes)); [lia|reflexivity].
Qed.

(** A loop that stores what a generator gives at positions inside the
    vector runs through and keeps the length. *)
Lemma fold_store_total {L A X} (idx : X -> nat) (gen : X -> Prog L A) n xs :
  (forall x, x ∈ xs -> idx x < n) ->
  (forall x l w, exists y w', gen x l w = Ok (y, l, w')) ->
  forall d l w, length d = n ->
  exists d' w',
    fold_prog (fun x d => y ← gen x; lift_res (vec_store d (idx x) y)) xs d l w =
      Ok (d', l, w') /\ length d' = n.
Proof.
  intros Hidx Hgen. induction xs as [|x xs IH]; intros d l w Hd.
  - exists d, w. split; [reflexivity|exact Hd].
  - destruct (Hgen x l w) as (y & w1 & Ey).
    destruct (IH (fun x' H => Hidx x' (list_elem_of_further _ _ _ H))
                 (<[idx x := y]> d) l w1) as (d' & w' & E & Hl).
    { rewrite length_insert. exact Hd. }
    exists d', w'. split; [|exact Hl].
    cbn [fold_prog]. erewrite bind_ok; [exact E|].
    rewrite (bind_ok _ _ _ _ _ _ _ Ey). unfold lift_res, vec_store.
    rewrite decide_True; [reflexivity|]. rewrite Hd. apply Hidx. left.
Qed.

Lemma generate_total {L A} (gen : nat -> Prog L A) (v : list A) l w :
  (forall t l w, exists y w', gen t l w = Ok (y, l, w')) ->
  exists v' w', generate v gen l w = Ok (v', l, w') /\ length v' = length v.
Proof.
  intros Hgen. unfold generate.
  apply (fold_store_total id (fun _ => gen main_thread) (length v));
    [|intros x; apply Hgen|reflexivity].
  intros i Hi. apply elem_of_seq in Hi. unfold id. lia.
Qed.

Lemma generate_policy_total {L A} p (gen : nat -> Prog L A) (v : list A) l w :
  (forall t l w, exists y w', gen t l w = Ok (y, l, w')) ->
  exists v' w', generate_policy p v gen l w = Ok (v', l, w') /\ length v' = length v.
Proof.
  intros Hgen. unfold generate_policy, next_schedule, next_decisions.
  unfold mbind at 1 2, Prog_bind at 1 2, mret at 1, Prog_ret at 1. cbn [fst snd].
  apply (fold_store_total index (fun sl => gen (thread sl)) (length v));
    [|intros x; apply Hgen|reflexivity].
  intros sl. apply schedule_index_lt.
Qed.

Lemma GenRandomFloat_total {L} lower upper t (l : L) w :
  exists y w', GenRandomFloat lower upper t l w = Ok (y, l, w').
Proof.
  unfold GenRandomFloat, draw.
  destruct (uniform_real_distribution lower upper _) as [v g]. eexists _, _. reflexivity.
Qed.

Lemma random_number_generator_total {L} t (l : L) w :
  exists y w', random_number_generator t l w = Ok (y, l, w').
Proof.
  unfold random_number_generator, draw.
  destruct (uniform_real_distribution 0 1 _) as [v g]. eexists _, _. reflexivity.
Qed.

Section Runner.
Context {L R : Type} `{Streamable R}.
Variable I : L -> Prop.
Variable func : Prog L R.
Hypothesis func_total : forall l w, I l ->
  exists r l' w', func l w = Ok (r, l', w') /\ I l'.

Lemma timed_runs_total n : forall l w, I l ->
  exists ss l' w', timed_runs func n l w = Ok (ss, l', w') /\ I l'.
Proof.
  induction n as [|n IH]; intros l w Hl.
  - exists [], l, w. split; [reflexivity|exact Hl].
  - cbn [timed_runs]. unfold timed.
    unfold mbind, Prog_bind, now, mret, Prog_ret.
    destruct (func_total l (set_clock_reads (S (clock_reads w)) w) Hl)
      as (r & l1 & w1 & E & Hl1).
    rewrite E.
    destruct (IH l1 (set_clock_reads (S (clock_reads w1)) w1) Hl1)
      as (ss & l' & w' & E' & Hl').
    rewrite E'. eexists _, _, _. split; [reflexivity|exact Hl'].
Qed.

Lemma RunAndMeasure_total (title : string) l w :
  I l -> exists l' w', RunAndMeasure title func l w = Ok (tt, l', w') /\ I l'.
Proof.
  intros Hl. pose proof (RunAndMeasure_trial func title l w) as T.
  destruct (func_total l w Hl) as (r & l1 & w1 & E & Hl1).
  destruct (timed_runs_total RUN_TIMES l1 w1 Hl1) as (ss & l' & w' & E' & Hl').
  unfold trial in T. rewrite (bind_ok _ _ _ _ _ _ _ E), E' in T.
  destruct T as (tmin & tmax & r1 & _ & _ & _ & _ & ->).
  eexists _, _. split; [reflexivity|exact Hl'].
Qed.

End Runner.

Lemma TestTrig_run_total p fr w :
  trig_ready fr ->
  exists r fr' w', TestTrig_run p fr w = Ok (r, fr', w') /\ trig_ready fr'.
Proof.
  intros [Hlen Hpos]. unfold TestTrig_run.
  unfold mbind at 1, Prog_bind at 1, get_frame.
  rewrite (bind_ok _ _ _ _ _ _ _ (sqrt_sin_cos_spec p _ _ fr w Hlen)).
  unfold mbind, Prog_bind, put_frame, lift_res, vec_at.
  destruct (lookup_lt_is_Some_2 (trig <$> vec fr) 0) as [r Er].
  { rewrite length_fmap. exact Hpos. }
  rewrite Er. eexists _, _, _. split; [reflexivity|].
  split; cbn [vec out]; [apply length_fmap|exact Hpos].
Qed.

Lemma products_total (a b : list float) (f : float -> float -> float) :
  length a <= length b ->
  forall n i acc, i + n <= length a ->
  exists prods,
    fold_res (fun i acc => x ← vec_at a i; y ← vec_at b i; Ok (acc ++ [f x y]))
      (seq i n) acc = Ok prods.
Proof.
  intros Hab. induction n as [|n IH]; intros i acc Hn.
  - exists acc. reflexivity.
  - destruct (lookup_lt_is_Some_2 a i) as [x Ex]; [lia|].
    destruct (lookup_lt_is_Some_2 b i) as [y Ey]; [lia|].
    destruct (IH (S i) (acc ++ [f x y])) as [prods E]; [lia|].
    exists prods. cbn [seq fold_res]. unfold mbind, res_bind, vec_at.
    rewrite Ex, Ey. exact E.
Qed.

Lemma TestDotProduct_run_total p fr w :
  dot_ready fr ->
  exists r fr' w', TestDotProduct_run p fr w = Ok (r, fr', w') /\ dot_ready fr'.
Proof.
  intros Hlen.
  change (TestDotProduct_run p fr w) with
    (transform_reduce p (v1 fr) (v2 fr) 0 PrimFloat.add PrimFloat.mul fr w).
  unfold transform_reduce.
  destruct (products_total (v1 fr) (v2 fr) PrimFloat.mul) with
    (n := length (v1 fr)) (i := 0) (acc := @nil float)
    as [prods E]; [unfold dot_ready in Hlen; lia|lia|].
  erewrite bind_ok by reflexivity. rewrite E.
  eexists _, _, _. split; [reflexivity|exact Hlen].
Qed.

(** [TestTrig] completes on every size from 1 up to what a vector holds,
    [TestDotProduct] on every size from 0. *)
Lemma TestTrig_total {L} (vecSize : Z) (l : L) w :
  (0 < vecSize)%Z -> (vecSize * 8 <= Z.of_N max_bytes)%Z ->
  exists w', TestTrig vecSize l w = Ok (tt, l, w').
Proof.
  intros Hpos Hmax. unfold TestTrig.
  rewrite (bind_ok _ _ _ _ _ _ _ (vector_n_ok 8 vecSize 0.5%float l w Hmax)).
  destruct (generate_total (GenRandomFloat 0 half_pi_f)
              (replicate (Z.to_nat vecSize) 0.5%float) l w)
    as (v & w1 & Eg & Hv); [intros t l0 w0; apply GenRandomFloat_total|].
  rewrite (bind_ok _ _ _ _ _ _ _ Eg).
  rewrite length_replicate in Hv.
  assert (Hready : trig_ready {| vec := v; out := v |}).
  { split; cbn [vec out]; lia. }
  unfold scope. unfold mbind at 1, Prog_bind at 1, print.
  set (w2 := set_cout _ w1).
  destruct (RunAndMeasure_total trig_ready (TestTrig_run pstl_seq)
              (TestTrig_run_total pstl_seq) "pstl::execution::seq" _ w2 Hready)
    as (fr1 & w3 & E1 & H1).
  rewrite (bind_ok _ _ _ _ _ _ _ E1).
  destruct (RunAndMeasure_total trig_ready (TestTrig_run pstl_par)
              (TestTrig_run_total pstl_par) "pstl::execution::par" fr1 w3 H1)
    as (fr2 & w4 & E2 & H2).
  rewrite (bind_ok _ _ _ _ _ _ _ E2).
  destruct (RunAndMeasure_total trig_ready (TestTrig_run std_seq)
              (TestTrig_run_total std_seq) "std::transform seq" fr2 w4 H2)
    as (fr3 & w5 & E3 & H3).
  rewrite (bind_ok _ _ _ _ _ _ _ E3).
  destruct (RunAndMeasure_total trig_ready (TestTrig_run std_par)
              (TestTrig_run_total std_par) "std::transform par" fr3 w5 H3)
    as (fr4 & w6 & E4 & H4).
  rewrite E4. eexists. reflexivity.
Qed.

Lemma TestDotProduct_total {L} (vecSize : Z) (l : L) w :
  (vecSize * 8 <= Z.of_N max_bytes)%Z ->
  exists w', TestDotProduct vecSize l w = Ok (tt, l, w').
Proof.
  intros Hmax. unfold TestDotProduct.
  unfold mbind at 1, Prog_bind at 1, print.
  set (w0 := set_cout _ w).
  rewrite (bind_ok _ _ _ _ _ _ _ (vector_n_ok 8 vecSize 0%float l w0 Hmax)).
  rewrite (bind_ok _ _ _ _ _ _ _ (vector_n_ok 8 vecSize 0%float l w0 Hmax)).
  destruct (generate_policy_total pstl_par random_number_generator
              (replicate (Z.to_nat vecSize) 0%float) l w0)
    as (a & w1 & Ea & Ha); [intros t l0 w'; apply random_number_generator_total|].
  rewrite (bind_ok _ _ _ _ _ _ _ Ea).
  destruct (generate_policy_total pstl_par random_number_generator
              (replicate (Z.to_nat vecSize) 0%float) l w1)
    as (b & w2 & Eb & Hb); [intros t l0 w'; apply random_number_generator_total|].
  rewrite (bind_ok _ _ _ _ _ _ _ Eb).
  assert (Hready : dot_ready {| v1 := a; v2 := b |}).
  { unfold dot_ready. cbn [v1 v2]. lia. }
  unfold scope.
  destruct (RunAndMeasure_total dot_ready (TestDotProduct_run pstl_seq)
              (TestDotProduct_run_total pstl_seq) "pstl::execution::seq" _ w2 Hready)
    as (fr1 & w3 & E1 & H1).
  rewrite (bind_ok _ _ _ _ _ _ _ E1).
  destruct (RunAndMeasure_total dot_ready (TestDotProduct_run pstl_par)
              (TestDotProduct_run_total pstl_par) "pstl::execution::par" fr1 w3 H1)
    as (fr2 & w4 & E2 & H2).
  rewrite (bind_ok _ _ _ _ _ _ _ E2).
  destruct (RunAndMeasure_total dot_ready (TestDotProduct_run std_seq)
              (TestDotProduct_run_total std_seq) "std::execution::seq" fr2 w4 H2)
    as (fr3 & w5 & E3 & H3).
  rewrite (bind_ok _ _ _ _ _ _ _ E3).
  destruct (RunAndMeasure_total dot_ready (TestDotProduct_run std_par)
              (TestDotProduct_run_total std_par) "std::execution::par" fr3 w5 H3)
    as (fr4 & w6 & E4 & H4).
  rewrite E4. eexists. reflexivity.
Qed.

End Totality.

(** ** The benchmarks from start to end *)

Section Benchmarks.
Context {rt : Runtime}.

(** After a first pass every pass starts from what [Inv] holds of and
    leaves what [Post] holds of. *)
Lemma iterate_total {L} (body : Prog L unit) (Inv Post : L -> Prop) :
  (forall fr w, Inv fr ->
     exists fr' w', body fr w = Ok (tt, fr', w') /\ Inv fr' /\ Post fr') ->
  forall k fr w, Inv fr ->
    exists fr' w', iterate (S k) body fr w = Ok (tt, fr', w') /\ Inv fr' /\ Post fr'.
Proof.
  intros Hbody. induction k as [|k IH]; intros fr w Hfr.
  - destruct (Hbody fr w Hfr) as (fr' & w' & E & Hi & Hp).
    exists fr', w'. split; [|auto]. cbn [iterate].
    rewrite (bind_ok _ _ _ _ _ _ _ E). reflexivity.
  - destruct (Hbody fr w Hfr) as (fr1 & w1 & E & Hi & _).
    destruct (IH fr1 w1 Hi) as (fr' & w' & E' & Hi' & Hp').
    exists fr', w'. split; [|auto].
    change (iterate (S (S k)) body) with (body;; iterate (S k) body).
    rewrite (bind_ok _ _ _ _ _ _ _ E). exact E'.
Qed.

(** What a storing loop leaves at a position is what the generator gave,
    or what was there when the loop never came to that position. *)
Lemma fold_store_values {L A X} (P : A -> Prop) (idx : X -> nat)
    (gen : X -> Prog L A) xs :
  (forall x l w y l' w', gen x l w = Ok (y, l', w') -> P y) ->
  forall d l w d' l' w',
    fold_prog (fun x d => y ← gen x; lift_res (vec_store d (idx x) y)) xs d l w =
      Ok (d', l', w') ->
    forall i y, d' !! i = Some y ->
      P y \/ ((i ∉ idx <$> xs) /\ d !! i = Some y).
Proof.
  intros Hgen. induction xs as [|x xs IH]; intros d l w d' l' w' E i y Hy.
  - cbn in E. injection E as <- _ _. right. split; [apply not_elem_of_nil|exact Hy].
  - cbn [fold_prog] in E. apply bind_inv in E.
    destruct E as (d1 & l1 & w1 & E1 & E).
    apply bind_inv in E1. destruct E1 as (y0 & l0 & w0 & Eg & Es).
    unfold lift_res, vec_store in Es.
    destruct (decide (idx x < length d)) as [Hlt|]; [|discriminate].
    injection Es as <- _ _.
    destruct (IH _ _ _ _ _ _ E i y Hy) as [HP|[Hout Hd1]]; [left; exact HP|].
    destruct (decide (i = idx x)) as [->|Hne].
    + rewrite list_lookup_insert_eq in Hd1 by exact Hlt.
      injection Hd1 as <-. left. eapply Hgen. exact Eg.
    + rewrite list_lookup_insert_ne in Hd1 by congruence.
      right. split; [|exact Hd1].
      rewrite fmap_cons. intros Hc. apply elem_of_cons in Hc.
      destruct Hc; contradiction.
Qed.

Lemma generate_values {L A} (P : A -> Prop) (gen : nat -> Prog L A) v l w v' l' w' :
  (forall t l w y l' w', gen t l w = Ok (y, l', w') -> P y) ->
  generate v gen l w = Ok (v', l', w') -> length v' = length v ->
  forall y, y ∈ v' -> P y.
Proof.
  intros Hgen E Hlen y Hy. apply list_elem_of_lookup in Hy. destruct Hy as [i Hi].
  destruct (fold_store_values P id (fun _ => gen main_thread) (seq 0 (length v))
              (fun _ => Hgen main_thread) _ _ _ _ _ _ E i y Hi) as [HP|[Hout _]];
    [exact HP|].
  destruct Hout. rewrite list_fmap_id. apply elem_of_seq.
  apply lookup_lt_Some in Hi. lia.
Qed.

Lemma to_size_t_small n : (0 <= n < 2 ^ 64)%Z -> Int.to_size_t n = n.
Proof. intros H. unfold Int.to_size_t. apply Z.mod_small. exact H. Qed.

(** Every run of [BM_Trigonometry] with at least one pass ends with
    [out[i] = sqrt(sin(vec[i]) * cos(vec[i]))] throughout. *)
Lemma BM_Trigonometry_run {L} (p : Policy) (range0 : Z) (k : nat) (l : L) w :
  (0 <= range0)%Z -> (range0 * 8 <= Z.of_N max_bytes)%Z ->
  (Z.of_N max_bytes < 2 ^ 64)%Z ->
  exists fr w',
    BM_Trigonometry p range0 (S k) l w = Ok (fr, l, w') /\
    length (vec fr) = Z.to_nat range0 /\ out fr = trig <$> vec fr.
Proof.
  intros H0 Hmax Haddr. unfold BM_Trigonometry.
  rewrite to_size_t_small by lia.
  rewrite (bind_ok _ _ _ _ _ _ _ (vector_n_ok 8 range0 0.5%float l w Hmax)).
  destruct (generate_total (GenRandomFloat 0 half_pi_f)
              (replicate (Z.to_nat range0) 0.5%float) l w)
    as (v & w1 & Eg & Hv); [intros t l0 w0; apply GenRandomFloat_total|].
  rewrite (bind_ok _ _ _ _ _ _ _ Eg). rewrite length_replicate in Hv.
  destruct (iterate_total (BM_Trigonometry_pass p)
              (fun fr => vec fr = v /\ length (out fr) = length v)
              (fun fr => out fr = trig <$> vec fr)) with (k := k)
              (fr := {| vec := v; out := v |}) (w := w1)
    as (fr & w2 & E & [Hvec _] & Hout).
  { intros fr w0 [Hvec Hlen]. unfold BM_Trigonometry_pass.
    unfold mbind at 1, Prog_bind at 1, get_frame.
    rewrite (bind_ok _ _ _ _ _ _ _
               (sqrt_sin_cos_spec p (vec fr) (out fr) fr w0 ltac:(congruence))).
    eexists _, _. split; [reflexivity|]. cbn [vec out].
    split; [|reflexivity]. split; [exact Hvec|]. rewrite length_fmap. congruence. }
  { split; reflexivity. }
  unfold scope. rewrite (bind_ok _ _ _ _ _ _ _ E).
  exists fr, w2. split; [reflexivity|]. split; [congruence|exact Hout].
Qed.

(** Every run of [BM_CountingIter] with at least one pass, on a size the
    registration gives, ends with the profits priced. *)
Lemma BM_CountingIter_run {L} (p : Policy) (range0 : Z) (k : nat) (l : L) w :
  (0 <= range0 <= 2 ^ 31)%Z -> (range0 * 8 <= Z.of_N max_bytes)%Z ->
  exists fr w',
    BM_CountingIter p range0 (S k) l w = Ok (fr, l, w') /\
    sized (Z.to_nat range0) fr /\ priced (Z.to_nat range0) fr.
Proof.
  intros HV Hmax. unfold BM_CountingIter. cbv zeta.
  assert (Hmax4 : (range0 * 4 <= Z.of_N max_bytes)%Z) by lia.
  rewrite to_size_t_small by lia.
  rewrite (bind_ok _ _ _ _ _ _ _ (vector_n_ok 8 range0 0%float l w Hmax)).
  rewrite (bind_ok _ _ _ _ _ _ _ (vector_n_ok 4 range0 0%Z l w Hmax4)).
  rewrite (bind_ok _ _ _ _ _ _ _ (vector_n_ok 8 range0 0%float l w Hmax)).
  rewrite (bind_ok _ _ _ _ _ _ _ (vector_n_ok 8 range0 0%float l w Hmax)).
  set (fr0 := {| prices := _; quantities := _; discounts := _; profit := _ |}).
  destruct (iterate_total (BM_CountingIter_pass p range0)
              (sized (Z.to_nat range0)) (priced (Z.to_nat range0)))
    with (k := k) (fr := fr0) (w := w) as (fr & w' & E & Hs & Hp).
  { intros fr w0 Hfr. apply BM_CountingIter_pass_spec; assumption. }
  { unfold sized, fr0. cbn [prices quantities discounts profit].
    rewrite !length_replicate. auto. }
  unfold scope. rewrite (bind_ok _ _ _ _ _ _ _ E).
  exists fr, w'. split; [reflexivity|]. split; assumption.
Qed.

Context {conforming : Conforming rt}.

Lemma random_point_number {L} t (l : L) w pt l' w' :
  random_point t l w = Ok (pt, l', w') -> F64.is_num (glm.x pt) = true.
Proof.
  unfold random_point. intros E.
  apply bind_inv in E. destruct E as (px & l1 & w1 & Ex & E).
  apply bind_inv in E. destruct E as (py & l2 & w2 & _ & E).
  apply bind_inv in E. destruct E as (pz & l3 & w3 & _ & E).
  injection E as <- _ _. cbn [glm.x].
  unfold GenRandomFloat, draw in Ex.
  pose proof (uniform_real_range (-1) 1 (rd_GenRandomFloat w t) eq_refl eq_refl)
    as [Hlo _].
  destruct (uniform_real_distribution (-1) 1 (rd_GenRandomFloat w t)) as [v g].
  injection Ex as <- _ _.
  exact (proj2 (F64Facts.leb_num _ _ Hlo)).
Qed.

Lemma random_point_total {L} t (l : L) w :
  exists pt w', random_point t l w = Ok (pt, l, w').
Proof.
  unfold random_point.
  destruct (GenRandomFloat_total (-1) 1 t l w) as (px & w1 & E1).
  rewrite (bind_ok _ _ _ _ _ _ _ E1).
  destruct (GenRandomFloat_total (-1) 1 t l w1) as (py & w2 & E2).
  rewrite (bind_ok _ _ _ _ _ _ _ E2).
  destruct (GenRandomFloat_total (-1) 1 t l w2) as (pz & w3 & E3).
  rewrite (bind_ok _ _ _ _ _ _ _ E3).
  eexists _, _. reflexivity.
Qed.

(** Every run of [BM_SortPoints] with at least one pass ends with as many
    points as asked for, in ascending order of [x]: what it draws are
    numbers. *)
Lemma BM_SortPoints_run {L} (p : Policy) (range0 : Z) (k : nat) (l : L) w :
  (0 <= range0)%Z -> (range0 * 16 <= Z.of_N max_bytes)%Z ->
  exists sorted w',
    BM_SortPoints p range0 (S k) l w = Ok (sorted, l, w') /\
    length sorted = Z.to_nat range0 /\ ascending_x sorted.
Proof.
  intros H0 Hmax. unfold BM_SortPoints.
  pose proof max_bytes_addressable as Haddr.
  rewrite to_size_t_small by lia.
  rewrite (bind_ok _ _ _ _ _ _ _ (vector_n_ok 16 range0 _ l w Hmax)).
  destruct (generate_total random_point
              (replicate (Z.to_nat range0)
                 {| glm.x := 0; glm.y := 1; glm.z := 0; glm.w := 1 |}) l w)
    as (pts & w1 & Eg & Hlen); [intros t l0 w0; apply random_point_total|].
  rewrite (bind_ok _ _ _ _ _ _ _ Eg).
  assert (Hnum : numbers_x pts).
  { intros pt Hpt.
    apply (generate_values (fun pt => F64.is_num (glm.x pt) = true) random_point
             _ _ _ _ _ _ (fun t l0 w0 y l' w' => random_point_number t l0 w0 y l' w')
             Eg Hlen pt Hpt). }
  rewrite length_replicate in Hlen.
  destruct (iterate_total (BM_SortPoints_pass p)
              (fun fr => numbers_x fr /\ length fr = Z.to_nat range0) ascending_x)
    with (k := k) (fr := pts) (w := w1) as (sorted & w2 & E & [_ Hn] & Ha).
  { intros fr w0 [Hfr Hl].
    destruct (BM_SortPoints_pass_spec p fr w0 Hfr) as (s & w' & E & Hperm & Hasc).
    exists s, w'. split; [exact E|]. split; [|exact Hasc]. split.
    - intros pt Hpt. apply Hfr. rewrite <- Hperm. exact Hpt.
    - rewrite <- Hl. apply Permutation_length. exact Hperm. }
  { split; [exact Hnum|exact Hlen]. }
  unfold scope. rewrite (bind_ok _ _ _ _ _ _ _ E).
  exists sorted, w2. split; [reflexivity|]. split; assumption.
Qed.

End Benchmarks.

(** ** Empty buffers *)

Section Empty.
Context {rt : Runtime}.

Lemma vector_n_zero {L A} bytes (value : A) (l : L) w :
  vector_n bytes 0 value l w = Ok ([], l, w).
Proof. unfold vector_n. destruct max_bytes; reflexivity. Qed.

Lemma iterate_fixed {L} (body : Prog L unit) (fr : L) :
  (forall w, exists w', body fr w = Ok (tt, fr, w')) ->
  forall k w, exists w', iterate k body fr w = Ok (tt, fr, w').
Proof.
  intros Hbody. induction k as [|k IH]; intros w.
  - exists w. reflexivity.
  - destruct (Hbody w) as [w1 E1]. destruct (IH w1) as [w2 E2].
    exists w2. cbn [iterate]. rewrite (bind_ok _ _ _ _ _ _ _ E1). exact E2.
Qed.

(** C9. With an empty buffer the benchmark bodies and the dot product run
    and leave empty outputs, the dot product its seed 0.0; [TestTrig] does
    not: its lambda returns [out[0]], which an empty [out] does not have. *)
Theorem TestTrig_empty_buffer_out_of_bounds {L} (l : L) (w : World) :
  TestTrig 0 l w = Fault OutOfBounds /\
  (forall p, TestTrig_run p no_trig w = Fault OutOfBounds) /\
  (forall p, exists w', BM_Trigonometry_pass p no_trig w = Ok (tt, no_trig, w')) /\
  (forall p k, exists w', BM_Trigonometry p 0 k l w = Ok (no_trig, l, w')) /\
  (forall p, exists w', TestDotProduct_run p no_dot w = Ok (0%float, no_dot, w')) /\
  (exists w', TestDotProduct 0 l w = Ok (tt, l, w')) /\
  (forall p k, exists w', BM_CountingIter p 0 k l w = Ok (no_prices, l, w')).
Proof.
  split; [|split; [intros p; destruct p; reflexivity|]].
  { unfold TestTrig. rewrite (bind_ok _ _ _ _ _ _ _ (vector_n_zero 8 _ l w)).
    reflexivity. }
  split; [intros p; eexists; destruct p; reflexivity|].
  split; [|split; [|split]].
  - intros p k. unfold BM_Trigonometry. change (Int.to_size_t 0) with 0%Z.
    rewrite (bind_ok _ _ _ _ _ _ _ (vector_n_zero 8 _ l w)).
    unfold generate. cbn [length seq fold_prog].
    unfold mbind at 1, Prog_bind at 1, mret at 1, Prog_ret at 1.
    unfold scope.
    destruct (iterate_fixed (BM_Trigonometry_pass p) no_trig) with (k := k) (w := w)
      as [w' E].
    { intros w0. eexists. destruct p; reflexivity. }
    fold no_trig. rewrite (bind_ok _ _ _ _ _ _ _ E). eexists. reflexivity.
  - intros p. eexists. reflexivity.
  - apply TestDotProduct_total. lia.
  - intros p k. unfold BM_CountingIter. change (Int.to_size_t 0) with 0%Z.
    rewrite (bind_ok _ _ _ _ _ _ _ (vector_n_zero 8 _ l w)).
    rewrite (bind_ok _ _ _ _ _ _ _ (vector_n_zero 4 _ l w)).
    rewrite (bind_ok _ _ _ _ _ _ _ (vector_n_zero 8 _ l w)).
    rewrite (bind_ok _ _ _ _ _ _ _ (vector_n_zero 8 _ l w)).
    unfold scope. fold no_prices.
    destruct (iterate_fixed (BM_CountingIter_pass p 0) no_prices) with (k := k) (w := w)
      as [w' E].
    { intros w0. eexists. destruct p; reflexivity. }
    rewrite (bind_ok _ _ _ _ _ _ _ E). eexists. reflexivity.
Qed.

End Empty.

(** ** The process entry *)

Section Entry.
Context {rt : Runtime}.

Lemma main_returns_zero argv w rc l' w' :
  main argv tt w = Ok (rc, l', w') -> rc = 0%Z.
Proof.
  unfold main. intros E.
  apply bind_inv in E. destruct E as (vecSize & l1 & w1 & _ & E).
  apply bind_inv in E. destruct E as (u2 & l2 & w2 & _ & E).
  apply bind_inv in E. destruct E as (step & l3 & w3 & _ & E).
  apply bind_inv in E. destruct E as (u4 & l4 & w4 & _ & E).
  apply bind_inv in E. destruct E as (u5 & l5 & w5 & _ & E).
  injection E as <- _ _. reflexivity.
Qed.

Lemma atoi_non_numeric c s :
  is_space c = false -> digit_of c = None ->
  c <> "-"%char -> c <> "+"%char ->
  atoi (String c s) = Ok 0%Z.
Proof.
  intros Hsp Hd Hm Hp. unfold atoi. cbn [skip_space]. rewrite Hsp.
  assert (E : match String c s with
              | String "-" s2 => (- digits 0 s2)%Z
              | String "+" s2 => digits 0 s2
              | _ => digits 0 (String c s)
              end = 0%Z).
  { destruct c as [[] [] [] [] [] [] [] []];
      try (exfalso; apply Hm; reflexivity);
      try (exfalso; apply Hp; reflexivity);
      try discriminate Hd;
      reflexivity. }
  cbv zeta. rewrite E. reflexivity.
Qed.

(** [main] is: read the arguments, print the size, run the tests the
    step selects, return 0. *)
Lemma main_dispatch argv vecSize step w :
  arguments argv = Ok (vecSize, step) ->
  main argv tt w =
    (print [Num vecSize; Chr newline];;
     (if (step =? 0)%Z || (step =? 2)%Z then TestTrig vecSize else mret tt);;
     (if (step =? 0)%Z || (step =? 3)%Z then TestDotProduct vecSize else mret tt);;
     mret 0%Z) tt w.
Proof.
  unfold arguments, main.
  destruct (1 <? length argv).
  - destruct (atoi (arg argv 1)) as [n|e]; [|discriminate].
    destruct (2 <? length argv).
    + destruct (atoi (arg argv 2)) as [s|e]; [|discriminate].
      intros [= <- <-]. reflexivity.
    + intros [= <- <-]. reflexivity.
  - destruct (2 <? length argv).
    + destruct (atoi (arg argv 2)) as [s|e]; [|discriminate].
      intros [= <- <-]. reflexivity.
    + intros [= <- <-]. reflexivity.
Qed.

Lemma main_total argv vecSize step w :
  arguments argv = Ok (vecSize, step) ->
  (step = 0%Z \/ step = 2%Z -> (0 < vecSize)%Z) ->
  (step = 0%Z \/ step = 2%Z \/ step = 3%Z ->
   (vecSize * 8 <= Z.of_N max_bytes)%Z) ->
  exists w', main argv tt w = Ok (0%Z, tt, w').
Proof.
  intros Harg Hsize Hmax. rewrite (main_dispatch _ _ _ _ Harg).
  unfold mbind at 1, Prog_bind at 1, print.
  set (w0 := set_cout _ w).
  assert (Htrig : exists w1,
            (if (step =? 0)%Z || (step =? 2)%Z then TestTrig vecSize else mret tt)
              tt w0 = Ok (tt, tt, w1)).
  { destruct ((step =? 0)%Z || (step =? 2)%Z) eqn:Es.
    - apply orb_true_iff in Es. rewrite !Z.eqb_eq in Es.
      apply TestTrig_total; [apply Hsize; exact Es|apply Hmax; tauto].
    - eexists. reflexivity. }
  destruct Htrig as [w1 E1]. rewrite (bind_ok _ _ _ _ _ _ _ E1).
  assert (Hdot : exists w2,
            (if (step =? 0)%Z || (step =? 3)%Z then TestDotProduct vecSize else mret tt)
              tt w1 = Ok (tt, tt, w2)).
  { destruct ((step =? 0)%Z || (step =? 3)%Z) eqn:Es.
    - apply orb_true_iff in Es. rewrite !Z.eqb_eq in Es.
      apply TestDotProduct_total. apply Hmax. tauto.
    - eexists. reflexivity. }
  destruct Hdot as [w2 E2]. rewrite (bind_ok _ _ _ _ _ _ _ E2).
  eexists. reflexivity.
Qed.

(** C6, amended. The manual-timing process exits with code 0 whenever
    its arguments fit an [int], the size is one the vectors of the selected
    tests can hold, and it is positive if the trigonometric test is
    selected; no run ends with another code.  Without arguments the size
    is 6,000,000 and the step 0; step 0 runs the trigonometric and then the
    dot-product test, step 2 the trigonometric test alone, step 3 the
    dot-product test alone; an argument that starts with no number is read
    as 0, with no diagnosis. *)
Theorem main_exit_code_and_dispatch :
  (forall argv vecSize step w,
     arguments argv = Ok (vecSize, step) ->
     (step = 0%Z \/ step = 2%Z -> (0 < vecSize)%Z) ->
     (step = 0%Z \/ step = 2%Z \/ step = 3%Z ->
      (vecSize * 8 <= Z.of_N max_bytes)%Z) ->
     exists w', main argv tt w = Ok (0%Z, tt, w')) /\
  (forall argv w rc l' w', main argv tt w = Ok (rc, l', w') -> rc = 0%Z) /\
  (forall prog, arguments [prog] = Ok (6000000%Z, 0%Z)) /\
  (forall argv vecSize w,
     (arguments argv = Ok (vecSize, 0%Z) ->
      main argv tt w =
        (print [Num vecSize; Chr newline];; TestTrig vecSize;;
         TestDotProduct vecSize;; mret 0%Z) tt w) /\
     (arguments argv = Ok (vecSize, 2%Z) ->
      main argv tt w =
        (print [Num vecSize; Chr newline];; TestTrig vecSize;; mret 0%Z) tt w) /\
     (arguments argv = Ok (vecSize, 3%Z) ->
      main argv tt w =
        (print [Num vecSize; Chr newline];; TestDotProduct vecSize;;
         mret 0%Z) tt w)) /\
  (forall c s,
     is_space c = false -> digit_of c = None ->
     c <> "-"%char -> c <> "+"%char ->
     atoi (String c s) = Ok 0%Z /\
     forall prog, arguments [prog; String c s] = Ok (0%Z, 0%Z)).
Proof.
  split; [exact main_total|]. split; [exact main_returns_zero|].
  split; [reflexivity|]. split.
  - intros argv vecSize w.
    split; [|split]; intros Harg; rewrite (main_dispatch _ _ _ _ Harg);
      cbn [Z.eqb orb Pos.eqb]; unfold mbind, Prog_bind, mret, Prog_ret, print.
    + destruct (TestTrig _ _ _) as [[[u l1] w1]|e]; [|reflexivity].
      destruct u. destruct (TestDotProduct _ _ _) as [[[u l2] w2]|e]; reflexivity.
    + destruct (TestTrig _ _ _) as [[[u l1] w1]|e]; [|reflexivity].
      destruct u. reflexivity.
    + destruct (TestDotProduct _ _ _) as [[[u l2] w2]|e]; reflexivity.
  - intros c s Hsp Hd Hm Hp.
    pose proof (atoi_non_numeric c s Hsp Hd Hm Hp) as E.
    split; [exact E|]. intros prog. unfold arguments, arg.
    cbn [length Nat.ltb Nat.leb nth]. rewrite E. reflexivity.
Qed.

End Entry.

(** ** The engines of the generators *)

Section Engines.
Context {rt : Runtime}.

Lemma draw_value {A} t (dist : Engine -> A * Engine) rd :
  (draw t dist rd).1 = (dist (rd t)).1.
Proof. unfold draw. destruct (dist (rd t)); reflexivity. Qed.

Lemma draw_other {A} t (dist : Engine -> A * Engine) rd t' :
  t' <> t -> (draw t dist rd).2 t' = rd t'.
Proof.
  intros Hne. unfold draw. destruct (dist (rd t)) as [v g]. cbn [snd].
  rewrite decide_False; [reflexivity|exact Hne].
Qed.

Lemma draw_same {A} t (dist : Engine -> A * Engine) rd :
  (draw t dist rd).2 t = (dist (rd t)).2.
Proof.
  unfold draw. destruct (dist (rd t)) as [v g]. cbn [snd].
  rewrite decide_True; reflexivity.
Qed.

Lemma GenRandomFloat_eq {L} lower upper t (l : L) w :
  GenRandomFloat lower upper t l w =
    Ok ((draw t (uniform_real_distribution lower upper) (rd_GenRandomFloat w)).1, l,
        set_rd_GenRandomFloat
          (draw t (uniform_real_distribution lower upper) (rd_GenRandomFloat w)).2 w).
Proof. unfold GenRandomFloat. destruct (draw _ _ _); reflexivity. Qed.

Lemma GenRandomInt_eq {L} lower upper t (l : L) w :
  GenRandomInt lower upper t l w =
    Ok ((draw t (uniform_int_distribution lower upper) (rd_GenRandomInt w)).1, l,
        set_rd_GenRandomInt
          (draw t (uniform_int_distribution lower upper) (rd_GenRandomInt w)).2 w).
Proof. unfold GenRandomInt. destruct (draw _ _ _); reflexivity. Qed.

Lemma random_number_generator_eq {L} t (l : L) w :
  random_number_generator t l w =
    Ok ((draw t (uniform_real_distribution 0 1) (rd_random_number_generator w)).1, l,
        set_rd_random_number_generator
          (draw t (uniform_real_distribution 0 1) (rd_random_number_generator w)).2 w).
Proof. unfold random_number_generator. destruct (draw _ _ _); reflexivity. Qed.

(** [random_number_generator] answers a value of [[0, 1]] and advances the
    engine it keeps for the calling thread: the engines of the other
    threads, those of the other generators, the clock, the scheduler and
    the output stay as they were. *)
Theorem random_number_generator_unit_interval {conforming : Conforming rt}
    {L} (t : nat) (l : L) (w : World) :
  exists v w',
    random_number_generator t l w = Ok (v, l, w') /\
    PrimFloat.leb 0 v = true /\ PrimFloat.leb v 1 = true /\
    (forall t', t' <> t ->
       rd_random_number_generator w' t' = rd_random_number_generator w t') /\
    rd_GenRandomFloat w' = rd_GenRandomFloat w /\
    rd_GenRandomInt w' = rd_GenRandomInt w /\
    clock_reads w' = clock_reads w /\
    sched_calls w' = sched_calls w /\
    cout w' = cout w.
Proof.
  eexists _, _. split; [apply random_number_generator_eq|].
  rewrite draw_value.
  destruct (uniform_real_range 0 1 (rd_random_number_generator w t)) as [H0 H1];
    [reflexivity|reflexivity|].
  split; [exact H0|]. split; [exact H1|].
  split; [|repeat split].
  intros t' Hne. cbn [rd_random_number_generator set_rd_random_number_generator].
  apply draw_other. exact Hne.
Qed.

(** The engines are thread-local: of two calls of [GenRandomFloat] on
    different threads each answers what it would have answered alone, in
    whichever order they run, and the engines end in the same states. *)
Theorem GenRandomFloat_threads_commute {L} (lower1 upper1 lower2 upper2 : float)
    (t1 t2 : nat) (l : L) (w : World) :
  t1 <> t2 ->
  exists a b w1 w2 w12 w21,
    GenRandomFloat lower1 upper1 t1 l w = Ok (a, l, w1) /\
    GenRandomFloat lower2 upper2 t2 l w = Ok (b, l, w2) /\
    GenRandomFloat lower2 upper2 t2 l w1 = Ok (b, l, w12) /\
    GenRandomFloat lower1 upper1 t1 l w2 = Ok (a, l, w21) /\
    forall t, rd_GenRandomFloat w12 t = rd_GenRandomFloat w21 t.
Proof.
  intros Hne. eexists _, _, _, _, _, _.
  split; [apply GenRandomFloat_eq|]. split; [apply GenRandomFloat_eq|].
  rewrite !GenRandomFloat_eq. cbn [rd_GenRandomFloat set_rd_GenRandomFloat].
  rewrite !draw_value.
  rewrite (draw_other t1 _ _ t2) by congruence.
  rewrite (draw_other t2 _ _ t1) by congruence.
  split; [reflexivity|]. split; [reflexivity|].
  intros t. cbn [rd_GenRandomFloat set_rd_GenRandomFloat].
  destruct (decide (t = t1)) as [->|H1]; [|destruct (decide (t = t2)) as [->|H2]].
  - rewrite (draw_other t2 _ _ t1), !draw_same, (draw_other t2 _ _ t1) by congruence.
    reflexivity.
  - rewrite (draw_other t1 _ _ t2), !draw_same, (draw_other t1 _ _ t2) by congruence.
    reflexivity.
  - rewrite !draw_other by congruence. reflexivity.
Qed.

(** Each generator function keeps an engine of its own: what
    [GenRandomFloat] answers is the same after a call of [GenRandomInt] as
    without it, and the other way round, also on one thread. *)
Theorem generators_keep_their_own_engines {L} (lower upper : float) (a b : Z)
    (t t' : nat) (l : L) (w : World) :
  exists v q wf wi wif wfi,
    GenRandomFloat lower upper t l w = Ok (v, l, wf) /\
    GenRandomInt a b t' l w = Ok (q, l, wi) /\
    GenRandomFloat lower upper t l wi = Ok (v, l, wif) /\
    GenRandomInt a b t' l wf = Ok (q, l, wfi) /\
    rd_GenRandomFloat wif = rd_GenRandomFloat wf /\
    rd_GenRandomInt wfi = rd_GenRandomInt wi.
Proof.
  eexists _, _, _, _, _, _.
  split; [apply GenRandomFloat_eq|]. split; [apply GenRandomInt_eq|].
  rewrite !GenRandomFloat_eq, !GenRandomInt_eq.
  repeat split.
Qed.

End Engines.

(** ** What the tests print *)

Section Reports.
Context {L R : Type} `{Streamable R}.

(** [RunAndMeasure] has no failure of its own: with [RUN_TIMES] above 0
    the set of times is not empty when [*times.begin()] and
    [*times.rbegin()] are read and [results[0]] exists, so a run fails
    exactly when one of the six invocations of [func] does, and as that
    one did. *)
Theorem RunAndMeasure_fails_only_with_func (title : string) (func : Prog L R)
    (l : L) (w : World) :
  (forall e, RunAndMeasure title func l w = Fault e <-> trial func l w = Fault e) /\
  (forall samples l' w0,
     trial func l w = Ok (samples, l', w0) ->
     exists w', RunAndMeasure title func l w = Ok (tt, l', w')).
Proof.
  pose proof (RunAndMeasure_trial func title l w) as T.
  destruct (trial func l w) as [[[samples l'] w0]|e0].
  - destruct T as (tmin & tmax & r & _ & _ & _ & _ & E). split.
    + intros e. rewrite E. split; discriminate.
    + intros ? ? ? [= <- <- <-]. eexists. exact E.
  - split.
    + intros e. rewrite T. split; intros [= ->]; reflexivity.
    + discriminate.
Qed.

(** A computation that writes nothing and whose results all satisfy [P],
    on frames that satisfy [I]. *)
Variable I : L -> Prop.
Variable P : R -> Prop.
Variable func : Prog L R.
Hypothesis func_quiet : forall l w, I l ->
  exists r l' w', func l w = Ok (r, l', w') /\ I l' /\ P r /\ cout w' = cout w.

Lemma timed_runs_quiet n : forall l w, I l ->
  exists ss l' w',
    timed_runs func n l w = Ok (ss, l', w') /\ I l' /\
    (forall r, r ∈ ss.*2 -> P r) /\ cout w' = cout w.
Proof.
  induction n as [|n IH]; intros l w Hl.
  - exists [], l, w. split; [reflexivity|]. split; [exact Hl|].
    split; [|reflexivity]. intros r Hr. apply elem_of_nil in Hr. destruct Hr.
  - cbn [timed_runs]. unfold timed.
    unfold mbind, Prog_bind, now, mret, Prog_ret.
    destruct (func_quiet l (set_clock_reads (S (clock_reads w)) w) Hl)
      as (r & l1 & w1 & E & Hl1 & Hr & Hc1).
    rewrite E.
    destruct (IH l1 (set_clock_reads (S (clock_reads w1)) w1) Hl1)
      as (ss & l' & w' & E' & Hl' & Hss & Hc').
    rewrite E'. eexists _, _, _. split; [reflexivity|]. split; [exact Hl'|].
    split.
    + intros r' Hr'. cbn in Hr'. apply elem_of_cons in Hr' as [->|Hr'];
        [exact Hr|exact (Hss _ Hr')].
    + rewrite Hc'. cbn [cout set_clock_reads]. rewrite Hc1. reflexivity.
Qed.

Lemma RunAndMeasure_prints (title : string) l w :
  I l ->
  exists l' w' tmin tmax r,
    RunAndMeasure title func l w = Ok (tt, l', w') /\ I l' /\ P r /\
    cout w' = cout w ++ report title tmin tmax r.
Proof.
  intros Hl. pose proof (RunAndMeasure_trial func title l w) as T.
  destruct (func_quiet l w Hl) as (r0 & l1 & w1 & E & Hl1 & _ & Hc1).
  destruct (timed_runs_quiet RUN_TIMES l1 w1 Hl1) as (ss & l' & w' & E' & Hl' & Hss & Hc').
  unfold trial in T. rewrite (bind_ok _ _ _ _ _ _ _ E), E' in T.
  destruct T as (tmin & tmax & r & _ & _ & _ & Hr & ->).
  eexists _, _, tmin, tmax, r. split; [reflexivity|]. split; [exact Hl'|].
  split.
  - apply Hss. apply list_elem_of_lookup. exists 0. exact Hr.
  - cbn [cout set_cout]. rewrite Hc', Hc1. reflexivity.
Qed.

End Reports.

Section Printed.
Context {rt : Runtime}.

Lemma TestTrig_run_spec p fr w :
  length (out fr) = length (vec fr) ->
  TestTrig_run p fr w =
    match vec fr with
    | v0 :: _ =>
        Ok (trig v0, {| vec := vec fr; out := trig <$> vec fr |},
            set_sched_calls (S (sched_calls w)) w)
    | [] => Fault OutOfBounds
    end.
Proof.
  intros Hlen. unfold TestTrig_run.
  unfold mbind at 1, Prog_bind at 1, get_frame.
  rewrite (bind_ok _ _ _ _ _ _ _ (sqrt_sin_cos_spec p _ _ fr w Hlen)).
  unfold mbind, Prog_bind, put_frame, lift_res, vec_at.
  destruct (vec fr) as [|v0 vs]; reflexivity.
Qed.

(** The lambda of the trigonometric test answers the same value under every
    policy and schedule, and once it has run a further invocation finds
    [out] at its final contents and leaves it there: the six invocations
    of a trial, and the four trials, do the same work. *)
Theorem TestTrig_run_idempotent (fr : TrigFrame) :
  length (out fr) = length (vec fr) -> 0 < length (vec fr) ->
  exists r fr1,
    vec fr1 = vec fr /\ out fr1 = trig <$> vec fr /\
    (forall p w, exists w', TestTrig_run p fr w = Ok (r, fr1, w')) /\
    (forall q w, exists w', TestTrig_run q fr1 w = Ok (r, fr1, w')).
Proof.
  intros Hlen Hpos.
  destruct (vec fr) as [|v0 vs] eqn:Ev; [cbn in Hpos; lia|].
  rewrite <- Ev in Hlen.
  exists (trig v0), {| vec := v0 :: vs; out := trig <$> v0 :: vs |}.
  split; [reflexivity|]. split; [reflexivity|].
  split.
  - intros p w. rewrite (TestTrig_run_spec p fr w Hlen), Ev. eexists. reflexivity.
  - intros q w. rewrite TestTrig_run_spec by (cbn [vec out]; apply length_fmap).
    cbn [vec out]. eexists. reflexivity.
Qed.

(** A storing loop leaves alone whatever of the world its generator does. *)
Lemma fold_store_keeps {L A X T} (obs : World -> T) (idx : X -> nat)
    (gen : X -> Prog L A) xs :
  (forall x l w y l' w', gen x l w = Ok (y, l', w') -> obs w' = obs w) ->
  forall d l w d' l' w',
    fold_prog (fun x d => y ← gen x; lift_res (vec_store d (idx x) y)) xs d l w =
      Ok (d', l', w') ->
    obs w' = obs w.
Proof.
  intros Hgen. induction xs as [|x xs IH]; intros d l w d' l' w' E.
  - cbn in E. injection E as _ _ <-. reflexivity.
  - cbn [fold_prog] in E. apply bind_inv in E.
    destruct E as (d1 & l1 & w1 & E1 & E).
    apply bind_inv in E1. destruct E1 as (y0 & l0 & w0 & Eg & Es).
    unfold lift_res in Es. destruct (vec_store d (idx x) y0); [|discriminate].
    injection Es as _ _ <-.
    rewrite (IH _ _ _ _ _ _ E). eapply Hgen. exact Eg.
Qed.

Lemma generate_keeps {L A T} (obs : World -> T) (gen : nat -> Prog L A) v l w v' l' w' :
  (forall t l w y l' w', gen t l w = Ok (y, l', w') -> obs w' = obs w) ->
  generate v gen l w = Ok (v', l', w') -> obs w' = obs w.
Proof.
  intros Hgen E.
  exact (fold_store_keeps obs id (fun _ => gen main_thread) _
           (fun _ => Hgen main_thread) _ _ _ _ _ _ E).
Qed.

Lemma generate_policy_keeps {L A T} (obs : World -> T) p (gen : nat -> Prog L A)
    v l w v' l' w' :
  (forall t l w y l' w', gen t l w = Ok (y, l', w') -> obs w' = obs w) ->
  (forall n w, obs (set_sched_calls n w) = obs w) ->
  generate_policy p v gen l w = Ok (v', l', w') -> obs w' = obs w.
Proof.
  intros Hgen Hsched E. unfold generate_policy, next_schedule, next_decisions in E.
  unfold mbind at 1 2, Prog_bind at 1 2, mret at 1, Prog_ret at 1 in E.
  cbn [fst snd] in E.
  rewrite (fold_store_keeps obs index (fun sl => gen (thread sl)) _
             (fun sl => Hgen (thread sl)) _ _ _ _ _ _ E).
  apply Hsched.
Qed.

Lemma GenRandomFloat_cout {L} lower upper t (l : L) w y l' w' :
  GenRandomFloat lower upper t l w = Ok (y, l', w') -> cout w' = cout w.
Proof. rewrite GenRandomFloat_eq. intros [= _ _ <-]. reflexivity. Qed.

Lemma random_number_generator_cout {L} t (l : L) w y l' w' :
  random_number_generator t l w = Ok (y, l', w') -> cout w' = cout w.
Proof. rewrite random_number_generator_eq. intros [= _ _ <-]. reflexivity. Qed.

Lemma TestDotProduct_run_spec p fr w :
  dot_ready fr ->
  exists r,
    TestDotProduct_run p fr w = Ok (r, fr, set_sched_calls (S (sched_calls w)) w) /\
    (v1 fr = [] -> r = 0%float).
Proof.
  intros Hfr.
  change (TestDotProduct_run p fr w) with
    (transform_reduce p (v1 fr) (v2 fr) 0 PrimFloat.add PrimFloat.mul fr w).
  unfold transform_reduce.
  destruct (products_total (v1 fr) (v2 fr) PrimFloat.mul) with
    (n := length (v1 fr)) (i := 0) (acc := @nil float)
    as [prods E]; [unfold dot_ready in Hfr; lia|lia|].
  erewrite bind_ok by reflexivity. rewrite E.
  eexists. split; [reflexivity|].
  intros Hnil. rewrite Hnil in E. cbn in E. injection E as <-. reflexivity.
Qed.

Lemma fold_res_ext {S X} (f g : X -> S -> res S) xs :
  (forall x s, f x s = g x s) -> forall s, fold_res f xs s = fold_res g xs s.
Proof.
  intros Hfg. induction xs as [|x xs IH]; intros s; [reflexivity|].
  cbn [fold_res]. rewrite Hfg. unfold mbind, res_bind.
  destruct (g x s); [apply IH|reflexivity].
Qed.

Lemma products_symmetric (a b : list float) xs acc :
  fold_res (fun i acc => x ← vec_at a i; y ← vec_at b i; Ok (acc ++ [PrimFloat.mul x y]))
    xs acc =
  fold_res (fun i acc => x ← vec_at b i; y ← vec_at a i; Ok (acc ++ [PrimFloat.mul x y]))
    xs acc.
Proof.
  apply fold_res_ext. intros i s. unfold vec_at, mbind, res_bind.
  destruct (a !! i) as [x|], (b !! i) as [y|]; try reflexivity.
  rewrite (RoundingFacts.mul_comm y x). reflexivity.
Qed.

(** The dot product is symmetric: with the vectors exchanged the lambda
    returns the same value, bit for bit, for every order and grouping the
    reduction may take. *)
Theorem dot_product_symmetric (p : Policy) (fr : DotFrame) (w : World) :
  length (v1 fr) = length (v2 fr) ->
  exists r w',
    TestDotProduct_run p fr w = Ok (r, fr, w') /\
    TestDotProduct_run p {| v1 := v2 fr; v2 := v1 fr |} w =
      Ok (r, {| v1 := v2 fr; v2 := v1 fr |}, w').
Proof.
  intros Hlen.
  destruct (TestDotProduct_run_spec p fr w Hlen) as (r & E & _).
  exists r, (set_sched_calls (S (sched_calls w)) w). split; [exact E|].
  revert E.
  change (TestDotProduct_run p fr w) with
    (transform_reduce p (v1 fr) (v2 fr) 0 PrimFloat.add PrimFloat.mul fr w).
  change (TestDotProduct_run p {| v1 := v2 fr; v2 := v1 fr |} w) with
    (transform_reduce p (v2 fr) (v1 fr) 0 PrimFloat.add PrimFloat.mul
       {| v1 := v2 fr; v2 := v1 fr |} w).
  unfold transform_reduce. rewrite <- Hlen.
  erewrite !bind_ok by reflexivity.
  rewrite (products_symmetric (v2 fr) (v1 fr)).
  destruct (fold_res _ _ _) as [prods|e]; [|discriminate].
  intros [= <-]. reflexivity.
Qed.

Context {conforming : Conforming rt}.

Lemma GenRandomFloat_between {L} lower upper t (l : L) w y l' w' :
  PrimFloat.leb lower upper = true ->
  PrimFloat.leb (PrimFloat.sub upper lower) F32.max = true ->
  GenRandomFloat lower upper t l w = Ok (y, l', w') -> between lower upper y.
Proof.
  intros Hle Hmax. rewrite GenRandomFloat_eq, draw_value. intros [= <- _ _].
  apply uniform_real_range; assumption.
Qed.

(** [TestTrig] on a size from 1 up to what a vector holds writes its
    heading and four lines, one per policy and in the order of the source;
    all four show the same result, [sqrt(sin(v) * cos(v))] of the first
    input [v], a value drawn from [[0, pi/2]]. *)
Theorem TestTrig_prints_one_result {L} (vecSize : Z) (l : L) (w : World) :
  (0 < vecSize)%Z -> (vecSize * 8 <= Z.of_N max_bytes)%Z ->
  exists v0 w' a1 b1 a2 b2 a3 b3 a4 b4,
    TestTrig vecSize l w = Ok (tt, l, w') /\
    between 0 half_pi_f v0 /\
    cout w' =
      cout w ++ [Str (line "sqrt(sin*cos):")] ++
      report "pstl::execution::seq" a1 b1 (trig v0) ++
      report "pstl::execution::par" a2 b2 (trig v0) ++
      report "std::transform seq" a3 b3 (trig v0) ++
      report "std::transform par" a4 b4 (trig v0).
Proof.
  intros Hpos Hmax. unfold TestTrig.
  rewrite (bind_ok _ _ _ _ _ _ _ (vector_n_ok 8 vecSize 0.5%float l w Hmax)).
  destruct (generate_total (GenRandomFloat 0 half_pi_f)
              (replicate (Z.to_nat vecSize) 0.5%float) l w)
    as (v & w1 & Eg & Hv); [intros t l0 w0; apply GenRandomFloat_total|].
  rewrite (bind_ok _ _ _ _ _ _ _ Eg).
  pose proof (generate_keeps cout _ _ _ _ _ _ _
                (fun t => GenRandomFloat_cout 0 half_pi_f t) Eg) as Hc1.
  pose proof (generate_values (between 0 half_pi_f) _ _ _ _ _ _ _
                (fun t l0 w0 y l' w' =>
                   GenRandomFloat_between 0 half_pi_f t l0 w0 y l' w' eq_refl eq_refl)
                Eg Hv) as Hin.
  rewrite length_replicate in Hv.
  destruct v as [|v0 vs]; [cbn in Hv; lia|].
  set (I := fun fr : TrigFrame =>
              vec fr = v0 :: vs /\ length (out fr) = length (v0 :: vs)).
  assert (Hquiet : forall p fr w0, I fr ->
            exists r fr' w0', TestTrig_run p fr w0 = Ok (r, fr', w0') /\ I fr' /\
              r = trig v0 /\ cout w0' = cout w0).
  { intros p fr w0 [Hvec Hlen].
    rewrite TestTrig_run_spec by congruence. rewrite Hvec.
    eexists _, _, _. split; [reflexivity|]. split; [|split; reflexivity].
    split; [reflexivity|]. cbn [out]. apply length_fmap. }
  assert (H0 : I {| vec := v0 :: vs; out := v0 :: vs |}) by (split; reflexivity).
  unfold scope.
  unfold mbind at 1, Prog_bind at 1, print at 1.
  destruct (RunAndMeasure_prints I (fun r => r = trig v0) _ (Hquiet pstl_seq)
              "pstl::execution::seq" _ (set_cout (cout w1 ++ [Str (line "sqrt(sin*cos):")]) w1) H0)
    as (fr1 & x1 & a1 & b1 & r1 & E1 & H1 & -> & C1).
  rewrite (bind_ok _ _ _ _ _ _ _ E1).
  destruct (RunAndMeasure_prints I (fun r => r = trig v0) _ (Hquiet pstl_par)
              "pstl::execution::par" _ x1 H1)
    as (fr2 & x2 & a2 & b2 & r2 & E2 & H2 & -> & C2).
  rewrite (bind_ok _ _ _ _ _ _ _ E2).
  destruct (RunAndMeasure_prints I (fun r => r = trig v0) _ (Hquiet std_seq)
              "std::transform seq" _ x2 H2)
    as (fr3 & x3 & a3 & b3 & r3 & E3 & H3 & -> & C3).
  rewrite (bind_ok _ _ _ _ _ _ _ E3).
  destruct (RunAndMeasure_prints I (fun r => r = trig v0) _ (Hquiet std_par)
              "std::transform par" _ x3 H3)
    as (fr4 & x4 & a4 & b4 & r4 & E4 & H4 & -> & C4).
  rewrite E4.
  exists v0, x4, a1, b1, a2, b2, a3, b3, a4, b4.
  split; [reflexivity|]. split; [apply Hin; left|].
  rewrite C4, C3, C2, C1. cbn [cout set_cout]. rewrite Hc1.
  rewrite <- !app_assoc. reflexivity.
Qed.

(** [TestDotProduct] on a size up to what a vector holds, 0 included,
    writes its heading and four lines, one per policy and in the order of
    the source; on size 0 every result is the seed 0.0. *)
Theorem TestDotProduct_prints_four_lines {L} (vecSize : Z) (l : L) (w : World) :
  (vecSize * 8 <= Z.of_N max_bytes)%Z ->
  exists w' a1 b1 r1 a2 b2 r2 a3 b3 r3 a4 b4 r4,
    TestDotProduct vecSize l w = Ok (tt, l, w') /\
    cout w' =
      cout w ++ [Str (line "dot product:")] ++
      report "pstl::execution::seq" a1 b1 r1 ++
      report "pstl::execution::par" a2 b2 r2 ++
      report "std::execution::seq" a3 b3 r3 ++
      report "std::execution::par" a4 b4 r4 /\
    (Z.to_nat vecSize = 0 ->
     r1 = 0%float /\ r2 = 0%float /\ r3 = 0%float /\ r4 = 0%float).
Proof.
  intros Hmax. unfold TestDotProduct.
  unfold mbind at 1, Prog_bind at 1, print at 1.
  set (w0 := set_cout _ w).
  rewrite (bind_ok _ _ _ _ _ _ _ (vector_n_ok 8 vecSize 0%float l w0 Hmax)).
  rewrite (bind_ok _ _ _ _ _ _ _ (vector_n_ok 8 vecSize 0%float l w0 Hmax)).
  destruct (generate_policy_total pstl_par random_number_generator
              (replicate (Z.to_nat vecSize) 0%float) l w0)
    as (x1 & w1 & Eg1 & Hx1); [intros t l0 wx; apply random_number_generator_total|].
  rewrite (bind_ok _ _ _ _ _ _ _ Eg1).
  destruct (generate_policy_total pstl_par random_number_generator
              (replicate (Z.to_nat vecSize) 0%float) l w1)
    as (x2 & w2 & Eg2 & Hx2); [intros t l0 wx; apply random_number_generator_total|].
  rewrite (bind_ok _ _ _ _ _ _ _ Eg2).
  pose proof (generate_policy_keeps cout _ _ _ _ _ _ _ _
                (fun t => random_number_generator_cout t) (fun _ _ => eq_refl) Eg1) as Hc1.
  pose proof (generate_policy_keeps cout _ _ _ _ _ _ _ _
                (fun t => random_number_generator_cout t) (fun _ _ => eq_refl) Eg2) as Hc2.
  rewrite length_replicate in Hx1, Hx2.
  set (fr0 := {| v1 := x1; v2 := x2 |}).
  set (I := fun fr : DotFrame => fr = fr0).
  set (P := fun r : float => Z.to_nat vecSize = 0 -> r = 0%float).
  assert (Hquiet : forall p fr wx, I fr ->
            exists r fr' wx', TestDotProduct_run p fr wx = Ok (r, fr', wx') /\ I fr' /\
              P r /\ cout wx' = cout wx).
  { intros p fr wx ->.
    destruct (TestDotProduct_run_spec p fr0 wx) as (r & E & Hr).
    { unfold dot_ready, fr0. cbn [v1 v2]. congruence. }
    exists r, fr0, (set_sched_calls (S (sched_calls wx)) wx).
    split; [exact E|]. split; [reflexivity|]. split; [|reflexivity].
    intros Hz. apply Hr. unfold fr0. cbn [v1].
    apply length_zero_iff_nil. congruence. }
  unfold scope.
  destruct (RunAndMeasure_prints I P _ (Hquiet pstl_seq)
              "pstl::execution::seq" fr0 w2 eq_refl)
    as (fr1 & y1 & a1 & b1 & r1 & E1 & H1 & P1 & C1).
  rewrite (bind_ok _ _ _ _ _ _ _ E1).
  destruct (RunAndMeasure_prints I P _ (Hquiet pstl_par)
              "pstl::execution::par" _ y1 H1)
    as (fr2 & y2 & a2 & b2 & r2 & E2 & H2 & P2 & C2).
  rewrite (bind_ok _ _ _ _ _ _ _ E2).
  destruct (RunAndMeasure_prints I P _ (Hquiet std_seq)
              "std::execution::seq" _ y2 H2)
    as (fr3 & y3 & a3 & b3 & r3 & E3 & H3 & P3 & C3).
  rewrite (bind_ok _ _ _ _ _ _ _ E3).
  destruct (RunAndMeasure_prints I P _ (Hquiet std_par)
              "std::execution::par" _ y3 H3)
    as (fr4 & y4 & a4 & b4 & r4 & E4 & H4 & P4 & C4).
  rewrite E4.
  exists y4, a1, b1, r1, a2, b2, r2, a3, b3, r3, a4, b4, r4.
  split; [reflexivity|]. split.
  - rewrite C4, C3, C2, C1, Hc2, Hc1. unfold w0. cbn [cout set_cout].
    rewrite <- !app_assoc. reflexivity.
  - intros Hz. auto.
Qed.

End Printed.

(** ** What is timed *)

Lemma milliseconds_sign start end_ :
  F64.sign (Prim2SF (milliseconds start end_)) = Some (end_ - start <? 0)%Z.
Proof.
  unfold milliseconds. rewrite FloatAxioms.div_spec. unfold SF64div.
  replace (Prim2SF 1e6) with (S754_finite false 8589934592000000 (-33))
    by (vm_compute; reflexivity).
  rewrite (RoundingFacts.SFdiv_sign _ _ _ (end_ - start <? 0)%Z)
    by apply RoundingFacts.to_double_sign.
  rewrite xorb_false_r. reflexivity.
Qed.

Lemma elapsed_steady w k :
  (clock w k <= clock w (S k))%Z -> PrimFloat.leb 0 (elapsed w k) = true.
Proof.
  intros H. apply RoundingFacts.sign_nonneg. unfold elapsed.
  rewrite milliseconds_sign. f_equal. apply Z.ltb_ge. lia.
Qed.

Section Times.
Context {L R : Type} `{Streamable R}.
Variable func : Prog L R.

Lemma timed_runs_times n : forall l w ss l' w',
  timed_runs func n l w = Ok (ss, l', w') ->
  forall t, t ∈ ss.*1 -> exists start end_, t = milliseconds start end_.
Proof.
  induction n as [|n IH]; intros l w ss l' w' E t Ht.
  - cbn in E. injection E as <- _ _. apply elem_of_nil in Ht. destruct Ht.
  - cbn [timed_runs] in E. unfold timed in E.
    apply bind_inv in E. destruct E as ([t0 r] & l1 & w1 & E1 & E).
    apply bind_inv in E. destruct E as (ss' & l2 & w2 & E2 & E).
    injection E as <- _ _.
    unfold mbind, Prog_bind, now, mret, Prog_ret in E1.
    destruct (func l _) as [[[r0 l0] w0]|e]; [|discriminate].
    injection E1 as <- _ _ _.
    cbn in Ht. apply elem_of_cons in Ht. destruct Ht as [->|Ht].
    + eexists _, _. reflexivity.
    + exact (IH _ _ _ _ _ E2 t Ht).
Qed.

(** The two times [RunAndMeasure] prints are numbers, never a NaN, and the
    first is at most the second, whatever the computation does and
    whatever the clock reads. *)
Theorem RunAndMeasure_prints_ordered_numbers (title : string) l w l' w' :
  RunAndMeasure title func l w = Ok (tt, l', w') ->
  exists w0 tmin tmax r,
    w' = set_cout (cout w0 ++ report title tmin tmax r) w0 /\
    F64.is_num tmin = true /\ F64.is_num tmax = true /\
    PrimFloat.leb tmin tmax = true.
Proof.
  intros E. pose proof (RunAndMeasure_trial func title l w) as T.
  destruct (trial func l w) as [[[samples l0] w0]|e] eqn:Et; [|congruence].
  destruct T as (tmin & tmax & r & _ & Hmin & Hmax & _ & E').
  rewrite E in E'. injection E' as -> ->.
  unfold trial in Et. apply bind_inv in Et.
  destruct Et as (r1 & l1 & w1 & _ & Et).
  assert (Hnum : forall d, d ∈ samples.*1 -> F64.is_num d = true).
  { intros d Hd. destruct (timed_runs_times _ _ _ _ _ _ Et d Hd) as (a & b & ->).
    exact (RoundingFacts.sign_num _ _ (milliseconds_sign a b)). }
  destruct (DoubleSetFacts.insert_all_min_max _ _ _ Hnum Hmin Hmax)
    as [[Hin Hle] [Hin' _]].
  exists w0, tmin, tmax, r. split; [reflexivity|].
  split; [exact (Hnum _ Hin)|]. split; [exact (Hnum _ Hin')|exact (Hle _ Hin')].
Qed.

End Times.

Section Timing.
Context {L R : Type} `{Streamable R}.
Variable func : Prog L R.
Hypothesis func_neutral : forall l w r l1 w1,
  func l w = Ok (r, l1, w1) ->
  clock w1 = clock w /\ clock_reads w1 = clock_reads w /\ cout w1 = cout w.

Lemma timed_runs_clock n : forall l w ss l' w',
  timed_runs func n l w = Ok (ss, l', w') ->
  clock w' = clock w /\ clock_reads w' = clock_reads w + 2 * n /\
  cout w' = cout w /\
  ss.*1 = (fun k => elapsed w (clock_reads w + 2 * k)) <$> seq 0 n.
Proof.
  induction n as [|n IH]; intros l w ss l' w' E.
  - cbn in E. injection E as <- _ <-. repeat split. lia.
  - cbn [timed_runs] in E. unfold timed in E.
    apply bind_inv in E. destruct E as ([t r] & l1 & w1 & E1 & E).
    apply bind_inv in E. destruct E as (ss' & l2 & w2 & E2 & E).
    injection E as <- _ <-.
    unfold mbind, Prog_bind, now, mret, Prog_ret in E1.
    destruct (func l _) as [[[r0 l0] w0]|e] eqn:Ef; [|discriminate].
    injection E1 as <- _ <- <-.
    apply func_neutral in Ef. cbn [clock clock_reads cout set_clock_reads] in Ef.
    destruct Ef as (Hc & Hr & Ho).
    apply IH in E2. cbn [clock clock_reads cout set_clock_reads] in E2.
    destruct E2 as (Hc2 & Hr2 & Ho2 & Hss).
    split; [congruence|]. split; [lia|]. split; [congruence|].
    cbn [fmap list_fmap fst seq]. f_equal.
    + unfold elapsed. rewrite Hc, Hr, Nat.mul_0_r, Nat.add_0_r. reflexivity.
    + change (list_fmap _ _ fst ss') with (ss'.*1). rewrite Hss.
      rewrite <- fmap_S_seq, <- list_fmap_compose.
      apply list_fmap_ext. intros _ k _. cbn.
      unfold elapsed. rewrite Hc, Hr. repeat f_equal; lia.
Qed.

(** [RunAndMeasure] reads the clock ten times, just before and just after
    each of the five timed invocations: for a computation that itself
    leaves the clock and the output alone, the two times printed are
    differences of the readings number [2i] and [2i + 1] after the first
    invocation; that invocation and the bookkeeping between two
    invocations are in no time printed.  With a clock that never goes
    back, as [steady_clock] is, no time printed is negative. *)
Theorem RunAndMeasure_times_each_invocation (title : string) l w l' w' :
  RunAndMeasure title func l w = Ok (tt, l', w') ->
  clock_reads w' = clock_reads w + 2 * RUN_TIMES /\
  exists i j r,
    i < RUN_TIMES /\ j < RUN_TIMES /\
    cout w' =
      cout w ++ report title (elapsed w (clock_reads w + 2 * i))
                  (elapsed w (clock_reads w + 2 * j)) r /\
    ((forall k, (clock w k <= clock w (S k))%Z) ->
     PrimFloat.leb 0 (elapsed w (clock_reads w + 2 * i)) = true /\
     PrimFloat.leb 0 (elapsed w (clock_reads w + 2 * j)) = true).
Proof.
  intros E. pose proof (RunAndMeasure_trial func title l w) as T.
  destruct (trial func l w) as [[[samples l0] w0]|e] eqn:Et; [|congruence].
  destruct T as (tmin & tmax & r & _ & Hmin & Hmax & _ & E').
  rewrite E in E'. injection E' as -> ->.
  unfold trial in Et. apply bind_inv in Et.
  destruct Et as (r1 & l1 & w1 & E1 & Et).
  apply func_neutral in E1. destruct E1 as (Hc & Hr & Ho).
  apply timed_runs_clock in Et. destruct Et as (Hc0 & Hr0 & Ho0 & Hss).
  assert (Hsample : forall t, t ∈ DoubleSet.insert_all [] samples.*1 ->
            exists k, k < RUN_TIMES /\ t = elapsed w (clock_reads w + 2 * k)).
  { intros t Ht. destruct (DoubleSetFacts.insert_all_elem _ _ _ Ht) as [F|F];
      [apply elem_of_nil in F; destruct F|].
    rewrite Hss in F. apply list_elem_of_fmap in F. destruct F as (k & -> & Hk).
    apply elem_of_seq in Hk. exists k. split; [lia|].
    unfold elapsed. rewrite Hc, Hr. reflexivity. }
  destruct (Hsample _ (DoubleSetFacts.front_elem _ _ Hmin)) as (i & Hi & ->).
  destruct (Hsample _ (DoubleSetFacts.back_elem _ _ Hmax)) as (j & Hj & ->).
  cbn [clock_reads cout set_cout]. split; [lia|].
  exists i, j, r. split; [exact Hi|]. split; [exact Hj|].
  split; [rewrite Ho0, Ho; reflexivity|].
  intros Hsteady. split; apply elapsed_steady, Hsteady.
Qed.

End Timing.

(** ** More of the process entry *)

Section Arguments.
Context {rt : Runtime}.

(** [main] looks at [argv[1]] and [argv[2]] alone: two command lines that
    agree on these do the same, whatever the name of the program and
    whatever follows the second argument. *)
Theorem main_ignores_further_arguments (argv argv' : list string) :
  2 < length argv -> 2 < length argv' ->
  arg argv 1 = arg argv' 1 -> arg argv 2 = arg argv' 2 ->
  main argv = main argv'.
Proof.
  intros H H' E1 E2. unfold main.
  assert (H1 : (1 <? length argv) = true) by (apply Nat.ltb_lt; lia).
  assert (H1' : (1 <? length argv') = true) by (apply Nat.ltb_lt; lia).
  apply Nat.ltb_lt in H, H'.
  rewrite H1, H1', H, H', E1, E2. reflexivity.
Qed.

(** With a step other than 0, 2 and 3 [main] runs no test: it writes the
    size and returns 0, whatever the size, and draws no number, reads no
    clock and takes no scheduling decision. *)
Theorem main_other_step_runs_nothing argv vecSize step w :
  arguments argv = Ok (vecSize, step) ->
  step <> 0%Z -> step <> 2%Z -> step <> 3%Z ->
  main argv tt w =
    Ok (0%Z, tt, set_cout (cout w ++ [Num vecSize; Chr newline]) w).
Proof.
  intros Harg H0 H2 H3. rewrite (main_dispatch _ _ _ _ Harg).
  apply Z.eqb_neq in H0, H2, H3. rewrite H0, H2, H3. reflexivity.
Qed.

Lemma atoi_int s n : atoi s = Ok n -> (Int.INT_MIN <= n <= Int.INT_MAX)%Z.
Proof.
  unfold atoi.
  set (v := match skip_space s with
            | String "-" s2 => (- digits 0 s2)%Z
            | String "+" s2 => digits 0 s2
            | _ => digits 0 (skip_space s)
            end).
  destruct ((Int.INT_MIN <=? v)%Z && (v <=? Int.INT_MAX)%Z) eqn:Hv; [|discriminate].
  intros [= <-]. apply andb_true_iff in Hv. lia.
Qed.

Lemma vector_n_too_long {L A} bytes n (value : A) (l : L) w :
  (Z.of_N max_bytes < n * bytes)%Z ->
  vector_n bytes n value l w = Fault LengthError.
Proof.
  intros H. unfold vector_n.
  destruct (Z.ltb_spec (Z.of_N max_bytes) (n * bytes)); [reflexivity|lia].
Qed.

(** A negative first argument is converted to a [size_t] near [2^64]; no
    vector can be that long, so a run that selects a test ends in the
    [std::length_error] of the first vector it constructs. *)
Theorem main_negative_size_length_error {conforming : Conforming rt}
    argv n vecSize step w :
  1 < length argv -> atoi (arg argv 1) = Ok n -> (n < 0)%Z ->
  arguments argv = Ok (vecSize, step) ->
  step = 0%Z \/ step = 2%Z \/ step = 3%Z ->
  vecSize = (2 ^ 64 + n)%Z /\ main argv tt w = Fault LengthError.
Proof.
  intros Hargc Hn Hneg Harg Hstep.
  pose proof (atoi_int _ _ Hn) as Hint. unfold Int.INT_MIN, Int.INT_MAX in Hint.
  pose proof max_bytes_addressable as Haddr.
  assert (Hsize : vecSize = (2 ^ 64 + n)%Z).
  { unfold arguments in Harg. apply Nat.ltb_lt in Hargc. rewrite Hargc, Hn in Harg.
    cbn [mbind res_bind] in Harg.
    destruct (if 2 <? length argv then atoi (arg argv 2) else Ok 0%Z);
      [|discriminate].
    injection Harg as <- _. unfold Int.to_size_t.
    rewrite <- (Z.mod_add n 1 (2 ^ 64)) by lia.
    rewrite Z.mod_small by lia. lia. }
  split; [exact Hsize|].
  rewrite (main_dispatch _ _ _ _ Harg).
  unfold mbind at 1, Prog_bind at 1, print at 1.
  set (w0 := set_cout _ w).
  assert (Hlong : (Z.of_N max_bytes < vecSize * 8)%Z) by lia.
  assert (Htrig : TestTrig vecSize tt w0 = Fault LengthError).
  { unfold TestTrig. apply bind_fault. apply vector_n_too_long. exact Hlong. }
  assert (Hdot : forall wx, TestDotProduct vecSize tt wx = Fault LengthError).
  { intros wx. unfold TestDotProduct.
    unfold mbind at 1, Prog_bind at 1, print at 1.
    apply bind_fault. apply vector_n_too_long. exact Hlong. }
  destruct Hstep as [->|[->| ->]]; cbn [Z.eqb orb Pos.eqb].
  - apply bind_fault. exact Htrig.
  - apply bind_fault. exact Htrig.
  - unfold mbind at 1, Prog_bind at 1, mret at 1, Prog_ret at 1.
    apply bind_fault. apply Hdot.
Qed.

End Arguments.

(** ** More of the benchmarks *)

Section Runs.
Context {rt : Runtime} {conforming : Conforming rt}.

(** The buffers of [BM_Trigonometry] depend neither on the policy nor on
    how often the framework repeats the pass: the inputs are drawn from
    [[0, pi/2]] before the loop, on the calling thread, and every pass
    leaves [out[i] = sqrt(sin(vec[i]) * cos(vec[i]))]; without a pass
    [out] is the copy of [vec] it started as. *)
Theorem BM_Trigonometry_same_buffers {L} (range0 : Z) (l : L) (w : World) :
  (0 <= range0)%Z -> (range0 * 8 <= Z.of_N max_bytes)%Z ->
  exists vec0,
    length vec0 = Z.to_nat range0 /\
    (forall v, v ∈ vec0 -> between 0 half_pi_f v) /\
    (forall p, exists w',
       BM_Trigonometry p range0 0 l w = Ok ({| vec := vec0; out := vec0 |}, l, w')) /\
    (forall p k, exists w',
       BM_Trigonometry p range0 (S k) l w =
         Ok ({| vec := vec0; out := trig <$> vec0 |}, l, w')).
Proof.
  intros H0 Hmax. pose proof max_bytes_addressable as Haddr.
  destruct (generate_total (GenRandomFloat 0 half_pi_f)
              (replicate (Z.to_nat range0) 0.5%float) l w)
    as (v & w1 & Eg & Hv); [intros t l0 w0; apply GenRandomFloat_total|].
  pose proof (generate_values (between 0 half_pi_f) _ _ _ _ _ _ _
                (fun t l0 w0 y l' w' =>
                   GenRandomFloat_between 0 half_pi_f t l0 w0 y l' w' eq_refl eq_refl)
                Eg Hv) as Hin.
  rewrite length_replicate in Hv.
  exists v. split; [exact Hv|]. split; [exact Hin|].
  assert (Hstart : forall p n,
            BM_Trigonometry p range0 n l w =
              scope {| vec := v; out := v |}
                (iterate n (BM_Trigonometry_pass p);; get_frame) l w1).
  { intros p n. unfold BM_Trigonometry.
    rewrite to_size_t_small by lia.
    rewrite (bind_ok _ _ _ _ _ _ _ (vector_n_ok 8 range0 0.5%float l w Hmax)).
    rewrite (bind_ok _ _ _ _ _ _ _ Eg). reflexivity. }
  split.
  - intros p. rewrite Hstart. eexists. reflexivity.
  - intros p k. rewrite Hstart.
    destruct (iterate_total (BM_Trigonometry_pass p)
                (fun fr => vec fr = v /\ length (out fr) = length v)
                (fun fr => out fr = trig <$> vec fr)) with (k := k)
                (fr := {| vec := v; out := v |}) (w := w1)
      as ([vec' out'] & w2 & E & [Hvec _] & Hout).
    { intros fr w0 [Hvec Hlen]. unfold BM_Trigonometry_pass.
      unfold mbind at 1, Prog_bind at 1, get_frame.
      rewrite (bind_ok _ _ _ _ _ _ _
                 (sqrt_sin_cos_spec p (vec fr) (out fr) fr w0 ltac:(congruence))).
      eexists _, _. split; [reflexivity|]. cbn [vec out].
      split; [|reflexivity]. split; [exact Hvec|]. rewrite length_fmap. congruence. }
    { split; reflexivity. }
    cbn [vec out] in Hvec, Hout. subst vec' out'.
    unfold scope. rewrite (bind_ok _ _ _ _ _ _ _ E).
    eexists. reflexivity.
Qed.

Lemma random_point_coordinates {L} t (l : L) w pt l' w' :
  random_point t l w = Ok (pt, l', w') ->
  between (-1) 1 (glm.x pt) /\ between (-1) 1 (glm.y pt) /\
  between (-1) 1 (glm.z pt) /\ glm.w pt = 1%float.
Proof.
  unfold random_point. intros E.
  apply bind_inv in E. destruct E as (px & l1 & w1 & Ex & E).
  apply bind_inv in E. destruct E as (py & l2 & w2 & Ey & E).
  apply bind_inv in E. destruct E as (pz & l3 & w3 & Ez & E).
  injection E as <- _ _. cbn [glm.x glm.y glm.z glm.w].
  split; [exact (GenRandomFloat_between (-1) 1 _ _ _ _ _ _ eq_refl eq_refl Ex)|].
  split; [exact (GenRandomFloat_between (-1) 1 _ _ _ _ _ _ eq_refl eq_refl Ey)|].
  split; [exact (GenRandomFloat_between (-1) 1 _ _ _ _ _ _ eq_refl eq_refl Ez)|reflexivity].
Qed.

(** A run of [BM_SortPoints] only reorders the points it has drawn: after
    any number of passes from 1 the buffer is a permutation of the buffer
    of the same run without a pass, in ascending order of [x], and every
    point still has its coordinates in [[-1, 1]] and [w = 1]. *)
Theorem BM_SortPoints_reorders_generated {L} (p : Policy) (range0 : Z) (k : nat)
    (l : L) (w : World) :
  (0 <= range0)%Z -> (range0 * 16 <= Z.of_N max_bytes)%Z ->
  exists generated sorted w0 w',
    BM_SortPoints p range0 0 l w = Ok (generated, l, w0) /\
    BM_SortPoints p range0 (S k) l w = Ok (sorted, l, w') /\
    length generated = Z.to_nat range0 /\
    sorted ≡ₚ generated /\ ascending_x sorted /\
    forall pt, pt ∈ sorted ->
      between (-1) 1 (glm.x pt) /\ between (-1) 1 (glm.y pt) /\
      between (-1) 1 (glm.z pt) /\ glm.w pt = 1%float.
Proof.
  intros H0 Hmax. pose proof max_bytes_addressable as Haddr.
  destruct (generate_total random_point
              (replicate (Z.to_nat range0)
                 {| glm.x := 0; glm.y := 1; glm.z := 0; glm.w := 1 |}) l w)
    as (pts & w1 & Eg & Hlen); [intros t l0 w0; apply random_point_total|].
  pose proof (generate_values _ random_point _ _ _ _ _ _
                (fun t l0 w0 y l' w' => random_point_coordinates t l0 w0 y l' w')
                Eg Hlen) as Hin.
  rewrite length_replicate in Hlen.
  assert (Hstart : forall n,
            BM_SortPoints p range0 n l w =
              scope pts (iterate n (BM_SortPoints_pass p);; get_frame) l w1).
  { intros n. unfold BM_SortPoints.
    rewrite to_size_t_small by lia.
    rewrite (bind_ok _ _ _ _ _ _ _ (vector_n_ok 16 range0 _ l w Hmax)).
    rewrite (bind_ok _ _ _ _ _ _ _ Eg). reflexivity. }
  assert (Hnum : forall fr, fr ≡ₚ pts -> numbers_x fr).
  { intros fr Hperm pt Hpt. rewrite Hperm in Hpt.
    destruct (Hin pt Hpt) as ([Hlo _] & _).
    exact (proj2 (F64Facts.leb_num _ _ Hlo)). }
  destruct (iterate_total (BM_SortPoints_pass p) (fun fr => fr ≡ₚ pts) ascending_x)
    with (k := k) (fr := pts) (w := w1) as (sorted & w2 & E & Hperm & Ha).
  { intros fr w0 Hfr.
    destruct (BM_SortPoints_pass_spec p fr w0 (Hnum fr Hfr)) as (s & w' & E & Hp & Hasc).
    exists s, w'. split; [exact E|]. split; [|exact Hasc].
    rewrite Hp. exact Hfr. }
  { reflexivity. }
  exists pts, sorted, w1, w2. rewrite !Hstart.
  split; [reflexivity|].
  split; [unfold scope; rewrite (bind_ok _ _ _ _ _ _ _ E); reflexivity|].
  split; [exact Hlen|]. split; [exact Hperm|]. split; [exact Ha|].
  intros pt Hpt. apply Hin. rewrite <- Hperm. exact Hpt.
Qed.

Lemma BM_DotProduct_pass_spec p fr w :
  dot_ready fr ->
  exists r, BM_DotProduct_pass p fr w =
              Ok (r, fr, set_sched_calls (S (sched_calls w)) w).
Proof.
  intros Hfr. destruct (TestDotProduct_run_spec p fr w Hfr) as (r & E & _).
  exists r. exact E.
Qed.

Lemma iterate_keeps {L T} (obs : World -> T) (body : Prog L unit) (Inv : L -> Prop) :
  (forall fr w, Inv fr ->
     exists fr' w', body fr w = Ok (tt, fr', w') /\ Inv fr' /\ obs w' = obs w) ->
  forall k fr w, Inv fr ->
    exists fr' w', iterate k body fr w = Ok (tt, fr', w') /\ Inv fr' /\ obs w' = obs w.
Proof.
  intros Hbody. induction k as [|k IH]; intros fr w Hfr.
  - exists fr, w. split; [reflexivity|]. split; [exact Hfr|reflexivity].
  - destruct (Hbody fr w Hfr) as (fr1 & w1 & E & Hi & Ho).
    destruct (IH fr1 w1 Hi) as (fr' & w' & E' & Hi' & Ho').
    exists fr', w'. split; [|split; [exact Hi'|congruence]].
    cbn [iterate]. rewrite (bind_ok _ _ _ _ _ _ _ E). exact E'.
Qed.

(** [BM_DotProduct] runs through on every size a vector holds, 0
    included, for every policy and any number of passes, none included: its
    two vectors have one length, so no pass reads outside them; and it
    writes nothing. *)
Theorem BM_DotProduct_completes {L} (p : Policy) (range0 : Z) (k : nat)
    (l : L) (w : World) :
  (0 <= range0)%Z -> (range0 * 8 <= Z.of_N max_bytes)%Z ->
  exists w', BM_DotProduct p range0 k l w = Ok (tt, l, w') /\ cout w' = cout w.
Proof.
  intros H0 Hmax. pose proof max_bytes_addressable as Haddr.
  unfold BM_DotProduct. rewrite to_size_t_small by lia.
  rewrite (bind_ok _ _ _ _ _ _ _ (vector_n_ok 8 range0 0%float l w Hmax)).
  rewrite (bind_ok _ _ _ _ _ _ _ (vector_n_ok 8 range0 0%float l w Hmax)).
  destruct (generate_policy_total pstl_par (GenRandomFloat (-1) 1)
              (replicate (Z.to_nat range0) 0%float) l w)
    as (x1 & w1 & Eg1 & Hx1); [intros t l0 wx; apply GenRandomFloat_total|].
  rewrite (bind_ok _ _ _ _ _ _ _ Eg1).
  destruct (generate_policy_total pstl_par (GenRandomFloat (-1) 1)
              (replicate (Z.to_nat range0) 0%float) l w1)
    as (x2 & w2 & Eg2 & Hx2); [intros t l0 wx; apply GenRandomFloat_total|].
  rewrite (bind_ok _ _ _ _ _ _ _ Eg2).
  pose proof (generate_policy_keeps cout _ _ _ _ _ _ _ _
                (fun t => GenRandomFloat_cout (-1) 1 t) (fun _ _ => eq_refl) Eg1) as Hc1.
  pose proof (generate_policy_keeps cout _ _ _ _ _ _ _ _
                (fun t => GenRandomFloat_cout (-1) 1 t) (fun _ _ => eq_refl) Eg2) as Hc2.
  destruct (iterate_keeps cout (BM_DotProduct_pass p;; mret tt) dot_ready)
    with (k := k) (fr := {| v1 := x1; v2 := x2 |}) (w := w2)
    as (fr & w3 & E & _ & Hc3).
  { intros fr wx Hfr. destruct (BM_DotProduct_pass_spec p fr wx Hfr) as (r & E).
    eexists _, _. rewrite (bind_ok _ _ _ _ _ _ _ E).
    split; [reflexivity|]. split; [exact Hfr|reflexivity]. }
  { unfold dot_ready. cbn [v1 v2]. congruence. }
  unfold scope. rewrite E. eexists. split; [reflexivity|]. congruence.
Qed.

End Runs.

(** ** More of the pricing computation *)

Section Stock.
Context {rt : Runtime}.

Lemma to_int_wraps i : (2 ^ 31 <= i < 2 ^ 32)%Z -> Int.to_int i = (i - 2 ^ 32)%Z.
Proof.
  intros Hi. unfold Int.to_int.
  rewrite <- (Z.mod_add (i + 2 ^ 31) (-1) (2 ^ 32)) by lia.
  rewrite Z.mod_small by lia. lia.
Qed.

Lemma to_int_range i : (- 2 ^ 31 <= Int.to_int i < 2 ^ 31)%Z.
Proof.
  unfold Int.to_int.
  pose proof (Z.mod_pos_bound (i + 2 ^ 31) (2 ^ 32) ltac:(lia)). lia.
Qed.

(** An index that is negative as an [int] is, as a subscript, a [size_t]
    of at least [2^64 - 2^31]. *)
Lemma price_of_negative_index (fr : PricingFrame) (i : Z) :
  (Int.to_int i < 0)%Z -> (Z.of_nat (length (prices fr)) <= 2 ^ 63)%Z ->
  price_of fr i = Fault OutOfBounds.
Proof.
  intros Hneg Hlen. pose proof (to_int_range i) as Hr.
  unfold price_of.
  assert (Hsub : length (prices fr) <= Int.subscript (Int.to_int i)).
  { unfold Int.subscript, Int.to_size_t.
    rewrite <- (Z.mod_add (Int.to_int i) 1 (2 ^ 64)) by lia.
    rewrite Z.mod_small by lia. lia. }
  unfold vec_at. rewrite (lookup_ge_None_2 _ _ Hsub). reflexivity.
Qed.

(** The transform lambda takes its index as an [int]: an index from
    [2^31] up to [2^32] arrives negative, and as a subscript it is a
    [size_t] above [2^64 - 2^31], outside every vector. *)
Theorem price_of_int_index_wraps (fr : PricingFrame) (i : Z) :
  (2 ^ 31 <= i < 2 ^ 32)%Z ->
  (Z.of_nat (length (prices fr)) <= 2 ^ 63)%Z ->
  Int.to_int i = (i - 2 ^ 32)%Z /\ price_of fr i = Fault OutOfBounds.
Proof.
  intros Hi Hlen. pose proof (to_int_wraps i Hi) as Hint.
  split; [exact Hint|].
  apply price_of_negative_index; [lia|exact Hlen].
Qed.

Lemma price_of_fault fr i e : price_of fr i = Fault e -> e = OutOfBounds.
Proof.
  unfold price_of, vec_at, mbind, res_bind.
  destruct (prices fr !! _); [|intros [= <-]; reflexivity].
  destruct (discounts fr !! _); [|intros [= <-]; reflexivity].
  destruct (quantities fr !! _); [discriminate|intros [= <-]; reflexivity].
Qed.

(** A transform one of whose elements is out of bounds, and that has no
    other way to fail, ends out of bounds. *)
Lemma transform_slots_out_of_bounds {A B} (op : A -> res B) (src : range A) sch :
  (forall i e, (range_at src i ≫= op) = Fault e -> e = OutOfBounds) ->
  (exists sl, sl ∈ sch /\ (range_at src (index sl) ≫= op) = Fault OutOfBounds) ->
  forall dst, transform_slots op src sch dst = Fault OutOfBounds.
Proof.
  intros Hop. induction sch as [|sl sch IH]; intros (sl0 & Hin & Hsl0) dst.
  - apply elem_of_nil in Hin. destruct Hin.
  - unfold transform_slots. cbn [fold_res].
    destruct (range_at src (index sl) ≫= op) as [y|e] eqn:Ey.
    + assert (Ebody : (x ← range_at src (index sl); y ← op x;
                       vec_store dst (index sl) y) = vec_store dst (index sl) y).
      { unfold mbind, res_bind in Ey |- *.
        destruct (range_at src (index sl)); [|discriminate]. rewrite Ey. reflexivity. }
      rewrite Ebody. unfold vec_store.
      destruct (decide (index sl < length dst)); [|reflexivity].
      cbn [mbind res_bind]. apply IH.
      apply elem_of_cons in Hin. destruct Hin as [->|Hin]; [congruence|].
      exists sl0. split; assumption.
    + pose proof (Hop _ _ Ey) as ->.
      unfold mbind, res_bind in Ey |- *.
      destruct (range_at src (index sl)); [|congruence]. rewrite Ey. reflexivity.
Qed.

(** One pass of the pricing computation over more than [2^31] elements
    ends out of bounds, whatever the policy: [for_each] fills the buffers,
    and the transform then reaches index [2^31], which its lambda takes as
    the [int] [-2^31].  The sizes that work are those up to [2^31]. *)
Theorem BM_CountingIter_pass_beyond_int (p : Policy) (VecSize : Z)
    (fr : PricingFrame) (w : World) :
  (2 ^ 31 < VecSize <= 2 ^ 63)%Z ->
  sized (Z.to_nat VecSize) fr ->
  BM_CountingIter_pass p VecSize fr w = Fault OutOfBounds.
Proof.
  intros HV Hsz. set (n := Z.to_nat VecSize) in *.
  assert (Hlen : range_len (counting_range 0 VecSize) = n).
  { cbn [range_len counting_range]. rewrite Z.sub_0_r. reflexivity. }
  assert (Heach : exists fr1 w1,
            for_each p (counting_range 0 VecSize) fill_prices fr w = Ok (tt, fr1, w1) /\
            sized n fr1).
  { unfold for_each, next_schedule, next_decisions. rewrite Hlen.
    unfold mbind at 1 2, Prog_bind at 1 2, mret at 1, Prog_ret at 1.
    cbn [fst snd].
    destruct (for_each_fill_sized n VecSize
                (schedule p n (sched_codes w (sched_calls w))
                   (sched_worker w (sched_calls w))) fr
                (set_sched_calls (S (sched_calls w)) w))
      as (fr1 & w1 & E & Hsz1 & _);
      [intros sl; apply schedule_index_lt|unfold n; lia|exact Hsz|].
    exists fr1, w1. split; [exact E|exact Hsz1]. }
  destruct Heach as (fr1 & w1 & Eeach & Hp & _).
  unfold BM_CountingIter_pass.
  rewrite (bind_ok _ _ _ _ _ _ _ Eeach).
  unfold mbind at 1, Prog_bind at 1, get_frame.
  apply bind_fault.
  unfold transform, next_schedule, next_decisions. rewrite Hlen.
  unfold mbind, Prog_bind, mret, Prog_ret, lift_res. cbn [fst snd].
  rewrite transform_slots_out_of_bounds; [reflexivity| |].
  - intros i e. cbn [range_at counting_range]. unfold mbind, res_bind.
    apply price_of_fault.
  - assert (Hcov : Z.to_nat (2 ^ 31) ∈
              index <$> schedule p n (sched_codes w1 (sched_calls w1))
                          (sched_worker w1 (sched_calls w1))).
    { apply schedule_covers. unfold n. lia. }
    apply list_elem_of_fmap in Hcov. destruct Hcov as (sl & Hidx & Hin).
    exists sl. split; [exact Hin|]. rewrite <- Hidx.
    cbn [range_at counting_range]. unfold mbind, res_bind.
    rewrite Z.add_0_l, Z2Nat.id by lia.
    apply price_of_negative_index; [rewrite to_int_wraps; lia|].
    rewrite Hp. unfold n. lia.
Qed.

Context {conforming : Conforming rt}.

Lemma GenRandomInt_between {L} lower upper t (l : L) w q l' w' :
  (lower <= upper)%Z ->
  GenRandomInt lower upper t l w = Ok (q, l', w') -> (lower <= q <= upper)%Z.
Proof.
  intros Hle. rewrite GenRandomInt_eq, draw_value. intros [= <- _ _].
  apply uniform_int_range. exact Hle.
Qed.

Lemma fill_prices_restocks t i fr w fr' w' :
  fill_prices t i fr w = Ok (tt, fr', w') ->
  profit fr' = profit fr /\
  restocked fr' (Int.subscript i) /\
  forall j, j <> Int.subscript i ->
    prices fr' !! j = prices fr !! j /\
    quantities fr' !! j = quantities fr !! j /\
    discounts fr' !! j = discounts fr !! j.
Proof.
  unfold fill_prices. intros E.
  apply bind_inv in E. destruct E as (x & l1 & w1 & Ex & E).
  apply (GenRandomFloat_between 0.5 100 _ _ _ _ _ _ eq_refl eq_refl) in Ex as Hx.
  rewrite GenRandomFloat_eq in Ex. injection Ex as _ <- _.
  unfold mbind at 1, Prog_bind at 1, get_frame at 1 in E.
  apply bind_inv in E. destruct E as (ps & l2 & w2 & Eps & E).
  unfold lift_res, vec_store in Eps.
  destruct (decide (Int.subscript i < length (prices fr))) as [Hp|]; [|discriminate].
  injection Eps as <- <- _.
  unfold mbind at 1, Prog_bind at 1, put_frame at 1 in E.
  apply bind_inv in E. destruct E as (q & l3 & w3 & Eq & E).
  apply (GenRandomInt_between 1 100 _ _ _ _ _ _ ltac:(lia)) in Eq as Hq.
  rewrite GenRandomInt_eq in Eq. injection Eq as _ <- _.
  unfold mbind at 1, Prog_bind at 1, get_frame at 1 in E.
  cbn [prices quantities discounts profit] in E.
  apply bind_inv in E. destruct E as (qs & l4 & w4 & Eqs & E).
  unfold lift_res, vec_store in Eqs.
  destruct (decide (Int.subscript i < length (quantities fr))) as [Hqs|]; [|discriminate].
  injection Eqs as <- <- _.
  unfold mbind at 1, Prog_bind at 1, put_frame at 1 in E.
  apply bind_inv in E. destruct E as (d & l5 & w5 & Ed & E).
  apply (GenRandomFloat_between 0 0.5 _ _ _ _ _ _ eq_refl eq_refl) in Ed as Hd.
  rewrite GenRandomFloat_eq in Ed. injection Ed as _ <- _.
  unfold mbind at 1, Prog_bind at 1, get_frame at 1 in E.
  cbn [prices quantities discounts profit] in E.
  apply bind_inv in E. destruct E as (ds & l6 & w6 & Eds & E).
  unfold lift_res, vec_store in Eds.
  destruct (decide (Int.subscript i < length (discounts fr))) as [Hds|]; [|discriminate].
  injection Eds as <- <- _.
  unfold put_frame in E. injection E as <- _.
  cbn [prices quantities discounts profit]. split; [reflexivity|].
  assert (Hu : Int.to_unsigned q = q).
  { unfold Int.to_unsigned. apply Z.mod_small. lia. }
  split.
  - unfold restocked. cbn [prices quantities discounts profit].
    rewrite !list_lookup_insert_eq by assumption.
    split; [intros ? [= <-]; exact Hx|].
    split; [intros ? [= <-]; rewrite Hu; exact Hq|intros ? [= <-]; exact Hd].
  - intros j Hj. rewrite !list_lookup_insert_ne by congruence. auto.
Qed.

Lemma for_each_fill_restocks VecSize sch : forall fr w fr' w',
  fold_prog (fun sl (_ : unit) =>
               x ← lift_res (range_at (counting_range 0 VecSize) (index sl));
               fill_prices (thread sl) x) sch tt fr w = Ok (tt, fr', w') ->
  forall j, (Z.of_nat j < 2 ^ 64)%Z ->
    (restocked fr j \/ j ∈ index <$> sch) -> restocked fr' j.
Proof.
  induction sch as [|sl sch IH]; intros fr w fr' w' E j Hj64 Hj.
  - cbn in E. injection E as <- _. destruct Hj as [Hj|Hj]; [exact Hj|].
    apply elem_of_nil in Hj. destruct Hj.
  - cbn [fold_prog] in E. apply bind_inv in E.
    destruct E as ([] & fr1 & w1 & E1 & E).
    cbn [counting_range range_at] in E1. rewrite Z.add_0_l in E1.
    unfold mbind at 1, Prog_bind at 1, lift_res at 1 in E1.
    destruct (fill_prices_restocks _ _ _ _ _ _ E1) as (_ & Hat & Hother).
    apply (IH _ _ _ _ E j Hj64).
    destruct (decide (j = Int.subscript (Z.of_nat (index sl)))) as [->|Hne].
    + left. exact Hat.
    + destruct (Hother j Hne) as (Ep & Eq & Ed).
      destruct Hj as [Hj|Hj].
      * left. unfold restocked. rewrite Ep, Eq, Ed. exact Hj.
      * right. rewrite fmap_cons in Hj. apply elem_of_cons in Hj.
        destruct Hj as [->|Hj]; [|exact Hj].
        rewrite subscript_of_nat in Hne by exact Hj64. contradiction.
Qed.

Lemma BM_CountingIter_pass_restocks (p : Policy) (VecSize : Z) (fr : PricingFrame)
    (w : World) fr' w' :
  (0 <= VecSize <= 2 ^ 31)%Z ->
  BM_CountingIter_pass p VecSize fr w = Ok (tt, fr', w') ->
  forall j, j < Z.to_nat VecSize -> restocked fr' j.
Proof.
  intros HV E j Hj. unfold BM_CountingIter_pass in E.
  apply bind_inv in E. destruct E as ([] & fr1 & w1 & Eeach & E).
  unfold mbind at 1, Prog_bind at 1, get_frame at 1 in E.
  apply bind_inv in E. destruct E as (profit' & fr2 & w2 & _ & E).
  unfold put_frame in E. injection E as <- _.
  unfold for_each in Eeach. apply bind_inv in Eeach.
  destruct Eeach as (sch & fr0 & w0 & Esch & Eeach).
  unfold next_schedule, next_decisions, mbind, Prog_bind, mret, Prog_ret in Esch.
  injection Esch as <- <- <-.
  apply (for_each_fill_restocks _ _ _ _ _ _ Eeach j); [lia|].
  right. apply schedule_covers.
  cbn [range_len counting_range]. rewrite Z.sub_0_r. exact Hj.
Qed.

(** Every run of [BM_CountingIter] with at least one pass, on a size the
    registration gives, ends with every price in [[0.5, 100]], every
    quantity in [[1, 100]] and every discount in [[0, 0.5]]: no discount
    above 50%, and none of the zeros the vectors were constructed with. *)
Theorem BM_CountingIter_stock_in_range {L} (p : Policy) (range0 : Z) (k : nat)
    (l : L) (w : World) :
  (0 <= range0 <= 2 ^ 31)%Z -> (range0 * 8 <= Z.of_N max_bytes)%Z ->
  exists fr w',
    BM_CountingIter p range0 (S k) l w = Ok (fr, l, w') /\
    sized (Z.to_nat range0) fr /\
    (forall x, x ∈ prices fr -> between 0.5 100 x) /\
    (forall q, q ∈ quantities fr -> (1 <= q <= 100)%Z) /\
    (forall d, d ∈ discounts fr -> between 0 0.5 d).
Proof.
  intros HV Hmax. unfold BM_CountingIter. cbv zeta.
  assert (Hmax4 : (range0 * 4 <= Z.of_N max_bytes)%Z) by lia.
  rewrite to_size_t_small by lia.
  rewrite (bind_ok _ _ _ _ _ _ _ (vector_n_ok 8 range0 0%float l w Hmax)).
  rewrite (bind_ok _ _ _ _ _ _ _ (vector_n_ok 4 range0 0%Z l w Hmax4)).
  rewrite (bind_ok _ _ _ _ _ _ _ (vector_n_ok 8 range0 0%float l w Hmax)).
  rewrite (bind_ok _ _ _ _ _ _ _ (vector_n_ok 8 range0 0%float l w Hmax)).
  set (fr0 := {| prices := _; quantities := _; discounts := _; profit := _ |}).
  destruct (iterate_total (BM_CountingIter_pass p range0)
              (sized (Z.to_nat range0))
              (fun fr => forall j, j < Z.to_nat range0 -> restocked fr j))
    with (k := k) (fr := fr0) (w := w) as (fr & w' & E & Hs & Hr).
  { intros fr w0 Hfr.
    destruct (BM_CountingIter_pass_spec p range0 fr w0 HV Hfr) as (fr' & w1 & E & Hs & _).
    exists fr', w1. split; [exact E|]. split; [exact Hs|].
    exact (BM_CountingIter_pass_restocks p range0 fr w0 fr' w1 HV E). }
  { unfold sized, fr0. cbn [prices quantities discounts profit].
    rewrite !length_replicate. auto. }
  unfold scope. rewrite (bind_ok _ _ _ _ _ _ _ E).
  exists fr, w'. split; [reflexivity|]. split; [exact Hs|].
  destruct Hs as (Hp & Hq & Hd & _).
  split; [|split].
  - intros x Hx. apply list_elem_of_lookup in Hx. destruct Hx as [j Ej].
    apply (Hr j); [|exact Ej]. apply lookup_lt_Some in Ej. lia.
  - intros q Hx. apply list_elem_of_lookup in Hx. destruct Hx as [j Ej].
    apply (Hr j); [|exact Ej]. apply lookup_lt_Some in Ej. lia.
  - intros d Hx. apply list_elem_of_lookup in Hx. destruct Hx as [j Ej].
    apply (Hr j); [|exact Ej]. apply lookup_lt_Some in Ej. lia.
Qed.

End Stock.

(** ** The runtime of the concrete runs conforms *)

Module RefFacts.
Import Ref.

Lemma uniform_real_within a b g :
  PrimFloat.leb a b = true ->
  PrimFloat.leb a (uniform_real a b g).1 = true /\
  PrimFloat.leb (uniform_real a b g).1 b = true.
Proof.
  intros Hab. destruct (F64Facts.leb_num _ _ Hab) as [Ha Hb].
  unfold uniform_real. cbn [fst].
  set (v := PrimFloat.add a _).
  destruct (PrimFloat.is_nan v) eqn:Env; cbn [orb].
  { split; [apply F64Facts.leb_refl; exact Ha|exact Hab]. }
  assert (Hv : F64.is_num v = true) by (unfold F64.is_num; rewrite Env; reflexivity).
  destruct (PrimFloat.ltb v a) eqn:Eva.
  { split; [apply F64Facts.leb_refl; exact Ha|exact Hab]. }
  destruct (PrimFloat.ltb b v) eqn:Ebv.
  { split; [exact Hab|apply F64Facts.leb_refl; exact Hb]. }
  split; apply F64Facts.not_ltb_leb; assumption.
Qed.

Lemma uniform_real_binary32_within a b g :
  PrimFloat.leb a b = true ->
  PrimFloat.leb (PrimFloat.sub b a) F32.max = true ->
  PrimFloat.leb a (uniform_real_binary32 a b g).1 = true /\
  PrimFloat.leb (uniform_real_binary32 a b g).1 b = true.
Proof.
  intros Hab Hmax. destruct (F64Facts.leb_num _ _ Hab) as [Ha Hb].
  unfold uniform_real_binary32. cbn [fst]. rewrite Hmax.
  set (v := F32.of_double _).
  destruct (PrimFloat.is_nan v) eqn:Env; cbn [orb].
  { split; [apply F64Facts.leb_refl; exact Ha|exact Hab]. }
  assert (Hv : F64.is_num v = true) by (unfold F64.is_num; rewrite Env; reflexivity).
  destruct (PrimFloat.ltb v a) eqn:Eva.
  { split; [apply F64Facts.leb_refl; exact Ha|exact Hab]. }
  destruct (PrimFloat.ltb b v) eqn:Ebv.
  { split; [exact Hab|apply F64Facts.leb_refl; exact Hb]. }
  split; apply F64Facts.not_ltb_leb; assumption.
Qed.

Lemma uniform_int_within a b g :
  (a <= b)%Z -> (a <= (uniform_int a b g).1 <= b)%Z.
Proof.
  intros Hab. unfold uniform_int. cbn [fst].
  rewrite (proj2 (Z.leb_le a b) Hab).
  pose proof (Z.mod_pos_bound (next g) (b - a + 1)). lia.
Qed.

Section InsertionSort.
Context {A : Type} (comp : A -> A -> bool) (v : list A).
Hypothesis order : strict_weak_order comp v.

Lemma insert_by_perm x l : insert_by comp x l ≡ₚ x :: l.
Proof.
  induction l as [|y l IH]; simpl; [reflexivity|].
  destruct (comp x y); [reflexivity|].
  rewrite IH. apply Permutation_swap.
Qed.

Lemma comp_asym a b : a ∈ v -> b ∈ v -> comp a b = true -> comp b a = false.
Proof.
  destruct order as (Hirr & Htr & _). intros Ha Hb Hab.
  destruct (comp b a) eqn:Hba; [|reflexivity].
  rewrite <- (Hirr a Ha). symmetry. exact (Htr a b a Ha Hb Ha Hab Hba).
Qed.

Lemma insert_by_sorted x l :
  x ∈ v -> (forall y, y ∈ l -> y ∈ v) ->
  StronglySorted (may_precede comp) l -> StronglySorted (may_precede comp) (insert_by comp x l).
Proof.
  intros Hx. induction l as [|y l IH]; intros Hl Hs; simpl.
  - constructor; constructor.
  - assert (Hy : y ∈ v) by (apply Hl; left).
    apply StronglySorted_inv in Hs. destruct Hs as [Hs Hy_l].
    destruct (comp x y) eqn:Exy.
    + constructor; [constructor; assumption|].
      constructor; [exact (comp_asym x y Hx Hy Exy)|].
      rewrite Forall_forall in Hy_l |- *. intros z Hz.
      assert (Hzv : z ∈ v) by (apply Hl; right; exact Hz).
      unfold may_precede. destruct (comp z x) eqn:Ezx; [|reflexivity].
      destruct order as (_ & Htr & _).
      rewrite <- (Hy_l z Hz).
      symmetry. exact (Htr z x y Hzv Hx Hy Ezx Exy).
    + constructor.
      * apply IH; [intros z Hz; apply Hl; right; exact Hz|exact Hs].
      * rewrite Forall_forall in Hy_l |- *. intros z Hz.
        rewrite insert_by_perm in Hz.
        apply elem_of_cons in Hz. destruct Hz as [->|Hz]; [exact Exy|].
        apply Hy_l. exact Hz.
Qed.

Lemma insertion_sort_perm codes l : insertion_sort comp codes l ≡ₚ l.
Proof.
  unfold insertion_sort. induction l as [|x l IH]; simpl; [reflexivity|].
  rewrite insert_by_perm, IH. reflexivity.
Qed.

Lemma insertion_sort_strongly codes l :
  (forall y, y ∈ l -> y ∈ v) ->
  StronglySorted (may_precede comp) (insertion_sort comp codes l).
Proof.
  unfold insertion_sort. induction l as [|x l IH]; intros Hl; simpl.
  - constructor.
  - apply insert_by_sorted.
    + apply Hl. left.
    + intros y Hy. apply Hl. right.
      rewrite <- (insertion_sort_perm codes l). exact Hy.
    + apply IH. intros y Hy. apply Hl. right. exact Hy.
Qed.

Lemma strongly_sorted_by l : StronglySorted (may_precede comp) l -> sorted_by comp l.
Proof.
  induction 1 as [|x l Hs IH Hx]; intros i j a b Hij Ha Hb.
  - rewrite lookup_nil in Ha. discriminate.
  - destruct j as [|j]; [lia|]. cbn in Hb.
    destruct i as [|i].
    + cbn in Ha. injection Ha as <-.
      rewrite Forall_forall in Hx. apply Hx.
      eapply list_elem_of_lookup_2. exact Hb.
    + cbn in Ha. apply (IH i j); [lia|assumption|assumption].
Qed.

End InsertionSort.

Lemma runtime_conforming : Conforming runtime.
Proof.
  split.
  - reflexivity.
  - intros a b g Hab _. apply uniform_real_within. exact Hab.
  - exact uniform_int_within.
  - intros A comp codes v _. apply insertion_sort_perm.
  - intros A comp codes v Hswo. apply (strongly_sorted_by comp).
    apply (insertion_sort_strongly comp v Hswo). auto.
Qed.

Lemma runtime_binary32_conforming : Conforming runtime_binary32.
Proof.
  split.
  - reflexivity.
  - exact uniform_real_binary32_within.
  - exact uniform_int_within.
  - intros A comp codes v _. apply insertion_sort_perm.
  - intros A comp codes v Hswo. apply (strongly_sorted_by comp).
    apply (insertion_sort_strongly comp v Hswo). auto.
Qed.

End RefFacts.

(** ** Concrete runs *)

(** [run E t] evaluates the closed computation [t]: [E : t = its outcome]. *)
Ltac run E t :=
  let r := fresh "r" in
  let Er := fresh "Er" in
  remember t as r eqn:Er;
  pose proof Er as E;
  vm_compute in E;
  rewrite Er in E;
  subst r.

Lemma trig_transform_values_witness :
  length Ref.angles = length Ref.angles /\
  exists out' w',
    sqrt_sin_cos (rt := Ref.runtime) pstl_par Ref.angles Ref.angles tt Ref.world0 =
      Ok (out', tt, w') /\
    length out' = length Ref.angles /\
    forall i v, Ref.angles !! i = Some v ->
      out' !! i = Some (PrimFloat.sqrt (PrimFloat.mul (Ref.series_sin v) (Ref.series_cos v))).
Proof.
  split; [reflexivity|].
  apply (trig_transform_values (rt := Ref.runtime) pstl_par Ref.angles Ref.angles
           tt Ref.world0).
  reflexivity.
Defined.

Lemma trig_transform_policy_independent_witness :
  exists out' w1' w2',
    sqrt_sin_cos (rt := Ref.runtime) pstl_seq Ref.angles Ref.angles tt Ref.world0 =
      Ok (out', tt, w1') /\
    sqrt_sin_cos (rt := Ref.runtime) pstl_par Ref.angles Ref.angles tt Ref.world0 =
      Ok (out', tt, w2') /\
    forall i, out' !! i = trig (rt := Ref.runtime) <$> Ref.angles !! i.
Proof.
  apply (trig_transform_policy_independent (rt := Ref.runtime) pstl_seq pstl_par
           Ref.angles Ref.angles tt Ref.world0 Ref.world0).
  reflexivity.
Defined.

Lemma BM_CountingIter_profit_witness :
  exists fr' w',
    BM_CountingIter_pass (rt := Ref.runtime) pstl_par_unseq 3 Ref.stock Ref.world0 =
      Ok (tt, fr', w') /\
    sized 3 fr' /\
    forall i, i < 3 ->
      exists price quantity discount,
        prices fr' !! i = Some price /\
        quantities fr' !! i = Some quantity /\
        discounts fr' !! i = Some discount /\
        profit fr' !! i =
          Some (PrimFloat.mul (PrimFloat.mul price (PrimFloat.sub 1 discount))
                  (Int.to_double quantity)).
Proof.
  apply (BM_CountingIter_profit (rt := Ref.runtime) pstl_par_unseq 3 Ref.stock
           Ref.world0).
  - vm_compute. split; discriminate.
  - repeat split.
Defined.

Lemma points_are_numbers :
  forall pt, pt ∈ Ref.points -> F64.is_num (glm.x pt) = true.
Proof.
  intros pt H. unfold Ref.points in H.
  repeat (apply elem_of_cons in H; destruct H as [->|H]; [reflexivity|]).
  apply elem_of_nil in H. destruct H.
Qed.

Lemma BM_SortPoints_sorted_by_x_witness :
  exists sorted w',
    BM_SortPoints_pass (rt := Ref.runtime) pstl_par Ref.points Ref.world0 =
      Ok (tt, sorted, w') /\
    sorted ≡ₚ Ref.points /\
    forall i a b, sorted !! i = Some a -> sorted !! S i = Some b ->
      PrimFloat.leb (glm.x a) (glm.x b) = true.
Proof.
  apply (BM_SortPoints_sorted_by_x (conforming := RefFacts.runtime_conforming)
           pstl_par Ref.points Ref.world0).
  exact points_are_numbers.
Defined.

Lemma GenRandom_within_bounds_witness :
  (exists v w',
     GenRandomFloat (rt := Ref.runtime) (-1) 1 2 tt Ref.world0 = Ok (v, tt, w') /\
     PrimFloat.leb (-1) v = true /\ PrimFloat.leb v 1 = true) /\
  (exists v w',
     GenRandomInt (rt := Ref.runtime) 1 100 2 tt Ref.world0 = Ok (v, tt, w') /\
     (1 <= v <= 100)%Z).
Proof.
  split.
  - apply (proj1 (GenRandom_within_bounds
                    (conforming := RefFacts.runtime_conforming) 2 tt Ref.world0)).
    + reflexivity.
    + reflexivity.
  - apply (proj2 (GenRandom_within_bounds
                    (conforming := RefFacts.runtime_conforming) 2 tt Ref.world0)).
    lia.
Defined.

(** C8 as stated fails: [-FLT_MAX <= FLT_MAX], but their difference is
    not a [float], and a library that keeps every promise of the standard
    and computes [u * (b - a) + a] in binary32, as libstdc++ does, then
    answers [+inf], which is above the upper bound. *)
Lemma GenRandomFloat_above_upper :
  Conforming Ref.runtime_binary32 /\
  PrimFloat.leb (- F32.max) F32.max = true /\
  exists v w',
    GenRandomFloat (rt := Ref.runtime_binary32) (- F32.max) F32.max 0 tt Ref.world0 =
      Ok (v, tt, w') /\
    v = infinity /\ PrimFloat.leb v F32.max = false.
Proof.
  split; [exact RefFacts.runtime_binary32_conforming|].
  split; [reflexivity|].
  eexists _, _. split; [apply GenRandomFloat_eq|].
  rewrite draw_value. split; vm_compute; reflexivity.
Qed.

Lemma RunAndMeasure_reports_min_max_first_witness :
  exists samples w0 tmin tmax r,
    trial Ref.tick 0%Z Ref.world0 = Ok (samples, 6%Z, w0) /\
    RunAndMeasure "tick" Ref.tick 0%Z Ref.world0 =
      Ok (tt, 6%Z, set_cout (cout w0 ++ report "tick" tmin tmax r) w0) /\
    (tmin ∈ samples.*1 /\
     forall d, d ∈ samples.*1 -> PrimFloat.leb tmin d = true) /\
    (tmax ∈ samples.*1 /\
     forall d, d ∈ samples.*1 -> PrimFloat.leb d tmax = true) /\
    samples.*2 !! 0 = Some r.
Proof.
  run Et (trial Ref.tick 0%Z Ref.world0).
  destruct (RunAndMeasure_reports_min_max_first "tick" Ref.tick _ _ _ _ _ Et)
    as (tmin & tmax & r & E & Hmin & Hmax & Hr).
  { intros d Hd. cbn in Hd.
    repeat (apply elem_of_cons in Hd; destruct Hd as [->|Hd]; [reflexivity|]).
    apply elem_of_nil in Hd. destruct Hd. }
  eexists _, _, tmin, tmax, r.
  split; [exact Et|]. split; [exact E|]. split; [exact Hmin|].
  split; [exact Hmax|exact Hr].
Defined.

(** C2 as stated fails: [tick] answers 1, 2, 3, 4, 5 to the five timed
    invocations; the line printed shows 1, the first, and nowhere 5, the
    last one computed. *)
Lemma RunAndMeasure_last_result_not_printed :
  exists samples w0 w',
    trial Ref.tick 0%Z Ref.world0 = Ok (samples, 6%Z, w0) /\
    samples.*2 = [1; 2; 3; 4; 5]%Z /\
    RunAndMeasure "tick" Ref.tick 0%Z Ref.world0 = Ok (tt, 6%Z, w') /\
    cout w' =
      cout w0 ++ report "tick" (milliseconds 6000000 6400000)
                   (milliseconds 3000000 5500000) 1%Z /\
    stream 5%Z ∉ cout w'.
Proof.
  run Et (trial Ref.tick 0%Z Ref.world0).
  run Er (RunAndMeasure "tick" Ref.tick 0%Z Ref.world0).
  eexists _, _, _.
  split; [exact Et|]. split; [reflexivity|]. split; [exact Er|].
  split; [reflexivity|].
  cbn. intros H.
  repeat (apply elem_of_cons in H; destruct H as [H|H]; [discriminate H|]).
  apply elem_of_nil in H. exact H.
Qed.

Lemma RunAndMeasure_six_invocations_witness :
  exists w',
    RunAndMeasure "tick" Ref.tick 0%Z Ref.world0 = Ok (tt, 6%Z, w') /\
    (forall k, RunAndMeasure "tick" (probed None Ref.tick) (0%Z, k) Ref.world0 =
                 Ok (tt, (6%Z, k + 6), w')) /\
    (forall r0, RunAndMeasure "tick" (probed (Some r0) Ref.tick) (0%Z, 0) Ref.world0 =
                  Ok (tt, (6%Z, 6), w')) /\
    exists samples w0 tmin tmax r,
      trial Ref.tick 0%Z Ref.world0 = Ok (samples, 6%Z, w0) /\
      length samples = 5 /\
      w' = set_cout (cout w0 ++ report "tick" tmin tmax r) w0 /\
      tmin ∈ samples.*1 /\ tmax ∈ samples.*1 /\ samples.*2 !! 0 = Some r.
Proof.
  run E (RunAndMeasure "tick" Ref.tick 0%Z Ref.world0).
  eexists. split; [exact E|].
  exact (RunAndMeasure_six_invocations "tick" Ref.tick _ _ _ _ E).
Defined.

Lemma timed_invocations_see_same_inputs_witness :
  (exists fr' log w',
     RunAndMeasure "pstl::execution::par"
       (observing vec (TestTrig_run (rt := Ref.runtime) pstl_par))
       (Ref.trig_frame, []) Ref.world0 = Ok (tt, (fr', log), w') /\
     log = replicate 6 (vec Ref.trig_frame)) /\
  (exists fr' log w',
     RunAndMeasure "std::execution::par"
       (observing (fun fr => (v1 fr, v2 fr)) (TestDotProduct_run std_par))
       (Ref.dot_frame, []) Ref.world0 = Ok (tt, (fr', log), w') /\
     log = replicate 6 (v1 Ref.dot_frame, v2 Ref.dot_frame)).
Proof.
  split.
  - run E (RunAndMeasure "pstl::execution::par"
             (observing vec (TestTrig_run (rt := Ref.runtime) pstl_par))
             (Ref.trig_frame, []) Ref.world0).
    eexists _, _, _. split; [exact E|].
    exact (proj1 (proj2 (proj2 (timed_invocations_see_same_inputs (rt := Ref.runtime))))
             _ _ _ _ _ _ _ E).
  - run E (RunAndMeasure "std::execution::par"
             (observing (fun fr => (v1 fr, v2 fr)) (TestDotProduct_run std_par))
             (Ref.dot_frame, []) Ref.world0).
    eexists _, _, _. split; [exact E|].
    exact (proj2 (proj2 (proj2 (timed_invocations_see_same_inputs (rt := Ref.runtime))))
             _ _ _ _ _ _ _ E).
Defined.

(** C6 as stated fails: the argument [-1] becomes the largest [size_t],
    more than a vector can hold, and the [std::length_error] ends the
    process; the argument [abc] is read as size 0, and the first
    trigonometric run then reads [out[0]] of an empty vector.  Neither run
    reaches [return 0]. *)
Lemma main_without_exit_code :
  main (rt := Ref.runtime) ["IntelParSTL"; "-1"]%string tt Ref.world0 =
    Fault LengthError /\
  main (rt := Ref.runtime) ["IntelParSTL"; "abc"]%string tt Ref.world0 =
    Fault OutOfBounds.
Proof. split; vm_compute; reflexivity. Qed.

Lemma main_exit_code_and_dispatch_witness :
  exists w',
    main (rt := Ref.runtime) ["IntelParSTL"; "3"; "0"]%string tt Ref.world0 =
      Ok (0%Z, tt, w').
Proof.
  apply (proj1 (main_exit_code_and_dispatch (rt := Ref.runtime))
           ["IntelParSTL"; "3"; "0"]%string 3%Z 0%Z Ref.world0).
  - reflexivity.
  - intros _. lia.
  - intros _. vm_compute. discriminate.
Defined.

(** ** Concrete runs of the further properties *)

Lemma random_number_generator_unit_interval_witness :
  exists v w',
    random_number_generator (rt := Ref.runtime) 3 tt Ref.world0 = Ok (v, tt, w') /\
    PrimFloat.leb 0 v = true /\ PrimFloat.leb v 1 = true /\
    (forall t', t' <> 3 ->
       rd_random_number_generator w' t' = rd_random_number_generator Ref.world0 t') /\
    rd_GenRandomFloat w' = rd_GenRandomFloat Ref.world0 /\
    rd_GenRandomInt w' = rd_GenRandomInt Ref.world0 /\
    clock_reads w' = clock_reads Ref.world0 /\
    sched_calls w' = sched_calls Ref.world0 /\
    cout w' = cout Ref.world0.
Proof.
  exact (random_number_generator_unit_interval
           (conforming := RefFacts.runtime_conforming) 3 tt Ref.world0).
Defined.

Lemma GenRandomFloat_threads_commute_witness :
  exists a b w1 w2 w12 w21,
    GenRandomFloat (rt := Ref.runtime) (-1) 1 0 tt Ref.world0 = Ok (a, tt, w1) /\
    GenRandomFloat (rt := Ref.runtime) 0 0.5 1 tt Ref.world0 = Ok (b, tt, w2) /\
    GenRandomFloat (rt := Ref.runtime) 0 0.5 1 tt w1 = Ok (b, tt, w12) /\
    GenRandomFloat (rt := Ref.runtime) (-1) 1 0 tt w2 = Ok (a, tt, w21) /\
    forall t, rd_GenRandomFloat w12 t = rd_GenRandomFloat w21 t.
Proof.
  apply (GenRandomFloat_threads_commute (rt := Ref.runtime) (-1) 1 0 0.5 0 1 tt
           Ref.world0).
  discriminate.
Defined.

Lemma TestTrig_run_idempotent_witness :
  exists r fr1,
    vec fr1 = Ref.angles /\ out fr1 = trig (rt := Ref.runtime) <$> Ref.angles /\
    (forall p w, exists w',
       TestTrig_run (rt := Ref.runtime) p Ref.trig_frame w = Ok (r, fr1, w')) /\
    (forall q w, exists w',
       TestTrig_run (rt := Ref.runtime) q fr1 w = Ok (r, fr1, w')).
Proof.
  apply (TestTrig_run_idempotent (rt := Ref.runtime) Ref.trig_frame).
  - reflexivity.
  - cbn. lia.
Defined.

Lemma TestTrig_prints_one_result_witness :
  exists v0 w' a1 b1 a2 b2 a3 b3 a4 b4,
    TestTrig (rt := Ref.runtime) 3 tt Ref.world0 = Ok (tt, tt, w') /\
    between 0 half_pi_f v0 /\
    cout w' =
      cout Ref.world0 ++ [Str (line "sqrt(sin*cos):")] ++
      report "pstl::execution::seq" a1 b1 (trig (rt := Ref.runtime) v0) ++
      report "pstl::execution::par" a2 b2 (trig (rt := Ref.runtime) v0) ++
      report "std::transform seq" a3 b3 (trig (rt := Ref.runtime) v0) ++
      report "std::transform par" a4 b4 (trig (rt := Ref.runtime) v0).
Proof.
  apply (TestTrig_prints_one_result (conforming := RefFacts.runtime_conforming)
           3 tt Ref.world0).
  - lia.
  - vm_compute. discriminate.
Defined.

Lemma TestDotProduct_prints_four_lines_witness :
  exists w' a1 b1 r1 a2 b2 r2 a3 b3 r3 a4 b4 r4,
    TestDotProduct (rt := Ref.runtime) 0 tt Ref.world0 = Ok (tt, tt, w') /\
    cout w' =
      cout Ref.world0 ++ [Str (line "dot product:")] ++
      report "pstl::execution::seq" a1 b1 r1 ++
      report "pstl::execution::par" a2 b2 r2 ++
      report "std::execution::seq" a3 b3 r3 ++
      report "std::execution::par" a4 b4 r4 /\
    (Z.to_nat 0 = 0 ->
     r1 = 0%float /\ r2 = 0%float /\ r3 = 0%float /\ r4 = 0%float).
Proof.
  apply (TestDotProduct_prints_four_lines (rt := Ref.runtime)
           0 tt Ref.world0).
  vm_compute. discriminate.
Defined.

Lemma tick_neutral : forall l w r l1 w1,
  Ref.tick l w = Ok (r, l1, w1) ->
  clock w1 = clock w /\ clock_reads w1 = clock_reads w /\ cout w1 = cout w.
Proof. intros l w r l1 w1 [= _ _ <-]. repeat split. Qed.

Lemma RunAndMeasure_times_each_invocation_witness :
  exists w',
    RunAndMeasure "tick" Ref.tick 0%Z Ref.world0 = Ok (tt, 6%Z, w') /\
    clock_reads w' = clock_reads Ref.world0 + 2 * RUN_TIMES /\
    exists i j r,
      i < RUN_TIMES /\ j < RUN_TIMES /\
      cout w' =
        cout Ref.world0 ++
        report "tick" (elapsed Ref.world0 (clock_reads Ref.world0 + 2 * i))
          (elapsed Ref.world0 (clock_reads Ref.world0 + 2 * j)) r /\
      ((forall k, (clock Ref.world0 k <= clock Ref.world0 (S k))%Z) ->
       PrimFloat.leb 0 (elapsed Ref.world0 (clock_reads Ref.world0 + 2 * i)) = true /\
       PrimFloat.leb 0 (elapsed Ref.world0 (clock_reads Ref.world0 + 2 * j)) = true).
Proof.
  run E (RunAndMeasure "tick" Ref.tick 0%Z Ref.world0).
  eexists. split; [exact E|].
  exact (RunAndMeasure_times_each_invocation Ref.tick tick_neutral "tick" _ _ _ _ E).
Defined.

Lemma RunAndMeasure_prints_ordered_numbers_witness :
  exists w' w0 tmin tmax r,
    RunAndMeasure "tick" Ref.tick 0%Z Ref.world0 = Ok (tt, 6%Z, w') /\
    w' = set_cout (cout w0 ++ report "tick" tmin tmax r) w0 /\
    F64.is_num tmin = true /\ F64.is_num tmax = true /\
    PrimFloat.leb tmin tmax = true.
Proof.
  run E (RunAndMeasure "tick" Ref.tick 0%Z Ref.world0).
  destruct (RunAndMeasure_prints_ordered_numbers Ref.tick "tick" _ _ _ _ E)
    as (w0 & tmin & tmax & r & H).
  eexists _, w0, tmin, tmax, r. split; [exact E|exact H].
Defined.

Lemma main_ignores_further_arguments_witness :
  main (rt := Ref.runtime) ["IntelParSTL"; "1000"; "3"; "more"]%string =
  main (rt := Ref.runtime) ["a.out"; "1000"; "3"]%string.
Proof.
  apply (main_ignores_further_arguments (rt := Ref.runtime)
           ["IntelParSTL"; "1000"; "3"; "more"]%string ["a.out"; "1000"; "3"]%string).
  - cbn. lia.
  - cbn. lia.
  - reflexivity.
  - reflexivity.
Defined.

Lemma main_other_step_runs_nothing_witness :
  main (rt := Ref.runtime) ["IntelParSTL"; "1000"; "1"]%string tt Ref.world0 =
    Ok (0%Z, tt,
        set_cout (cout Ref.world0 ++ [Num 1000; Chr newline]) Ref.world0).
Proof.
  apply (main_other_step_runs_nothing (rt := Ref.runtime)
           ["IntelParSTL"; "1000"; "1"]%string 1000%Z 1%Z Ref.world0).
  - reflexivity.
  - discriminate.
  - discriminate.
  - discriminate.
Defined.

Lemma main_negative_size_length_error_witness :
  18446744073709551611%Z = (2 ^ 64 + -5)%Z /\
  main (rt := Ref.runtime) ["IntelParSTL"; "-5"]%string tt Ref.world0 =
    Fault LengthError.
Proof.
  apply (main_negative_size_length_error (conforming := RefFacts.runtime_conforming)
           ["IntelParSTL"; "-5"]%string (-5)%Z 18446744073709551611%Z 0%Z Ref.world0).
  - cbn. lia.
  - reflexivity.
  - lia.
  - reflexivity.
  - left. reflexivity.
Defined.

Lemma BM_Trigonometry_same_buffers_witness :
  exists vec0,
    length vec0 = Z.to_nat 3 /\
    (forall v, v ∈ vec0 -> between 0 half_pi_f v) /\
    (forall p, exists w',
       BM_Trigonometry (rt := Ref.runtime) p 3 0 tt Ref.world0 =
         Ok ({| vec := vec0; out := vec0 |}, tt, w')) /\
    (forall p k, exists w',
       BM_Trigonometry (rt := Ref.runtime) p 3 (S k) tt Ref.world0 =
         Ok ({| vec := vec0; out := trig (rt := Ref.runtime) <$> vec0 |}, tt, w')).
Proof.
  apply (BM_Trigonometry_same_buffers (conforming := RefFacts.runtime_conforming)
           3 tt Ref.world0).
  - lia.
  - vm_compute. discriminate.
Defined.

Lemma BM_SortPoints_reorders_generated_witness :
  exists generated sorted w0 w',
    BM_SortPoints (rt := Ref.runtime) pstl_par 4 0 tt Ref.world0 =
      Ok (generated, tt, w0) /\
    BM_SortPoints (rt := Ref.runtime) pstl_par 4 2 tt Ref.world0 =
      Ok (sorted, tt, w') /\
    length generated = Z.to_nat 4 /\
    sorted ≡ₚ generated /\ ascending_x sorted /\
    forall pt, pt ∈ sorted ->
      between (-1) 1 (glm.x pt) /\ between (-1) 1 (glm.y pt) /\
      between (-1) 1 (glm.z pt) /\ glm.w pt = 1%float.
Proof.
  apply (BM_SortPoints_reorders_generated (conforming := RefFacts.runtime_conforming)
           pstl_par 4 1 tt Ref.world0).
  - lia.
  - vm_compute. discriminate.
Defined.

Lemma BM_DotProduct_completes_witness :
  exists w',
    BM_DotProduct (rt := Ref.runtime) pstl_par_unseq 3 2 tt Ref.world0 =
      Ok (tt, tt, w') /\
    cout w' = cout Ref.world0.
Proof.
  apply (BM_DotProduct_completes (conforming := RefFacts.runtime_conforming)
           pstl_par_unseq 3 2 tt Ref.world0).
  - lia.
  - vm_compute. discriminate.
Defined.

Lemma price_of_int_index_wraps_witness :
  Int.to_int 2147483648 = (2147483648 - 2 ^ 32)%Z /\
  price_of Ref.stock 2147483648 = Fault OutOfBounds.
Proof.
  apply (price_of_int_index_wraps Ref.stock 2147483648).
  - lia.
  - cbn. lia.
Defined.

Lemma BM_CountingIter_pass_beyond_int_witness :
  BM_CountingIter_pass (rt := Ref.runtime) pstl_par 2147483649
    {| prices := replicate (Z.to_nat 2147483649) 0%float;
       quantities := replicate (Z.to_nat 2147483649) 0%Z;
       discounts := replicate (Z.to_nat 2147483649) 0%float;
       profit := replicate (Z.to_nat 2147483649) 0%float |} Ref.world0 =
    Fault OutOfBounds.
Proof.
  apply (BM_CountingIter_pass_beyond_int (rt := Ref.runtime) pstl_par 2147483649).
  - lia.
  - unfold sized. cbn [prices quantities discounts profit].
    rewrite !length_replicate. repeat split.
Defined.

Lemma dot_product_symmetric_witness :
  exists r w',
    TestDotProduct_run std_par Ref.dot_frame Ref.world0 =
      Ok (r, Ref.dot_frame, w') /\
    TestDotProduct_run std_par
      {| v1 := v2 Ref.dot_frame; v2 := v1 Ref.dot_frame |} Ref.world0 =
      Ok (r, {| v1 := v2 Ref.dot_frame; v2 := v1 Ref.dot_frame |}, w').
Proof.
  apply (dot_product_symmetric std_par Ref.dot_frame Ref.world0).
  reflexivity.
Defined.

Lemma BM_CountingIter_stock_in_range_witness :
  exists fr w',
    BM_CountingIter (rt := Ref.runtime) pstl_par 3 1 tt Ref.world0 = Ok (fr, tt, w') /\
    sized (Z.to_nat 3) fr /\
    (forall x, x ∈ prices fr -> between 0.5 100 x) /\
    (forall q, q ∈ quantities fr -> (1 <= q <= 100)%Z) /\
    (forall d, d ∈ discounts fr -> between 0 0.5 d).
Proof.
  apply (BM_CountingIter_stock_in_range (conforming := RefFacts.runtime_conforming)
           pstl_par 3 0 tt Ref.world0).
  - lia.
  - vm_compute. discriminate.
Defined.
